(** * Hyperscribe: the node-construction engine

    A shallow embedding of [addProps], [addChildren] and [createElement]
    from hyperscribe's [index.js], together with the part of the JavaScript
    object model and of the host document tree that those three functions
    touch, and the properties of the engine stated in the specification.

    Conventions of the embedding.

    - JavaScript values are the inductive type [value].  Arrays and objects
      are immutable values; the only mutable objects are the nodes of the
      document tree, which live in a heap and are referred to by [VNode id].
    - User functions (hooks, [toElement], [toString], [valueOf]) are
      referred to by a function identifier.  What a function does is given
      by the environment [env]: a total map from the receiver, the arguments
      and the heap to either a returned value or a thrown exception, both
      with the heap the function leaves behind.
    - Code runs in the monad [M]: a machine state (heap and call log) goes
      in, and either a result or an exception comes out, each with the
      machine state reached.  Every call the engine makes to a user function
      is appended to the call log.
    - The host is the document tree of a browser or of jsdom.  Its tables
      are fields of the environment: which tag, attribute and data names it
      accepts, how it names the interface of an element, which properties
      of a node and which members of [el.style] it defines itself, and what
      an assignment to one of those does.  A property that the host does
      not define is a slot of the node that holds what was assigned.
    - Outside the model: accessor properties of user objects, proxies,
      symbols, sparse arrays, numbers that are not integers, the printing
      of integers beyond the safe range, properties of functions, patched
      built-in prototypes, nodes other than elements, texts and comments,
      custom elements and their reactions, the lower-casing of tag and
      attribute names, and the read of a property that the host defines on
      a node, [className] apart: where a property below depends on the keys
      of a bag or on the values it holds, the bag is not a node. *)

From Stdlib Require Import ZArith String Ascii List Bool Lia DecimalString.
From stdpp Require Import base list strings.

Open Scope string_scope.
Open Scope list_scope.

(** ** Values *)

Abbreviation node_id := nat (only parsing).
Abbreviation fid := nat (only parsing).

(** [VArr items props]: an array with its elements and its other own
    properties.  [VObj tag proto fields methods]: an object whose
    [Object.prototype.toString] tag is [tag], which inherits from
    [Object.prototype] iff [proto], with its enumerable properties [fields]
    in enumeration order and its non-enumerable ones [methods] (for an
    instance of a class, the methods of the class). *)
#[warnings="-register-all"]
Inductive value : Type :=
| VUndefined
| VNull
| VBool (b : bool)
| VNum (n : Z)
| VStr (s : string)
| VFun (f : fid)
| VArr (items : list value) (props : list (string * value))
| VObj (tag : string) (proto : bool)
       (fields : list (string * value)) (methods : list (string * value))
| VNode (id : node_id).

(** A plain object literal [{k1: v1, ...}]. *)
Definition plain (fields : list (string * value)) : value :=
  VObj "Object" true fields [].

Inductive exn : Type :=
| Thrown (v : value)
| TypeError
| DOMException (name : string).

Definition is_primitive (v : value) : bool :=
  match v with
  | VUndefined | VNull | VBool _ | VNum _ | VStr _ => true
  | _ => false
  end.

(** [typeof v === 'function'] *)
Definition is_function (v : value) : bool :=
  match v with VFun _ => true | _ => false end.

(** [Array.isArray(v)] *)
Definition isArray (v : value) : bool :=
  match v with VArr _ _ => true | _ => false end.

(** [v == null] *)
Definition is_nullish (v : value) : bool :=
  match v with VUndefined | VNull => true | _ => false end.

(** The truth value of [v] in a condition. *)
Definition truthy (v : value) : bool :=
  match v with
  | VUndefined | VNull => false
  | VBool b => b
  | VNum n => negb (n =? 0)%Z
  | VStr s => negb (String.eqb s EmptyString)
  | _ => true
  end.

(** [String(v)] for a primitive. *)
Definition prim_to_string (v : value) : string :=
  match v with
  | VUndefined => "undefined"
  | VNull => "null"
  | VBool true => "true"
  | VBool false => "false"
  | VNum n => NilZero.string_of_int (Z.to_int n)
  | VStr s => s
  | _ => EmptyString
  end.

(** ** Association lists: the properties of an object, in insertion order *)

Fixpoint assoc_get {A : Type} (k : string) (l : list (string * A)) : option A :=
  match l with
  | [] => None
  | (k', a) :: l' => if String.eqb k k' then Some a else assoc_get k l'
  end.

Fixpoint assoc_set {A : Type} (k : string) (a : A) (l : list (string * A))
  : list (string * A) :=
  match l with
  | [] => [(k, a)]
  | (k', a') :: l' =>
      if String.eqb k k' then (k, a) :: l' else (k', a') :: assoc_set k a l'
  end.

(** The property name of an array index. *)
Definition index_key (i : nat) : string :=
  NilZero.string_of_uint (Nat.to_uint i).

(** The index below [len] named by [key], if any. *)
Definition key_index (key : string) (len : nat) : option nat :=
  find (fun i => String.eqb (index_key i) key) (seq 0 len).

Fixpoint chars (s : string) : list string :=
  match s with
  | EmptyString => []
  | String c s' => String c EmptyString :: chars s'
  end.

(** ** The document tree *)

Inductive node_kind : Type :=
| KElement (tag : string)
| KText (data : string)
| KComment (data : string).

Record node : Type := Node {
  n_kind : node_kind;
  n_parent : option node_id;
  n_children : list node_id;     (* childNodes *)
  n_class : string;              (* className, the class attribute *)
  n_attrs : list (string * string);        (* attributes but class, style *)
  n_style : list (string * value);         (* the members of el.style *)
  n_dataset : list (string * string);      (* el.dataset *)
  n_slots : list (string * value)          (* the properties of its own *)
}.

Definition new_node (k : node_kind) : node :=
  Node k None [] EmptyString [] [] [] [].

Definition with_parent (p : option node_id) (n : node) : node :=
  Node (n_kind n) p (n_children n) (n_class n) (n_attrs n) (n_style n)
       (n_dataset n) (n_slots n).
Definition with_children (cs : list node_id) (n : node) : node :=
  Node (n_kind n) (n_parent n) cs (n_class n) (n_attrs n) (n_style n)
       (n_dataset n) (n_slots n).
Definition with_class (c : string) (n : node) : node :=
  Node (n_kind n) (n_parent n) (n_children n) c (n_attrs n) (n_style n)
       (n_dataset n) (n_slots n).
Definition with_attrs (a : list (string * string)) (n : node) : node :=
  Node (n_kind n) (n_parent n) (n_children n) (n_class n) a (n_style n)
       (n_dataset n) (n_slots n).
Definition with_style (s : list (string * value)) (n : node) : node :=
  Node (n_kind n) (n_parent n) (n_children n) (n_class n) (n_attrs n) s
       (n_dataset n) (n_slots n).
Definition with_dataset (d : list (string * string)) (n : node) : node :=
  Node (n_kind n) (n_parent n) (n_children n) (n_class n) (n_attrs n)
       (n_style n) d (n_slots n).
Definition with_slots (s : list (string * value)) (n : node) : node :=
  Node (n_kind n) (n_parent n) (n_children n) (n_class n) (n_attrs n)
       (n_style n) (n_dataset n) s.

Definition is_element (n : node) : bool :=
  match n_kind n with KElement _ => true | _ => false end.

Abbreviation heap := (list node) (only parsing).

(** ** The environment: user functions and the host's tables *)

Inductive fn_result : Type :=
| FReturn (v : value) (h : heap)
| FThrow (e : exn) (h : heap).

Definition fn_heap (r : fn_result) : heap :=
  match r with FReturn _ h => h | FThrow _ h => h end.

(** Every node of [h] is a node of [h'], of the same kind. *)
Definition keeps_kinds (h h' : heap) : Prop :=
  forall id n, h !! id = Some n ->
    exists n', h' !! id = Some n' /\ n_kind n' = n_kind n.

Definition keeps_kinds_refl (h : heap) : keeps_kinds h h :=
  fun id n H => ex_intro _ n (conj H eq_refl).

(** What the host does to the assigned value before the setter of a
    property of its own sees it: nothing, or [ToPrimitive] with the hint
    string (a string property) or the hint number (a numeric one), which is
    the part of the conversion that runs user code. *)
Inductive conversion : Type :=
| AsIs
| ToPrim (hint_string : bool).

Record env : Type := Env {
  (* the call [f.call(this, ...args)] on heap [h] *)
  fn_call : fid -> value -> list value -> heap -> fn_result;
  (* the source text of [f], as [Function.prototype.toString] gives it *)
  fn_text : fid -> string;
  (* whether the host accepts [tag] in [document.createElement(tag)] *)
  tag_ok : string -> bool;
  (* for tag [t], the [X] of the element's interface name [HTMLXElement] *)
  iface_stem : string -> string;
  (* whether the host accepts an attribute name in [setAttribute] *)
  attr_ok : string -> bool;
  (* whether the host accepts a key on [el.dataset] *)
  data_ok : string -> bool;
  (* for a property [key] that the host defines on the nodes of kind [k]
     ([id], [tabIndex], [textContent], [tagName], ..., [className] of an
     element apart): the conversion of the assigned value *)
  host_key : node_kind -> string -> option conversion;
  (* the assignment [n[key] = p] to such a property of the node [n], after
     the conversion: what the setter does on heap [h], or the [TypeError]
     of a property without a setter *)
  host_set : node_id -> string -> value -> heap -> fn_result;
  (* for a member [rule] that the host defines on [el.style]: the conversion
     of the assigned value *)
  style_key : string -> option conversion;
  (* the assignment [el.style[rule] = p] to such a member, after the
     conversion: the members of [el.style] afterwards, or the exception *)
  style_put : string -> value -> list (string * value)
              -> exn + list (string * value);
  (* the setter of a property of an element removes no node and leaves
     every node its kind *)
  host_set_kinds : forall el key p h n,
    h !! el = Some n -> is_element n = true ->
    keeps_kinds h (fn_heap (host_set el key p h))
}.

(** ** The machine and its monad *)

Record call : Type := Call {
  c_fn : fid;
  c_this : value;
  c_args : list value
}.

Record machine : Type := Machine {
  m_heap : heap;
  m_calls : list call
}.

Inductive outcome (A : Type) : Type :=
| Ok (a : A) (m : machine)
| Throw (e : exn) (m : machine).
Arguments Ok {A} a m.
Arguments Throw {A} e m.

Definition M (A : Type) : Type := machine -> outcome A.

Definition ret {A : Type} (a : A) : M A := fun m => Ok a m.

Definition bind {A B : Type} (c : M A) (k : A -> M B) : M B :=
  fun m => match c m with
           | Ok a m' => k a m'
           | Throw e m' => Throw e m'
           end.

Definition throw {A : Type} (e : exn) : M A := fun m => Throw e m.

Declare Scope js_scope.
Delimit Scope js_scope with js.
Notation "x <- c ;; k" := (bind c (fun x => k))
  (at level 100, c at next level, right associativity) : js_scope.
Notation "c ;;; k" := (bind c (fun _ => k))
  (at level 100, right associativity) : js_scope.
Open Scope js_scope.

(** [for (const x of xs) body(x)] *)
Definition for_each {A : Type} (body : A -> M unit) : list A -> M unit :=
  fix go (xs : list A) : M unit :=
    match xs with
    | [] => ret tt
    | x :: xs' => body x ;;; go xs'
    end.

Definition when (b : bool) (c : M unit) : M unit :=
  if b then c else ret tt.

Definition get_heap : M heap := fun m => Ok (m_heap m) m.

Definition get_node (id : node_id) : M node :=
  fun m => match m_heap m !! id with
           | Some n => Ok n m
           | None => Throw TypeError m
           end.

Definition set_node (id : node_id) (n : node) : M unit :=
  fun m => Ok tt (Machine (<[id := n]> (m_heap m)) (m_calls m)).

Definition alloc (n : node) : M node_id :=
  fun m => Ok (List.length (m_heap m)) (Machine (m_heap m ++ [n]) (m_calls m)).

Definition put_heap (h : heap) : M unit :=
  fun m => Ok tt (Machine h (m_calls m)).

Definition map_m {A B : Type} (f : A -> M B) : list A -> M (list B) :=
  fix go (xs : list A) : M (list B) :=
    match xs with
    | [] => ret []
    | x :: xs' => y <- f x ;; ys <- go xs' ;; ret (y :: ys)
    end.

(** ** Properties and methods of values *)

(** What the read [n[key]] of a node yields: the class attribute for
    [className] on an element, the node's own property of that name
    otherwise.  The engine reads the append hooks, [toElement] and
    [toString] of a node, none of which the host defines. *)
Definition node_prop (key : string) (n : node) : option value :=
  if String.eqb key "className" && is_element n
  then Some (VStr (n_class n))
  else assoc_get key (n_slots n).

(** The property [v[key]] where [v] has it, own or inherited from a class.
    The built-in methods of the standard prototypes are not listed here;
    see [method]. *)
Definition lookup_prop (h : heap) (v : value) (key : string) : option value :=
  match v with
  | VStr s =>
      match key_index key (String.length s) with
      | Some i => VStr <$> (chars s !! i)
      | None => None
      end
  | VArr items props =>
      match key_index key (List.length items) with
      | Some i => items !! i
      | None => assoc_get key props
      end
  | VObj _ _ fields methods =>
      match assoc_get key fields with
      | Some x => Some x
      | None => assoc_get key methods
      end
  | VNode id =>
      match h !! id with
      | Some n => node_prop key n
      | None => None
      end
  | _ => None
  end.

(** [v[key]] *)
Definition get_prop (h : heap) (v : value) (key : string) : value :=
  default VUndefined (lookup_prop h v key).

(** The keys that [for (key in v)] visits, in order.  For a node these are
    the properties of its own; the enumerable properties that a node
    inherits from the host are outside the model. *)
Definition for_in_keys (h : heap) (v : value) : list string :=
  match v with
  | VStr s => index_key <$> seq 0 (String.length s)
  | VArr items props => (index_key <$> seq 0 (List.length items)) ++ props.*1
  | VObj _ _ fields _ => fields.*1
  | VNode id =>
      match h !! id with
      | Some n => (n_slots n).*1
      | None => []
      end
  | _ => []
  end.

(** Whether [v] inherits the built-in [toString] and [valueOf]. *)
Definition has_builtins (v : value) : bool :=
  match v with
  | VUndefined | VNull => false
  | VObj _ proto _ _ => proto
  | _ => true
  end.

Inductive callee : Type :=
| User (f : fid)
| Native.

(** The function that [v[key]] is when [typeof v[key] === 'function'],
    for [key] one of [toString] and [valueOf]. *)
Definition method (h : heap) (v : value) (key : string) : option callee :=
  match lookup_prop h v key with
  | Some (VFun f) => Some (User f)
  | Some _ => None
  | None => if has_builtins v then Some Native else None
  end.

Definition interface_name (stem : string -> string) (k : node_kind) : string :=
  match k with
  | KElement tag => "HTML" +:+ stem tag +:+ "Element"
  | KText _ => "Text"
  | KComment _ => "Comment"
  end.

Definition has_whitespace (s : string) : bool :=
  existsb (fun c => existsb (Ascii.eqb c)
                      [" "%char; "009"%char; "010"%char; "012"%char; "013"%char])
          (list_ascii_of_string s).

(** The words of [s], separated by white space, after the word [cur] that
    is being read. *)
Fixpoint split_ws (s : string) (cur : string) : list string :=
  match s with
  | EmptyString => if String.eqb cur EmptyString then [] else [cur]
  | String c s' =>
      if has_whitespace (String c EmptyString)
      then (if String.eqb cur EmptyString then split_ws s' EmptyString
            else cur :: split_ws s' EmptyString)
      else split_ws s' (cur +:+ String c EmptyString)
  end.

Definition token_add (set : list string) (t : string) : list string :=
  if existsb (String.eqb t) set then set else set ++ [t].

(** [el.classList]: the class attribute as the ordered set of its tokens. *)
Definition class_list (n : node) : list string :=
  fold_left token_add (split_ws (n_class n) EmptyString) [].

Fixpoint validate_tokens (ts : list string) : option exn :=
  match ts with
  | [] => None
  | t :: ts' =>
      if String.eqb t EmptyString then Some (DOMException "SyntaxError")
      else if has_whitespace t then Some (DOMException "InvalidCharacterError")
      else validate_tokens ts'
  end.

(** Whether [target] is [root] or below it. *)
Fixpoint contains (h : heap) (fuel : nat) (root target : node_id) : bool :=
  Nat.eqb root target ||
  match fuel with
  | O => false
  | S fuel' =>
      match h !! root with
      | Some n => existsb (fun c => contains h fuel' c target) (n_children n)
      | None => false
      end
  end.

Definition remove_id (c : node_id) (l : list node_id) : list node_id :=
  filter (fun x => x ≠ c) l.

Definition detach (c : node_id) (h : heap) : heap :=
  match h !! c with
  | Some cn =>
      match n_parent cn with
      | Some p =>
          match h !! p with
          | Some pn =>
              <[c := with_parent None cn]>
                (<[p := with_children (remove_id c (n_children pn)) pn]> h)
          | None => <[c := with_parent None cn]> h
          end
      | None => h
      end
  | None => h
  end.

Definition attach (p c : node_id) (h : heap) : heap :=
  match h !! p, h !! c with
  | Some pn, Some cn =>
      <[c := with_parent (Some p) cn]>
        (<[p := with_children (n_children pn ++ [c]) pn]> h)
  | _, _ => h
  end.

(** ** The engine, over an environment *)

Section Engine.

Variable E : env.

(** [f.call(this, ...args)], recorded in the call log. *)
Definition call_fn (f : fid) (this : value) (args : list value) : M value :=
  fun m =>
    let log := m_calls m ++ [Call f this args] in
    match fn_call E f this args (m_heap m) with
    | FReturn v h => Ok v (Machine h log)
    | FThrow e h => Throw e (Machine h log)
    end.

(** [Array.prototype.join] with the separator [","], over [ts] as the
    conversion of an element to a string. *)
Definition join_with (ts : value -> M string) : list value -> M (list string) :=
  fix go (xs : list value) : M (list string) :=
    match xs with
    | [] => ret []
    | x :: xs' =>
        s <- (if is_nullish x then ret EmptyString else ts x) ;;
        ss <- go xs' ;;
        ret (s :: ss)
    end.

(** The built-in [toString] that [v] inherits: of [Object.prototype],
    [Array.prototype], [Function.prototype], the wrappers of the primitives,
    and of the host's nodes. *)
Definition native_toString_with (ts : value -> M string) (v : value) : M value :=
  match v with
  | VArr items _ => ss <- join_with ts items ;; ret (VStr (String.concat "," ss))
  | VFun f => ret (VStr (fn_text E f))
  | VObj tag _ _ _ => ret (VStr ("[object " +:+ tag +:+ "]"))
  | VNode id =>
      n <- get_node id ;;
      ret (VStr ("[object " +:+ interface_name (iface_stem E) (n_kind n) +:+ "]"))
  | _ => ret (VStr (prim_to_string v))
  end.

(** One step of [OrdinaryToPrimitive]: call [v[key]] if it is a function
    and keep a primitive result, otherwise go on with [otherwise]. *)
Definition try_method (native_toString : M value) (v : value) (key : string)
    (otherwise : M value) : M value :=
  h <- get_heap ;;
  match method h v key with
  | Some c =>
      r <- match c with
           | User f => call_fn f v []
           | Native => if String.eqb key "toString" then native_toString else ret v
           end ;;
      if is_primitive r then ret r else otherwise
  | None => otherwise
  end.

(** [ToPrimitive(v, hint)]: [toString] first under the hint string,
    [valueOf] first otherwise. *)
Definition to_primitive_with (native_toString : M value) (hint_string : bool)
    (v : value) : M value :=
  if is_primitive v then ret v
  else if hint_string
  then try_method native_toString v "toString"
         (try_method native_toString v "valueOf" (throw TypeError))
  else try_method native_toString v "valueOf"
         (try_method native_toString v "toString" (throw TypeError)).

(** [ToString(v)], the conversion the host applies to a string argument. *)
Fixpoint to_string (v : value) : M string :=
  p <- to_primitive_with (native_toString_with to_string v) true v ;;
  ret (prim_to_string p).

Definition native_toString (v : value) : M value :=
  native_toString_with to_string v.

Definition to_primitive (hint_string : bool) (v : value) : M value :=
  to_primitive_with (native_toString v) hint_string v.

(** ['' + v] *)
Definition concat_empty (v : value) : M string :=
  p <- to_primitive false v ;; ret (prim_to_string p).

(** [{}.toString.call(v)] *)
Definition object_toString (h : heap) (v : value) : string :=
  "[object " +:+
  match v with
  | VUndefined => "Undefined"
  | VNull => "Null"
  | VBool _ => "Boolean"
  | VNum _ => "Number"
  | VStr _ => "String"
  | VFun _ => "Function"
  | VArr _ _ => "Array"
  | VObj tag _ _ _ => tag
  | VNode id =>
      match h !! id with
      | Some n => interface_name (iface_stem E) (n_kind n)
      | None => "Node"
      end
  end +:+ "]".

(** *** The host's document tree API *)

(** [document.createElement(tag)] *)
Definition document_createElement (tag : string) : M node_id :=
  if tag_ok E tag then alloc (new_node (KElement tag))
  else throw (DOMException "InvalidCharacterError").

(** [document.createComment(data)] *)
Definition createComment (data : value) : M node_id :=
  s <- to_string data ;; alloc (new_node (KComment s)).

(** [document.createTextNode(data)] *)
Definition createTextNode (data : value) : M node_id :=
  s <- to_string data ;; alloc (new_node (KText s)).

(** [v instanceof Element || v instanceof Comment || v instanceof Text] *)
Definition is_tree_node (h : heap) (v : value) : bool :=
  match v with
  | VNode id => bool_decide (is_Some (h !! id))
  | _ => false
  end.

(** [el.appendChild(child)]: the host refuses a child that is not a node,
    a parent that is not an element, and a child that is the parent or one
    of its ancestors; it takes the child out of its former parent. *)
Definition appendChild (el : node_id) (child : value) : M unit :=
  p <- get_node el ;;
  h <- get_heap ;;
  match child with
  | VNode c =>
      match h !! c with
      | Some _ =>
          if negb (is_element p)
          then throw (DOMException "HierarchyRequestError")
          else if contains h (List.length h) c el
          then throw (DOMException "HierarchyRequestError")
          else put_heap (attach el c (detach c h))
      | None => throw TypeError
      end
  | _ => throw TypeError
  end.

(** The conversion [c] of an assigned value. *)
Definition convert (c : conversion) (v : value) : M value :=
  match c with
  | AsIs => ret v
  | ToPrim hint_string => to_primitive hint_string v
  end.

(** What the host does on the heap, as a step of a computation. *)
Definition host_step (r : heap -> fn_result) : M unit :=
  fun m => match r (m_heap m) with
           | FReturn _ h => Ok tt (Machine h (m_calls m))
           | FThrow e h => Throw e (Machine h (m_calls m))
           end.

(** [el[key] = v]: the class attribute for [className] on an element, the
    setter of the host for a property that the host defines, a property of
    the node's own otherwise. *)
Definition set_property (el : node_id) (key : string) (v : value) : M unit :=
  n <- get_node el ;;
  if String.eqb key "className" && is_element n
  then s <- to_string v ;;
       n' <- get_node el ;;
       set_node el (with_class s n')
  else
    match host_key E (n_kind n) key with
    | Some c => p <- convert c v ;; host_step (host_set E el key p)
    | None => set_node el (with_slots (assoc_set key v (n_slots n)) n)
    end.

(** [el.classList.add(...args)] *)
Definition classList_add (el : node_id) (args : list value) : M unit :=
  n <- get_node el ;;
  if negb (is_element n) then throw TypeError
  else
    tokens <- map_m to_string args ;;
    match validate_tokens tokens with
    | Some e => throw e
    | None =>
        n' <- get_node el ;;
        set_node el
          (with_class (String.concat " " (fold_left token_add tokens (class_list n'))) n')
    end.

(** [el.style[rule] = v]: the setter of the host for a member that the
    host defines, a property of the style object's own otherwise. *)
Definition style_set (el : node_id) (rule : string) (v : value) : M unit :=
  n <- get_node el ;;
  if negb (is_element n) then throw TypeError
  else
    match style_key E rule with
    | Some c =>
        p <- convert c v ;;
        n' <- get_node el ;;
        match style_put E rule p (n_style n') with
        | inl e => throw e
        | inr s => set_node el (with_style s n')
        end
    | None => set_node el (with_style (assoc_set rule v (n_style n)) n)
    end.

(** [el.dataset[key] = v] *)
Definition dataset_set (el : node_id) (key : string) (v : value) : M unit :=
  n <- get_node el ;;
  if negb (is_element n) then throw TypeError
  else
    s <- to_string v ;;
    if negb (data_ok E key) then throw (DOMException "SyntaxError")
    else n' <- get_node el ;;
         set_node el (with_dataset (assoc_set key s (n_dataset n')) n').

(** [el.setAttribute(name, v)] *)
Definition setAttribute (el : node_id) (name : string) (v : value) : M unit :=
  n <- get_node el ;;
  if negb (is_element n) then throw TypeError
  else
    s <- to_string v ;;
    if negb (attr_ok E name) then throw (DOMException "InvalidCharacterError")
    else n' <- get_node el ;;
         if String.eqb name "class" then set_node el (with_class s n')
         else set_node el (with_attrs (assoc_set name s (n_attrs n')) n').

(** *** [index.js] *)

(** [for (const key in v) body(key)] *)
Definition for_in (v : value) (body : string -> M unit) : M unit :=
  h <- get_heap ;; for_each body (for_in_keys h v).

(** The read [v[key]] as a step of a computation. *)
Definition prop (v : value) (key : string) : M value :=
  h <- get_heap ;; ret (get_prop h v key).

Definition array_items (v : value) : list value :=
  match v with VArr items _ => items | _ => [] end.

(** The body of the loop of [addProps], for one key. *)
Definition addProp (props : value) (el : node_id) (key : string) : M unit :=
  if String.eqb key "class" then
    classNames <- prop props "class" ;;
    if isArray classNames then classList_add el (array_items classNames)
    else if negb (is_nullish classNames) then set_property el "className" classNames
    else ret tt
  else if String.eqb key "for" then
    v <- prop props "for" ;; set_property el "htmlFor" v
  else if String.eqb key "tabindex" then
    v <- prop props "tabindex" ;; set_property el "tabIndex" v
  else if String.eqb key "style" then
    styles <- prop props "style" ;;
    for_in styles (fun rule => v <- prop styles rule ;; style_set el rule v)
  else if String.eqb key "dataset" then
    dataset <- prop props "dataset" ;;
    for_in dataset (fun dataKey => v <- prop dataset dataKey ;; dataset_set el dataKey v)
  else if String.eqb key "role" then
    v <- prop props "role" ;; setAttribute el "role" v
  else if String.eqb key "aria" then
    aria <- prop props "aria" ;;
    for_in aria (fun attr => v <- prop aria attr ;; setAttribute el ("aria-" +:+ attr) v)
  else
    v <- prop props key ;; set_property el key v.

Definition addProps (props : value) (el : node_id) : M unit :=
  for_in props (addProp props el).

(** [if (children && typeof children[key] === 'function') children[key](el)] *)
Definition append_hook (key : string) (children : value) (el : node_id) : M unit :=
  if truthy children then
    h <- get_heap ;;
    match get_prop h children key with
    | VFun f => call_fn f children [VNode el] ;;; ret tt
    | _ => ret tt
    end
  else ret tt.

(** The branches of [addChildren] for a value that is not an array. *)
Definition append_one (children : value) (el : node_id) : M unit :=
  h <- get_heap ;;
  if is_tree_node h children then appendChild el children
  else if is_nullish children then
    c <- createComment (VStr (prim_to_string children)) ;;
    appendChild el (VNode c)
  else
    match get_prop h children "toElement" with
    | VFun f =>
        r <- call_fn f children [] ;;
        appendChild el r
    | _ =>
        match method h children "toString" with
        | Some c =>
            r <- match c with
                 | User f => call_fn f children []
                 | Native => native_toString children
                 end ;;
            t <- createTextNode r ;;
            appendChild el (VNode t)
        | None =>
            s <- concat_empty children ;;
            t <- createTextNode (VStr s) ;;
            appendChild el (VNode t)
        end
    end.

Fixpoint addChildren (children : value) (el : node_id) : M unit :=
  append_hook "onbeforeappend" children el ;;;
  match children with
  | VArr items _ => for_each (fun child => addChildren child el) items
  | _ => append_one children el
  end ;;;
  append_hook "onappend" children el.

(** The body of the loop of [createElement], for one argument. *)
Definition dispatch (el : node_id) (arg : value) : M unit :=
  h <- get_heap ;;
  if String.eqb (object_toString h arg) "[object Object]" then addProps arg el
  else
    match arg with
    | VFun f => call_fn f VUndefined [VNode el] ;;; ret tt
    | _ => addChildren arg el
    end.

Definition createElement (tag : string) (args : list value) : M node_id :=
  el <- document_createElement tag ;;
  for_each (dispatch el) args ;;;
  ret el.

End Engine.

(** ** Notions in which the properties are stated *)

(** [el.childNodes] in heap [h] *)
Definition children_of (h : heap) (el : node_id) : list node_id :=
  match h !! el with Some n => n_children n | None => [] end.

(** The part of [addChildren] between the two hooks: what the value
    contributes to the children of the target. *)
Definition content (E : env) (v : value) (el : node_id) : M unit :=
  match v with
  | VArr items _ => for_each (fun child => addChildren E child el) items
  | _ => append_one E v el
  end.

(** The child that [append_one] appends for a value that is not a node of
    the tree: the new comment, what [toElement] returns, or the new text. *)
Definition product (E : env) (v : value) : M value :=
  h <- get_heap ;;
  if is_nullish v then
    c <- createComment E (VStr (prim_to_string v)) ;; ret (VNode c)
  else
    match get_prop h v "toElement" with
    | VFun f => call_fn E f v []
    | _ =>
        match method h v "toString" with
        | Some c =>
            r <- match c with
                 | User f => call_fn E f v []
                 | Native => native_toString E v
                 end ;;
            t <- createTextNode E r ;;
            ret (VNode t)
        | None =>
            s <- concat_empty E v ;;
            t <- createTextNode E (VStr s) ;;
            ret (VNode t)
        end
    end.

(** The heap after the host has created a node of kind [k] and appended it
    to [el]. *)
Definition append_new (el : node_id) (h : heap) (k : node_kind) : heap :=
  attach el (List.length h) (h ++ [new_node k]).

(** The elements of a nested sequence, depth first and left to right. *)
Fixpoint leaves (v : value) : list value :=
  match v with
  | VArr items _ => flat_map leaves items
  | _ => [v]
  end.

(** What [addChildren] does for [v], as a sequence of steps: the two hooks
    of every value and, for a value that is not an array, its append. *)
Inductive step : Type :=
| SBefore (v : value)
| SAppend (v : value)
| SAfter (v : value).

Fixpoint steps (v : value) : list step :=
  match v with
  | VArr items _ => SBefore v :: flat_map steps items ++ [SAfter v]
  | _ => [SBefore v; SAppend v; SAfter v]
  end.

Definition run_step (E : env) (el : node_id) (s : step) : M unit :=
  match s with
  | SBefore v => append_hook E "onbeforeappend" v el
  | SAppend v => append_one E v el
  | SAfter v => append_hook E "onappend" v el
  end.

Definition appended (s : step) : list value :=
  match s with SAppend v => [v] | _ => [] end.

(** A value that is not a node and holds a function under [key]. *)
Definition carries (v : value) (key : string) : bool :=
  is_function (get_prop [] v key).

Definition quiet (v : value) : bool :=
  negb (carries v "onbeforeappend") && negb (carries v "onappend").

(** Values whose append runs no user code and needs no existing node:
    primitives (of numbers, the safe integers), functions, objects that
    only have the built-in [toString], and arrays of such values, all
    without append hooks. *)
Fixpoint inert (v : value) : bool :=
  match v with
  | VNode _ => false
  | VNum n => (Z.abs n <=? 2 ^ 53)%Z
  | VArr items _ => forallb inert items && quiet v
  | VObj _ proto _ _ =>
      proto && quiet v && negb (carries v "toElement")
      && bool_decide (lookup_prop [] v "toString" = None)
  | _ => true
  end.

(** The node that the append of an inert value that is not an array creates. *)
Definition leaf_kind (E : env) (v : value) : node_kind :=
  match v with
  | VUndefined => KComment "undefined"
  | VNull => KComment "null"
  | VFun f => KText (fn_text E f)
  | VObj tag _ _ _ => KText ("[object " +:+ tag +:+ "]")
  | _ => KText (prim_to_string v)
  end.

(** The keys that [addProps] treats specially. *)
Definition special_keys : list string :=
  ["class"; "for"; "tabindex"; "style"; "dataset"; "role"; "aria"].

Definition special (key : string) : bool :=
  existsb (String.eqb key) special_keys.

(** The property of the node that the key [k] of a property bag writes,
    for the keys that write one property. *)
Definition target (k : string) : option string :=
  if String.eqb k "class" then Some "className"
  else if String.eqb k "for" then Some "htmlFor"
  else if String.eqb k "tabindex" then Some "tabIndex"
  else if special k then None
  else Some k.

(** A property name that is not an array index. *)
Definition named (key : string) : bool :=
  match key with
  | EmptyString => true
  | String c _ =>
      negb (existsb (Ascii.eqb c)
              ["0"; "1"; "2"; "3"; "4"; "5"; "6"; "7"; "8"; "9"]%char)
  end.

(** [R] relates the machine before a computation to the machine after it,
    however the computation ends. *)
Definition respects {A : Type} (R : machine -> machine -> Prop) (c : M A) : Prop :=
  forall m, match c m with Ok _ m' => R m m' | Throw _ m' => R m m' end.

(** The call log only grows. *)
Definition log_extends (m m' : machine) : Prop :=
  exists mid, m_calls m' = m_calls m ++ mid.

(** The property [key] of the node [el] holds [x]. *)
Definition prop_is (el : node_id) (key : string) (x : value) (h : heap) : Prop :=
  lookup_prop h (VNode el) key = Some x.

Definition is_string (v : value) : bool :=
  match v with VStr _ => true | _ => false end.

Definition valid_token (t : string) : bool :=
  negb (String.eqb t EmptyString) && negb (has_whitespace t).

(** The hook that [v] exposes under [key], if any. *)
Definition exposed_hook (h : heap) (v : value) (key : string) : option fid :=
  if truthy v
  then match get_prop h v key with VFun f => Some f | _ => None end
  else None.

(** One invocation of the hook [f] of [v] with the node [el]: one entry in
    the call log, whatever the hook does. *)
Definition invoke_once (E : env) (f : fid) (v : value) (el : node_id)
    (m : machine) : outcome unit :=
  let log := m_calls m ++ [Call f v [VNode el]] in
  match fn_call E f v [VNode el] (m_heap m) with
  | FReturn _ h => Ok tt (Machine h log)
  | FThrow e h => Throw e (Machine h log)
  end.

Definition invoke_exposed (E : env) (key : string) (v : value) (el : node_id)
    (m : machine) : outcome unit :=
  match exposed_hook (m_heap m) v key with
  | Some f => invoke_once E f v el m
  | None => Ok tt m
  end.

(** ** A sample environment *)

(** [function (el) { el[key] = el.childNodes.length }] *)
Definition record_count (key : string) (args : list value) (h : heap) : fn_result :=
  match args with
  | VNode el :: _ =>
      match h !! el with
      | Some n =>
          FReturn VUndefined
            (<[el := with_slots
                       (assoc_set key (VNum (Z.of_nat (List.length (n_children n))))
                          (n_slots n)) n]> h)
      | None => FThrow TypeError h
      end
  | _ => FThrow TypeError h
  end.

Definition sample_call (f : fid) (this : value) (args : list value) (h : heap)
  : fn_result :=
  match f with
  | 1 => (* () => document.createElement('span') *)
      FReturn (VNode (List.length h)) (h ++ [new_node (KElement "span")])
  | 2 => (* () => 'Hello, test!' *)
      FReturn (VStr "Hello, test!") h
  | 3 => (* () => { throw 'boom' } *)
      FThrow (Thrown (VStr "boom")) h
  | 4 => record_count "before" args h
  | 5 => record_count "after" args h
  | _ => (* function () {} *)
      FReturn VUndefined h
  end.

(** The host of the examples: it reflects [id] and [title] as string
    attributes of an element, its [tagName] has no setter, its
    [el.style.width] takes a length given as a string and ignores every
    other value, and it defines nothing else. *)
Definition sample_key (k : node_kind) (key : string) : option conversion :=
  match k with
  | KElement _ =>
      if String.eqb key "id" || String.eqb key "title" then Some (ToPrim true)
      else if String.eqb key "tagName" then Some AsIs
      else None
  | _ => None
  end.

Definition sample_set (el : node_id) (key : string) (p : value) (h : heap)
  : fn_result :=
  if String.eqb key "id" || String.eqb key "title" then
    match h !! el with
    | Some n =>
        FReturn VUndefined
          (<[el := with_attrs (assoc_set key (prim_to_string p) (n_attrs n)) n]> h)
    | None => FThrow TypeError h
    end
  else FThrow TypeError h.

Definition sample_set_kinds el key p h n :
  h !! el = Some n -> is_element n = true ->
  keeps_kinds h (fn_heap (sample_set el key p h)).
Proof.
  intros Hel _ id x Hx. unfold sample_set.
  destruct (String.eqb key "id" || String.eqb key "title");
    [|exists x; split; [exact Hx | reflexivity]].
  rewrite Hel. cbn [fn_heap].
  destruct (Nat.eq_dec id el) as [->|Hne].
  - rewrite Hel in Hx. injection Hx as <-. eexists. split.
    + apply list_lookup_insert_eq, (lookup_lt_Some _ _ _ Hel).
    + reflexivity.
  - exists x. split; [|reflexivity].
    rewrite list_lookup_insert_ne by congruence. exact Hx.
Defined.

Definition sample_style (rule : string) (p : value)
    (s : list (string * value)) : exn + list (string * value) :=
  match p with
  | VStr _ => inr (assoc_set rule p s)
  | _ => inr s
  end.

Definition sample_host (call : fid -> value -> list value -> heap -> fn_result)
    (stem : string -> string) : env :=
  Env call
      (fun _ => "function () {}")
      (fun tag => negb (String.eqb tag EmptyString))
      stem
      (fun _ => true)
      (fun _ => true)
      sample_key
      sample_set
      (fun rule => if String.eqb rule "width" then Some (ToPrim true) else None)
      sample_style
      sample_set_kinds.

Definition sample_env : env :=
  sample_host sample_call
    (fun tag => if String.eqb tag "div" then "Div"
                else if String.eqb tag "span" then "Span" else EmptyString).

(** [new Widget()] for [class Widget { toElement() { ... } }] *)
Definition widget : value :=
  VObj "Object" true [] [("toElement", VFun 1)].

(** [Object.create(null)] *)
Definition bare_object : value := VObj "Object" false [] [].

(** A document with one [div], the node [0]. *)
Definition one_div : machine := Machine [new_node (KElement "div")] [].

(** An environment whose functions do nothing. *)
Definition idle_env : env :=
  sample_host (fun _ _ _ h => FReturn VUndefined h) (fun _ => EmptyString).

Definition div : node := new_node (KElement "div").

(** A new text or comment node, once appended to [parent]. *)
Definition child_of (parent : node_id) (k : node_kind) : node :=
  with_parent (Some parent) (new_node k).

(** [[1, 2]] *)
Definition one_two : value := VArr [VNum 1; VNum 2] [].

(** [{htmlFor: 'a'}] and [{htmlFor: 'b', for: 'c'}] *)
Definition bag_a : value := plain [("htmlFor", VStr "a")].
Definition bag_b_c : value := plain [("htmlFor", VStr "b"); ("for", VStr "c")].

(** [{note: 'a'}] and [{note: 'b', label: 't'}] *)
Definition bag_note_a : value := plain [("note", VStr "a")].
Definition bag_note_b : value := plain [("note", VStr "b"); ("label", VStr "t")].

(** [['a', [null, 5], undefined]] *)
Definition nested : value :=
  VArr [VStr "a"; VArr [VNull; VNum 5] []; VUndefined] [].

(** [{label: 'x', toElement() { ... }}], an instance of a class with a field. *)
Definition labelled_widget : value :=
  VObj "Object" true [("label", VStr "x")] [("toElement", VFun 1)].

(** A [span] with the hooks [4] and [5], as [span({onbeforeappend, onappend})]
    makes it, next to the [div] of [one_div]. *)
Definition hooked_span : node :=
  with_slots [("onbeforeappend", VFun 4); ("onappend", VFun 5)]
             (new_node (KElement "span")).

Definition div_and_span : machine := Machine [div; hooked_span] [].

(** The property [key] of the node [el], once it holds a value, holds it
    afterwards. *)
Definition keeps_prop (el : node_id) (key : string) (m m' : machine) : Prop :=
  forall x, prop_is el key x (m_heap m) -> prop_is el key x (m_heap m').

(** The heap after the leaf [v] of a sequence has been appended to [el]: an
    existing node is moved to the end of the children of [el], any other
    value gets a new node there. *)
Definition append_leaf (E : env) (el : node_id) (h : heap) (v : value) : heap :=
  match v with
  | VNode c => attach el c (detach c h)
  | _ => append_new el h (leaf_kind E v)
  end.

(** The node that stands for the leaf [v] once it is appended in heap [h]. *)
Definition leaf_id (h : heap) (v : value) : node_id :=
  match v with
  | VNode c => c
  | _ => List.length h
  end.

(** Whether the leaf [v] is appended to [el] in heap [h] without user code
    and without a refusal of the host: [el] is an element, and [v] is
    either inert or a node without append hooks that is neither [el] nor
    above it. *)
Definition appendable (el : node_id) (h : heap) (v : value) : bool :=
  match h !! el with
  | Some p =>
      is_element p &&
      match v with
      | VNode c =>
          bool_decide (is_Some (h !! c))
          && negb (is_function (get_prop h v "onbeforeappend"))
          && negb (is_function (get_prop h v "onappend"))
          && negb (contains h (List.length h) c el)
      | VArr _ _ => false
      | _ => inert v
      end
  | None => false
  end.

(** Whether the leaves can be appended one after the other. *)
Fixpoint appendable_all (E : env) (el : node_id) (h : heap) (ls : list value)
  : bool :=
  match ls with
  | [] => true
  | v :: ls' => appendable el h v && appendable_all E el (append_leaf E el h v) ls'
  end.

(** Whether no array in [v] carries an append hook. *)
Fixpoint quiet_arrays (v : value) : bool :=
  match v with
  | VArr items _ => quiet v && forallb quiet_arrays items
  | _ => true
  end.

(** The place of a node in the tree. *)
Definition shape (n : node) : node_kind * option node_id * list node_id :=
  (n_kind n, n_parent n, n_children n).

(** Every node of [h] is a node of [h'], of the same kind and at the same
    place in the tree. *)
Definition keeps_shape (h h' : heap) : Prop :=
  forall id n, h !! id = Some n ->
    exists n', h' !! id = Some n' /\ shape n' = shape n.

(** The children of a node after [c] has been appended to it: [c] leaves
    the place it had among them, if any, and comes last. *)
Definition moved (cs : list node_id) (c : node_id) : list node_id :=
  remove_id c cs ++ [c].

(** [el] is an element whose children are nodes with [el] for parent. *)
Definition settled (h : heap) (el : node_id) : Prop :=
  (exists p, h !! el = Some p /\ is_element p = true) /\
  forall c, In c (children_of h el) ->
    exists cn, h !! c = Some cn /\ n_parent cn = Some el.

(** The node [c] of [h] stands for the leaf [v]: it is [v] when [v] is a
    node, and the text or comment of [v] when [v] is inert. *)
Definition stands_for (E : env) (h : heap) (v : value) (c : node_id) : Prop :=
  match v with
  | VNode c' => c = c'
  | _ => exists n, h !! c = Some n /\ (inert v = true -> n_kind n = leaf_kind E v)
  end.

(** The exceptions that a user function raises, and the two with which the
    host refuses a child or a conversion. *)
Definition raised_by_user (E : env) (e : exn) : Prop :=
  exists f this args h h', fn_call E f this args h = FThrow e h'.

Definition host_refusal (e : exn) : Prop :=
  e = TypeError \/ e = DOMException "HierarchyRequestError".

(** Every exception that [c] ends with satisfies [P]. *)
Definition raises_only {A : Type} (P : exn -> Prop) (c : M A) : Prop :=
  forall m e m', c m = Throw e m' -> P e.

(** [{toString: 5}] *)
Definition stubborn : value := plain [("toString", VNum 5)].

(** [[span, undefined]] for the node [0] *)
Definition node_and_undefined : value := VArr [VNode 0; VUndefined] [].

(** A document with a [span], the node [0], and a [div], the node [1]. *)
Definition span_and_div : machine :=
  Machine [new_node (KElement "span"); div] [].

(** ** The tag shortcuts *)

(** The exports [export const name = createElement.bind(null, tag)] of
    [index.js], as pairs of the exported name and the bound tag, in the
    order of the file. *)
Definition shortcuts : list (string * string) :=
  [("a", "a"); ("abbr", "abbr"); ("acronym", "acronym");
   ("address", "address"); ("applet", "applet"); ("area", "area");
   ("article", "article"); ("aside", "aside"); ("audio", "audio"); ("b", "b");
   ("base", "base"); ("basefont", "basefont"); ("bdi", "bdi"); ("bdo", "bdo");
   ("big", "big"); ("blockquote", "blockquote"); ("body", "body");
   ("br", "br"); ("button", "button"); ("canvas", "canvas");
   ("caption", "caption"); ("center", "center"); ("cite", "cite");
   ("code", "code"); ("col", "col"); ("colgroup", "colgroup");
   ("datalist", "datalist"); ("dd", "dd"); ("del", "del");
   ("details", "details"); ("dfn", "dfn"); ("dir", "dir"); ("div", "div");
   ("dl", "dl"); ("dt", "dt"); ("em", "em"); ("embed", "embed");
   ("fieldset", "fieldset"); ("figcaption", "figcaption");
   ("figure", "figure"); ("font", "font"); ("footer", "footer");
   ("form", "form"); ("frame", "frame"); ("frameset", "frameset");
   ("h1", "h1"); ("h2", "h2"); ("h3", "h3"); ("h4", "h4"); ("h5", "h5");
   ("h6", "h6"); ("head", "head"); ("header", "header"); ("hgroup", "hgroup");
   ("hr", "hr"); ("html", "html"); ("i", "i"); ("iframe", "iframe");
   ("img", "img"); ("input", "input"); ("ins", "ins"); ("kbd", "kbd");
   ("keygen", "keygen"); ("label", "label"); ("legend", "legend");
   ("li", "li"); ("link", "link"); ("map", "map"); ("mark", "mark");
   ("menu", "menu"); ("meta", "meta"); ("meter", "meter"); ("nav", "nav");
   ("noframes", "noframes"); ("noscript", "noscript"); ("object", "object");
   ("ol", "ol"); ("optgroup", "optgroup"); ("output", "output"); ("p", "p");
   ("param", "param"); ("pre", "pre"); ("progress", "progress"); ("q", "q");
   ("rp", "rp"); ("rt", "rt"); ("ruby", "ruby"); ("s", "s"); ("samp", "samp");
   ("script", "script"); ("section", "section"); ("select", "select");
   ("small", "small"); ("source", "source"); ("span", "span");
   ("strike", "strike"); ("strong", "strong"); ("style", "style");
   ("sub", "sub"); ("summary", "summary"); ("sup", "sup"); ("table", "table");
   ("tbody", "tbody"); ("td", "td"); ("textarea", "textarea");
   ("tfoot", "tfoot"); ("th", "th"); ("thead", "thead"); ("time", "time");
   ("title", "title"); ("tr", "tr"); ("track", "track"); ("tt", "tt");
   ("u", "u"); ("ul", "ul"); ("v", "var"); ("video", "video");
   ("wbr", "wbr")].

(** The shortcut that the module exports as [name], if it exports one:
    [createElement] with its first argument bound. *)
Definition shortcut (E : env) (name : string)
  : option (list value -> M node_id) :=
  createElement E <$> assoc_get name shortcuts.

(** ** Further notions *)

(** An argument that [createElement] hands to [addChildren]: neither a
    function nor an object of tag [[object Object]]. *)
Definition child_arg (v : value) : bool :=
  match v with
  | VFun _ => false
  | VObj tag _ _ _ => negb (String.eqb tag "Object")
  | _ => true
  end.

(** The entry of the call log for the hook [f] called with the node [el]. *)
Definition hook_call (el : node_id) (f : fid) : call :=
  Call f VUndefined [VNode el].

(** Whether every parent and every child that a node of [h] names is a
    node of [h]. *)
Definition closed (h : heap) : bool :=
  forallb (fun n =>
             forallb (fun c => Nat.ltb c (List.length h)) (n_children n)
             && match n_parent n with
                | Some p => Nat.ltb p (List.length h)
                | None => true
                end) h.

(** The property that a key of a property bag stands for when the key is
    one of the two aliases, the key itself otherwise. *)
Definition canonical (k : string) : string :=
  if String.eqb k "for" then "htmlFor"
  else if String.eqb k "tabindex" then "tabIndex"
  else k.

(** The bag with the aliases replaced by the properties they stand for. *)
Definition unalias (fields : list (string * value)) : list (string * value) :=
  (fun kv => (canonical kv.1, kv.2)) <$> fields.

(** What a node carries. *)
Definition payload (n : node) :=
  (n_kind n, n_class n, n_attrs n, n_style n, n_dataset n, n_slots n).

(** The heap [h'] has the nodes of [h], each at its place in the tree. *)
Definition same_tree (h h' : heap) : Prop :=
  shape <$> h' = shape <$> h.

(** Every node of [h] is a node of [h'] and carries there what it carries
    in [h]. *)
Definition keeps_payload (h h' : heap) : Prop :=
  forall id n, h !! id = Some n ->
    exists n', h' !! id = Some n' /\ payload n' = payload n.

(** An environment whose functions all return the node [1]. *)
Definition node_1_env : env :=
  sample_host (fun _ _ _ h => FReturn (VNode 1) h) (fun _ => EmptyString).

(** The members of [el.style] after the assignment [el.style[rule] = p] of
    a primitive, or the exception that the host raises. *)
Definition style_assign (E : env) (rule : string) (p : value)
    (s : list (string * value)) : exn + list (string * value) :=
  match style_key E rule with
  | Some _ => style_put E rule p s
  | None => inr (assoc_set rule p s)
  end.

(** The assignments of the rules [keys] of the object [S], one after the
    other, up to the first that the host refuses: the exception, if any,
    and the members of [el.style] at the end. *)
Fixpoint style_merge (E : env) (S : value) (keys : list string)
    (s : list (string * value)) : option exn * list (string * value) :=
  match keys with
  | [] => (None, s)
  | r :: keys' =>
      match style_assign E r (get_prop [] S r) s with
      | inl e => (Some e, s)
      | inr s' => style_merge E S keys' s'
      end
  end.

(** A key that is a property of the node's own on the nodes of kind [k]:
    neither special-cased by [addProps], nor [className], nor a property
    that the host defines. *)
Definition own_key (E : env) (k : node_kind) (key : string) : bool :=
  negb (special key) && negb (String.eqb key "className")
  && bool_decide (host_key E k key = None).

(** A bag of ordinary properties for the nodes of kind [k]: an object of
    tag [[object Object]] whose keys are properties of the node's own. *)
Definition ordinary_bag (E : env) (k : node_kind) (v : value) : bool :=
  match v with
  | VObj tag _ fields _ =>
      String.eqb tag "Object" && forallb (own_key E k) fields.*1
  | _ => false
  end.

(** An argument of [createElement] whose processing runs no user code and
    no setter of the host: a bag of ordinary properties, or a child that is
    inert. *)
Definition simple_arg (E : env) (k : node_kind) (v : value) : bool :=
  ordinary_bag E k v || child_arg v && inert v.

(** The leaves of the children among simple arguments, in order. *)
Definition simple_leaves (E : env) (k : node_kind) (args : list value)
  : list value :=
  flat_map (fun a => if ordinary_bag E k a then [] else leaves a) args.

(** Every node of [h] is a node of [h'], of the same kind, and the nodes
    that [h'] has beyond those of [h] are texts and comments. *)
Definition adds_no_element (h h' : heap) : Prop :=
  keeps_kinds h h' /\
  forall i n, List.length h <= i -> h' !! i = Some n -> is_element n = false.

(** * Properties *)

Ltac ms := cbn [m_heap m_calls].

(** C1: [createElement('div', new Widget())], where the class [Widget] has
    a [toElement] method, hands the instance to [addProps]: [toElement] is
    not called and the [div] stays without child, whereas [addChildren]
    with the same instance calls [toElement] and appends the [span]. *)
Theorem C1_class_instance_is_handed_to_addProps :
  createElement sample_env "div" [widget] (Machine [] [])
  = Ok 0 (Machine [div] []) /\
  (el <- createElement sample_env "div" [] ;;
   addChildren sample_env widget el ;;;
   ret el) (Machine [] [])
  = Ok 0 (Machine [with_children [1] div; child_of 0 (KElement "span")]
            [Call 1 widget []]).
Proof. split; reflexivity. Qed.

Section Properties.

Variable E : env.

(** ** The monad *)

Lemma bind_Ok {A B : Type} (c : M A) (k : A -> M B) m a m' :
  c m = Ok a m' -> bind c k m = k a m'.
Proof. unfold bind. intros ->. reflexivity. Qed.

Lemma bind_Throw {A B : Type} (c : M A) (k : A -> M B) m e m' :
  c m = Throw e m' -> bind c k m = Throw e m'.
Proof. unfold bind. intros ->. reflexivity. Qed.

Lemma bind_assoc {A B C : Type} (c : M A) (k : A -> M B) (k' : B -> M C) m :
  bind (bind c k) k' m = bind c (fun a => bind (k a) k') m.
Proof. unfold bind. destruct (c m); reflexivity. Qed.

Lemma for_each_cons {A : Type} (body : A -> M unit) x xs :
  for_each body (x :: xs) = (body x ;;; for_each body xs).
Proof. reflexivity. Qed.

Lemma for_each_app {A : Type} (body : A -> M unit) xs ys m :
  for_each body (xs ++ ys) m = (for_each body xs ;;; for_each body ys) m.
Proof.
  revert m. induction xs as [|x xs IH]; intros m.
  - reflexivity.
  - rewrite <- app_comm_cons, !for_each_cons, bind_assoc.
    unfold bind at 1 2.
    destruct (body x m) as [[] m1|e m1]; [apply IH | reflexivity].
Qed.

Lemma for_each_abort {A : Type} (body : A -> M unit) xs x ys m m1 e m2 :
  for_each body xs m = Ok tt m1 ->
  body x m1 = Throw e m2 ->
  for_each body (xs ++ x :: ys) m = Throw e m2.
Proof.
  intros H1 H2. rewrite for_each_app, (bind_Ok _ _ _ _ _ H1), for_each_cons.
  apply bind_Throw, H2.
Qed.

(** ** Property names *)

Lemma index_key_digit i :
  exists c s, index_key i = String c s /\
    In c ["0"; "1"; "2"; "3"; "4"; "5"; "6"; "7"; "8"; "9"]%char.
Proof.
  unfold index_key, NilZero.string_of_uint.
  destruct (Nat.to_uint i); simpl; eexists _, _;
    (split; [reflexivity|]); simpl; tauto.
Qed.

Lemma key_index_named key len : named key = true -> key_index key len = None.
Proof.
  intros Hn. unfold key_index. generalize (seq 0 len) as l.
  induction l as [|i l IH]; [reflexivity|]. simpl.
  destruct (String.eqb_spec (index_key i) key) as [<-|_]; [|exact IH].
  exfalso. destruct (index_key_digit i) as (c & s & Hi & Hc).
  rewrite Hi in Hn. simpl in Hn. apply negb_true_iff in Hn. simpl in Hc.
  destruct Hc as [<-|[<-|[<-|[<-|[<-|[<-|[<-|[<-|[<-|[<-|[]]]]]]]]]]];
    discriminate Hn.
Qed.

Lemma lookup_prop_heap h v key :
  (forall id, v <> VNode id) -> lookup_prop h v key = lookup_prop [] v key.
Proof. intros Hv. destruct v; try reflexivity. destruct (Hv id eq_refl). Qed.

Lemma get_prop_heap h v key :
  (forall id, v <> VNode id) -> get_prop h v key = get_prop [] v key.
Proof. intros Hv. unfold get_prop. rewrite lookup_prop_heap; auto. Qed.

(** ** Induction on values, through the elements of arrays *)

Lemma value_items_ind (P : value -> Prop) :
  (forall items props, Forall P items -> P (VArr items props)) ->
  (forall v, isArray v = false -> P v) ->
  forall v, P v.
Proof.
  intros HA HO. fix IH 1.
  intros [| | | | | |items props| |]; try (apply HO; reflexivity).
  apply HA. induction items as [|x items IHitems]; constructor;
    [apply IH | exact IHitems].
Qed.

(** ** Appending a node that the host has just created *)

Lemma appendChild_fresh el p h k log :
  h !! el = Some p -> is_element p = true ->
  appendChild el (VNode (List.length h)) (Machine (h ++ [new_node k]) log)
  = Ok tt (Machine (append_new el h k) log).
Proof.
  intros Hel Hp. pose proof (lookup_lt_Some _ _ _ Hel) as Hlt.
  unfold appendChild, bind, get_node, get_heap. ms.
  rewrite (lookup_app_l_Some _ _ _ _ Hel). ms.
  rewrite list_lookup_middle by reflexivity. rewrite Hp. cbn [negb].
  rewrite length_app. cbn [List.length]. rewrite Nat.add_1_r. cbn [contains].
  rewrite list_lookup_middle by reflexivity. cbn [n_children new_node existsb].
  rewrite orb_false_r.
  destruct (Nat.eqb_spec (List.length h) el) as [Heq|_]; [lia|].
  unfold put_heap, append_new, detach. ms.
  rewrite list_lookup_middle by reflexivity. reflexivity.
Qed.

Lemma append_new_eq el p h k :
  h !! el = Some p ->
  append_new el h k =
    <[List.length h := with_parent (Some el) (new_node k)]>
      (<[el := with_children (n_children p ++ [List.length h]) p]>
         (h ++ [new_node k])).
Proof.
  intros Hel. unfold append_new, attach.
  rewrite (lookup_app_l_Some _ _ _ _ Hel).
  rewrite list_lookup_middle by reflexivity. reflexivity.
Qed.

Lemma append_new_length el h k :
  List.length (append_new el h k) = S (List.length h).
Proof.
  unfold append_new, attach.
  destruct ((h ++ [new_node k]) !! el), ((h ++ [new_node k]) !! List.length h);
    rewrite ?length_insert, length_app; simpl; lia.
Qed.

Lemma append_new_parent el p h k :
  h !! el = Some p ->
  append_new el h k !! el
  = Some (with_children (n_children p ++ [List.length h]) p).
Proof.
  intros Hel. pose proof (lookup_lt_Some _ _ _ Hel) as Hlt.
  rewrite (append_new_eq _ _ _ _ Hel).
  rewrite list_lookup_insert_ne by lia.
  apply list_lookup_insert_eq. rewrite length_app. simpl. lia.
Qed.

Lemma append_new_child el p h k :
  h !! el = Some p ->
  append_new el h k !! List.length h
  = Some (with_parent (Some el) (new_node k)).
Proof.
  intros Hel. rewrite (append_new_eq _ _ _ _ Hel).
  apply list_lookup_insert_eq. rewrite length_insert, length_app. simpl. lia.
Qed.

Lemma append_new_other el p h k i :
  h !! el = Some p -> i <> el -> i < List.length h ->
  append_new el h k !! i = h !! i.
Proof.
  intros Hel Hne Hlt. rewrite (append_new_eq _ _ _ _ Hel).
  rewrite !list_lookup_insert_ne by lia. apply lookup_app_l. exact Hlt.
Qed.

Lemma fold_append_new el ks : forall h p,
  h !! el = Some p ->
  fold_left (append_new el) ks h !! el
  = Some (with_children
            (n_children p ++ seq (List.length h) (List.length ks)) p).
Proof.
  induction ks as [|k ks IH]; intros h p Hel; cbn [fold_left List.length seq].
  - rewrite app_nil_r. destruct p; exact Hel.
  - rewrite (IH _ _ (append_new_parent _ _ _ k Hel)).
    rewrite append_new_length. destruct p; cbn.
    rewrite <- app_assoc. reflexivity.
Qed.

Lemma fold_append_new_old el ks : forall h p i,
  h !! el = Some p -> i <> el -> i < List.length h ->
  fold_left (append_new el) ks h !! i = h !! i.
Proof.
  induction ks as [|k ks IH]; intros h p i Hel Hne Hlt; cbn [fold_left].
  - reflexivity.
  - rewrite (IH _ _ _ (append_new_parent _ _ _ k Hel) Hne)
      by (rewrite append_new_length; lia).
    apply (append_new_other _ _ _ _ _ Hel Hne Hlt).
Qed.

Lemma fold_append_new_nth el ks : forall h p i k,
  h !! el = Some p -> ks !! i = Some k ->
  fold_left (append_new el) ks h !! (List.length h + i)
  = Some (with_parent (Some el) (new_node k)).
Proof.
  induction ks as [|k0 ks IH]; intros h p i k Hel Hk; [discriminate Hk|].
  pose proof (lookup_lt_Some _ _ _ Hel) as Hlt.
  cbn [fold_left]. destruct i as [|i]; cbn in Hk.
  - injection Hk as ->. rewrite Nat.add_0_r.
    rewrite (fold_append_new_old _ _ _ _ _ (append_new_parent _ _ _ k Hel))
      by (rewrite ?append_new_length; lia).
    apply (append_new_child _ _ _ _ Hel).
  - replace (List.length h + S i) with (List.length (append_new el h k0) + i)
      by (rewrite append_new_length; lia).
    apply (IH _ _ _ _ (append_new_parent _ _ _ k0 Hel) Hk).
Qed.

(** ** [addChildren], unfolded once *)

Lemma addChildren_eq children el :
  addChildren E children el =
    (append_hook E "onbeforeappend" children el ;;;
     content E children el ;;;
     append_hook E "onappend" children el).
Proof. destruct children; reflexivity. Qed.

Lemma content_not_array v el :
  isArray v = false -> content E v el = append_one E v el.
Proof. destruct v; try reflexivity; discriminate. Qed.

Lemma bind_ret_tt (c : M unit) m : (c ;;; ret tt) m = c m.
Proof. unfold bind, ret. destruct (c m) as [[] m'|e m']; reflexivity. Qed.

Lemma bind_ext {A B : Type} (c : M A) (k k' : A -> M B) m :
  (forall a m', k a m' = k' a m') -> bind c k m = bind c k' m.
Proof. intros H. unfold bind. destruct (c m); [apply H | reflexivity]. Qed.

Lemma steps_not_array v :
  isArray v = false -> steps v = [SBefore v; SAppend v; SAfter v].
Proof. destruct v; try reflexivity; discriminate. Qed.

Lemma leaves_not_array v : isArray v = false -> leaves v = [v].
Proof. destruct v; try reflexivity; discriminate. Qed.

(** [addChildren] is the run of its steps, one after the other. *)
Lemma addChildren_steps el v : forall m,
  addChildren E v el m = for_each (run_step E el) (steps v) m.
Proof.
  induction v as [items props IH|v Hna] using value_items_ind; intros m;
    rewrite addChildren_eq.
  - cbn [steps content]. rewrite for_each_cons. cbn [run_step].
    apply bind_ext. intros _ m1. rewrite for_each_app.
    assert (forall m, for_each (fun child => addChildren E child el) items m
                      = for_each (run_step E el) (flat_map steps items) m) as Hloop.
    { clear m m1. induction IH as [|x items Hx _ IHitems]; intros m.
      - reflexivity.
      - cbn [flat_map]. rewrite for_each_cons, for_each_app.
        unfold bind. rewrite Hx.
        destruct (for_each (run_step E el) (steps x) m) as [[] m'|e m'];
          [apply IHitems | reflexivity]. }
    unfold bind. rewrite Hloop.
    destruct (for_each (run_step E el) (flat_map steps items) m1) as [[] m2|e m2];
      [|reflexivity].
    rewrite for_each_cons. cbn [run_step]. symmetry. apply bind_ret_tt.
  - rewrite (steps_not_array _ Hna), (content_not_array _ _ Hna).
    rewrite !for_each_cons. cbn [run_step].
    apply bind_ext. intros _ m1. apply bind_ext. intros _ m2.
    symmetry. apply bind_ret_tt.
Qed.

(** The appends among the steps are the leaves, in order. *)
Lemma steps_appended v : flat_map appended (steps v) = leaves v.
Proof.
  induction v as [items props IH|v Hna] using value_items_ind.
  - cbn [steps leaves flat_map appended app].
    rewrite flat_map_app. cbn [flat_map appended app]. rewrite app_nil_r.
    induction IH as [|x items Hx _ IHitems]; [reflexivity|].
    cbn [flat_map]. rewrite flat_map_app, Hx, IHitems. reflexivity.
  - rewrite (steps_not_array _ Hna), (leaves_not_array _ Hna). reflexivity.
Qed.

(** ** Values that carry no hook *)

Lemma append_hook_none key v el h log :
  is_function (get_prop h v key) = false ->
  append_hook E key v el (Machine h log) = Ok tt (Machine h log).
Proof.
  intros H. unfold append_hook. destruct (truthy v); [|reflexivity].
  unfold bind, get_heap. ms. destruct (get_prop h v key); try reflexivity.
  discriminate H.
Qed.

Lemma quiet_hooks v h :
  (forall id, v <> VNode id) -> quiet v = true ->
  is_function (get_prop h v "onbeforeappend") = false /\
  is_function (get_prop h v "onappend") = false.
Proof.
  intros Hv Hq. unfold quiet, carries in Hq. apply andb_true_iff in Hq.
  rewrite !negb_true_iff in Hq. rewrite !(get_prop_heap h) by exact Hv.
  exact Hq.
Qed.

Lemma inert_quiet v :
  inert v = true -> (forall id, v <> VNode id) /\ quiet v = true.
Proof.
  destruct v; cbn [inert]; intros H; try discriminate; split;
    try discriminate; try reflexivity.
  - unfold quiet, carries, get_prop, lookup_prop.
    rewrite !key_index_named by reflexivity. reflexivity.
  - apply andb_true_iff in H. tauto.
  - rewrite !andb_true_iff in H. tauto.
Qed.

Lemma append_one_inert v el p h log :
  inert v = true -> isArray v = false ->
  h !! el = Some p -> is_element p = true ->
  append_one E v el (Machine h log)
  = Ok tt (Machine (append_new el h (leaf_kind E v)) log).
Proof.
  intros Hv Ha Hel Hp.
  destruct v as [| |b|n|s|f|items props|tag proto fields methods|id];
    try discriminate; unfold append_one, bind, get_heap; ms;
    cbn [is_tree_node is_nullish].
  - cbn. apply (appendChild_fresh _ _ _ _ _ Hel Hp).
  - cbn. apply (appendChild_fresh _ _ _ _ _ Hel Hp).
  - cbn. destruct b; apply (appendChild_fresh _ _ _ _ _ Hel Hp).
  - cbn. apply (appendChild_fresh _ _ _ _ _ Hel Hp).
  - unfold get_prop, method, lookup_prop.
    rewrite !key_index_named by reflexivity. cbn.
    apply (appendChild_fresh _ _ _ _ _ Hel Hp).
  - cbn. apply (appendChild_fresh _ _ _ _ _ Hel Hp).
  - cbn [inert] in Hv. rewrite !andb_true_iff in Hv.
    destruct Hv as [[[Hproto Hq] Hte] Hts].
    apply negb_true_iff in Hte. unfold carries in Hte.
    apply bool_decide_eq_true in Hts.
    rewrite (get_prop_heap h) by discriminate.
    destruct (get_prop [] (VObj tag proto fields methods) "toElement") eqn:Hg;
      try discriminate Hte;
      unfold method; rewrite (lookup_prop_heap h), Hts by discriminate;
      cbn [has_builtins];
      rewrite Hproto; cbn; apply (appendChild_fresh _ _ _ _ _ Hel Hp).
Qed.

(** The append of an inert value creates one node per leaf and appends
    them in order. *)
Lemma addChildren_inert el v :
  inert v = true ->
  forall h log p, h !! el = Some p -> is_element p = true ->
  addChildren E v el (Machine h log)
  = Ok tt (Machine (fold_left (append_new el) (leaf_kind E <$> leaves v) h) log).
Proof.
  induction v as [items props IH|v Hna] using value_items_ind;
    intros Hv h log p Hel Hp; rewrite addChildren_eq;
    destruct (inert_quiet _ Hv) as [Hnn Hq];
    destruct (quiet_hooks _ h Hnn Hq) as [Hb _];
    rewrite (bind_Ok _ _ _ _ _ (append_hook_none _ _ el _ log Hb)).
  - cbn [inert] in Hv. apply andb_true_iff in Hv. destruct Hv as [Hitems _].
    cbn [leaves content].
    assert (forall h p, h !! el = Some p -> is_element p = true ->
              for_each (fun child => addChildren E child el) items (Machine h log)
              = Ok tt (Machine (fold_left (append_new el)
                                  (leaf_kind E <$> flat_map leaves items) h) log))
      as Hloop.
    { clear Hel Hp h p Hq Hnn Hb.
      induction IH as [|x items Hx _ IHitems]; intros h p Hel Hp.
      - reflexivity.
      - cbn [forallb] in Hitems. apply andb_true_iff in Hitems.
        destruct Hitems as [Hix Hiitems].
        rewrite for_each_cons. rewrite (bind_Ok _ _ _ _ _ (Hx Hix _ _ _ Hel Hp)).
        cbn [flat_map]. rewrite fmap_app, fold_left_app.
        eapply (IHitems Hiitems).
        + apply fold_append_new, Hel.
        + destruct p; exact Hp. }
    rewrite (bind_Ok _ _ _ _ _ (Hloop _ _ Hel Hp)).
    apply append_hook_none. apply (quiet_hooks _ _ Hnn Hq).
  - rewrite (leaves_not_array _ Hna), (content_not_array _ _ Hna).
    rewrite (bind_Ok _ _ _ _ _ (append_one_inert _ _ _ _ log Hv Hna Hel Hp)).
    apply append_hook_none. apply (quiet_hooks _ _ Hnn Hq).
Qed.

(** ** Appending an existing node *)

Lemma detach_length c h : List.length (detach c h) = List.length h.
Proof.
  unfold detach. destruct (h !! c) as [cn|]; [|reflexivity].
  destruct (n_parent cn) as [q|]; [|reflexivity].
  destruct (h !! q); rewrite ?length_insert; reflexivity.
Qed.

Lemma attach_children el c h pn cn :
  h !! el = Some pn -> h !! c = Some cn -> el <> c ->
  children_of (attach el c h) el = n_children pn ++ [c].
Proof.
  intros Hel Hc Hne. unfold children_of, attach. rewrite Hel, Hc.
  rewrite list_lookup_insert_ne by congruence.
  rewrite list_lookup_insert_eq by apply (lookup_lt_Some _ _ _ Hel).
  reflexivity.
Qed.

Lemma appendChild_node el c h log p cn :
  h !! el = Some p -> is_element p = true -> h !! c = Some cn ->
  contains h (List.length h) c el = false ->
  appendChild el (VNode c) (Machine h log)
  = Ok tt (Machine (attach el c (detach c h)) log) /\
  last (children_of (attach el c (detach c h)) el) = Some c.
Proof.
  intros Hel Hp Hc Hcont. split.
  - unfold appendChild, bind, get_node, get_heap. ms. rewrite Hel. ms.
    rewrite Hc, Hp, Hcont. reflexivity.
  - assert (el <> c) as Hne.
    { intros <-. destruct (List.length h); cbn in Hcont;
        rewrite Nat.eqb_refl in Hcont; discriminate. }
    destruct (lookup_lt_is_Some_2 (detach c h) el) as [p2 Hp2].
    { rewrite detach_length. apply (lookup_lt_Some _ _ _ Hel). }
    destruct (lookup_lt_is_Some_2 (detach c h) c) as [c2 Hc2].
    { rewrite detach_length. apply (lookup_lt_Some _ _ _ Hc). }
    rewrite (attach_children _ _ _ _ _ Hp2 Hc2 Hne). apply last_snoc.
Qed.


(** ** Sequences of inert values and existing nodes *)

Lemma attach_detach_child el c h p cn :
  h !! el = Some p -> h !! c = Some cn -> el <> c ->
  exists par, attach el c (detach c h) !! c = Some (with_parent par cn).
Proof.
  intros Hel Hc Hne.
  assert (exists c2, detach c h !! c = Some c2 /\ exists par, c2 = with_parent par cn)
    as (c2 & Hc2 & par & ->).
  { unfold detach. rewrite Hc. destruct (n_parent cn) as [q|] eqn:Hq.
    - destruct (h !! q) as [qn|] eqn:Hqn; eexists; (split; [|eexists; reflexivity]).
      + apply list_lookup_insert_eq. rewrite length_insert.
        apply (lookup_lt_Some _ _ _ Hc).
      + apply list_lookup_insert_eq, (lookup_lt_Some _ _ _ Hc).
    - exists cn. split; [exact Hc|]. exists None. destruct cn; cbn in *.
      rewrite Hq. reflexivity. }
  destruct (lookup_lt_is_Some_2 (detach c h) el) as [p2 Hp2].
  { rewrite detach_length. apply (lookup_lt_Some _ _ _ Hel). }
  unfold attach. rewrite Hp2, Hc2. eexists.
  apply list_lookup_insert_eq. rewrite length_insert.
  apply (lookup_lt_Some _ _ _ Hc2).
Qed.

Lemma get_prop_with_parent h h' c cn par key :
  h !! c = Some cn -> h' !! c = Some (with_parent par cn) ->
  get_prop h' (VNode c) key = get_prop h (VNode c) key.
Proof.
  intros Hc Hc'. unfold get_prop, lookup_prop. rewrite Hc, Hc'. reflexivity.
Qed.

Lemma appendable_leaf el v h log :
  appendable el h v = true ->
  addChildren E v el (Machine h log)
  = Ok tt (Machine (append_leaf E el h v) log) /\
  last (children_of (append_leaf E el h v) el) = Some (leaf_id h v).
Proof.
  unfold appendable. destruct (h !! el) as [p|] eqn:Hel; [|discriminate].
  intros H. apply andb_true_iff in H. destruct H as [Hp H].
  assert (isArray v = false -> inert v = true ->
          addChildren E v el (Machine h log)
          = Ok tt (Machine (append_new el h (leaf_kind E v)) log) /\
          last (children_of (append_new el h (leaf_kind E v)) el)
          = Some (List.length h)) as Hinert.
  { intros Ha Hv. split.
    - rewrite (addChildren_inert _ _ Hv _ _ _ Hel Hp), (leaves_not_array _ Ha).
      reflexivity.
    - unfold children_of. rewrite (append_new_parent _ _ _ _ Hel).
      apply last_snoc. }
  destruct v as [| |b|n|s|f|items props|tag proto fields methods|c];
    try (apply Hinert; [reflexivity | exact H]); [discriminate H|].
  rewrite !andb_true_iff, !negb_true_iff in H.
  destruct H as [[[Hc Hb] Ha] Hcont]. apply bool_decide_eq_true in Hc.
  destruct Hc as [cn Hc].
  destruct (appendChild_node _ _ _ log _ _ Hel Hp Hc Hcont) as [Happ Hlast].
  split; [|exact Hlast].
  rewrite addChildren_eq.
  rewrite (bind_Ok _ _ _ _ _ (append_hook_none _ _ el _ log Hb)).
  cbn [content append_leaf].
  assert (append_one E (VNode c) el (Machine h log)
          = Ok tt (Machine (attach el c (detach c h)) log)) as Hone.
  { rewrite <- Happ. unfold append_one, bind, get_heap. ms.
    cbn [is_tree_node]. rewrite Hc, bool_decide_eq_true_2 by eauto. reflexivity. }
  rewrite (bind_Ok _ _ _ _ _ Hone). apply append_hook_none.
  assert (el <> c) as Hne.
  { intros <-. destruct (List.length h); cbn in Hcont;
      rewrite Nat.eqb_refl in Hcont; discriminate. }
  destruct (attach_detach_child _ _ _ _ _ Hel Hc Hne) as [par Hc'].
  rewrite (get_prop_with_parent _ _ _ _ _ _ Hc Hc'). exact Ha.
Qed.

Lemma appendable_all_app el l1 : forall h l2,
  appendable_all E el h (l1 ++ l2)
  = appendable_all E el h l1
    && appendable_all E el (fold_left (append_leaf E el) l1 h) l2.
Proof.
  induction l1 as [|v l1 IH]; intros h l2; [reflexivity|].
  cbn [app appendable_all fold_left]. rewrite IH, andb_assoc. reflexivity.
Qed.

Lemma appendable_all_step el pre leaf post h :
  appendable_all E el h (pre ++ leaf :: post) = true ->
  appendable el (fold_left (append_leaf E el) pre h) leaf = true.
Proof.
  rewrite appendable_all_app. cbn [appendable_all].
  rewrite !andb_true_iff. tauto.
Qed.

(** A sequence of appendable leaves is appended leaf by leaf. *)
Lemma addChildren_leaves el v :
  quiet_arrays v = true ->
  forall h log,
    appendable_all E el h (leaves v) = true ->
    addChildren E v el (Machine h log)
    = Ok tt (Machine (fold_left (append_leaf E el) (leaves v) h) log).
Proof.
  induction v as [items props IH|v Hna] using value_items_ind;
    intros Hq h log Hall.
  - cbn [quiet_arrays] in Hq. apply andb_true_iff in Hq. destruct Hq as [Hq Hqs].
    destruct (quiet_hooks (VArr items props) h) as [Hb _];
      [discriminate | exact Hq |].
    rewrite addChildren_eq.
    rewrite (bind_Ok _ _ _ _ _ (append_hook_none _ _ el _ log Hb)).
    cbn [leaves content] in *.
    assert (forall h,
              appendable_all E el h (flat_map leaves items) = true ->
              for_each (fun child => addChildren E child el) items (Machine h log)
              = Ok tt (Machine (fold_left (append_leaf E el)
                                  (flat_map leaves items) h) log)) as Hloop.
    { clear Hall Hb h Hq.
      induction IH as [|x items Hx _ IHitems]; intros h Hall; [reflexivity|].
      cbn [forallb] in Hqs. apply andb_true_iff in Hqs. destruct Hqs as [Hqx Hqs].
      cbn [flat_map] in *. rewrite appendable_all_app in Hall.
      apply andb_true_iff in Hall. destruct Hall as [Hallx Hall].
      rewrite for_each_cons, (bind_Ok _ _ _ _ _ (Hx Hqx _ _ Hallx)).
      rewrite fold_left_app. apply (IHitems Hqs _ Hall). }
    rewrite (bind_Ok _ _ _ _ _ (Hloop _ Hall)).
    apply append_hook_none.
    apply (quiet_hooks (VArr items props)); [discriminate | exact Hq].
  - rewrite (leaves_not_array _ Hna) in *. cbn [appendable_all fold_left] in *.
    apply andb_true_iff in Hall. destruct Hall as [Hall _].
    apply (appendable_leaf _ _ _ _ Hall).
Qed.

(** ** Relations that every step of a computation keeps *)

Section Respects.

Variable R : machine -> machine -> Prop.
Hypothesis R_refl : forall m, R m m.
Hypothesis R_trans : forall m1 m2 m3, R m1 m2 -> R m2 m3 -> R m1 m3.

Lemma respects_ret {A : Type} (a : A) : respects R (ret a).
Proof. intros m. apply R_refl. Qed.

Lemma respects_throw {A : Type} e : respects R (@throw A e).
Proof. intros m. apply R_refl. Qed.

Lemma respects_bind {A B : Type} (c : M A) (k : A -> M B) :
  respects R c -> (forall a, respects R (k a)) -> respects R (bind c k).
Proof.
  intros Hc Hk m. unfold bind. specialize (Hc m).
  destruct (c m) as [a m1|e m1]; [|exact Hc].
  specialize (Hk a m1). destruct (k a m1); eapply R_trans; eassumption.
Qed.

Lemma respects_get_heap : respects R get_heap.
Proof. intros m. apply R_refl. Qed.

Lemma respects_get_node id : respects R (get_node id).
Proof. intros m. unfold get_node. destruct (m_heap m !! id); apply R_refl. Qed.

Lemma respects_for_each {A : Type} (body : A -> M unit) xs :
  Forall (fun x => respects R (body x)) xs -> respects R (for_each body xs).
Proof.
  induction 1 as [|x xs Hx _ IH]; [apply respects_ret|].
  rewrite for_each_cons. apply respects_bind; auto.
Qed.

Lemma respects_map_m {A B : Type} (f : A -> M B) xs :
  Forall (fun x => respects R (f x)) xs -> respects R (map_m f xs).
Proof.
  induction 1 as [|x xs Hx _ IH]; [apply respects_ret|].
  cbn [map_m]. apply respects_bind; [exact Hx|]. intros y.
  apply respects_bind; [exact IH|]. intros ys. apply respects_ret.
Qed.

Lemma respects_join_with (ts : value -> M string) xs :
  Forall (fun x => respects R (ts x)) xs -> respects R (join_with ts xs).
Proof.
  induction 1 as [|x xs Hx _ IH]; [apply respects_ret|].
  cbn [join_with]. apply respects_bind.
  - destruct (is_nullish x); [apply respects_ret | exact Hx].
  - intros s. apply respects_bind; [exact IH|]. intros ss. apply respects_ret.
Qed.

Hypothesis R_call : forall f this args, respects R (call_fn E f this args).

Lemma respects_try_method native v key otherwise :
  respects R native -> respects R otherwise ->
  respects R (try_method E native v key otherwise).
Proof.
  intros Hn Ho. unfold try_method.
  apply respects_bind; [apply respects_get_heap|]. intros h.
  destruct (method h v key) as [c|]; [|exact Ho].
  apply respects_bind.
  - destruct c; [apply R_call|]. destruct (String.eqb key "toString");
      [exact Hn | apply respects_ret].
  - intros r. destruct (is_primitive r); [apply respects_ret | exact Ho].
Qed.

Lemma respects_to_primitive_with native hint v :
  respects R native -> respects R (to_primitive_with E native hint v).
Proof.
  intros Hn. unfold to_primitive_with.
  destruct (is_primitive v); [apply respects_ret|].
  destruct hint; repeat apply respects_try_method; auto using @respects_throw.
Qed.

Lemma respects_native_toString_with ts v :
  (forall items props, v = VArr items props ->
     Forall (fun x => respects R (ts x)) items) ->
  respects R (native_toString_with E ts v).
Proof.
  intros Hts. destruct v; cbn [native_toString_with]; try apply respects_ret.
  - apply respects_bind; [apply respects_join_with; eauto|].
    intros ss. apply respects_ret.
  - apply respects_bind; [apply respects_get_node|]. intros n. apply respects_ret.
Qed.

Lemma to_string_eq v :
  to_string E v =
    (p <- to_primitive_with E (native_toString_with E (to_string E) v) true v ;;
     ret (prim_to_string p)).
Proof. destruct v; reflexivity. Qed.

Lemma respects_to_string v : respects R (to_string E v).
Proof.
  induction v as [items props IH|v Hna] using value_items_ind;
    rewrite to_string_eq;
    (apply respects_bind; [|intros p; apply respects_ret]);
    apply respects_to_primitive_with, respects_native_toString_with.
  - intros items' props' [= <- <-]. exact IH.
  - intros items props ->. discriminate Hna.
Qed.

Lemma respects_native_toString v : respects R (native_toString E v).
Proof.
  apply respects_native_toString_with. intros items props _.
  apply Forall_forall. intros x _. apply respects_to_string.
Qed.

Lemma respects_concat_empty v : respects R (concat_empty E v).
Proof.
  unfold concat_empty, to_primitive.
  apply respects_bind; [|intros p; apply respects_ret].
  apply respects_to_primitive_with, respects_native_toString.
Qed.

Lemma respects_append_hook key v el : respects R (append_hook E key v el).
Proof.
  unfold append_hook. destruct (truthy v); [|apply respects_ret].
  apply respects_bind; [apply respects_get_heap|]. intros h.
  destruct (get_prop h v key); try apply respects_ret.
  apply respects_bind; [apply R_call|]. intros _. apply respects_ret.
Qed.

(** The host operations that write the heap. *)
Hypothesis R_set : forall id n, respects R (set_node id n).
Hypothesis R_alloc : forall n, respects R (alloc n).
Hypothesis R_put : forall h, respects R (put_heap h).

Lemma respects_createTextNode v : respects R (createTextNode E v).
Proof.
  unfold createTextNode. apply respects_bind; [apply respects_to_string|].
  intros s. apply R_alloc.
Qed.

Lemma respects_createComment v : respects R (createComment E v).
Proof.
  unfold createComment. apply respects_bind; [apply respects_to_string|].
  intros s. apply R_alloc.
Qed.

Lemma respects_appendChild el child : respects R (appendChild el child).
Proof.
  unfold appendChild. apply respects_bind; [apply respects_get_node|].
  intros p. apply respects_bind; [apply respects_get_heap|]. intros h.
  destruct child; try apply respects_throw.
  destruct (h !! id); [|apply respects_throw].
  destruct (negb (is_element p)); [apply respects_throw|].
  destruct (contains h (List.length h) id el); [apply respects_throw|].
  apply R_put.
Qed.

Lemma respects_append_one v el : respects R (append_one E v el).
Proof.
  unfold append_one. apply respects_bind; [apply respects_get_heap|]. intros h.
  destruct (is_tree_node h v); [apply respects_appendChild|].
  destruct (is_nullish v).
  { apply respects_bind; [apply respects_createComment|].
    intros c. apply respects_appendChild. }
  assert (respects R
            match method h v "toString" with
            | Some c =>
                r <- match c with
                     | User f => call_fn E f v []
                     | Native => native_toString E v
                     end ;;
                t <- createTextNode E r ;;
                appendChild el (VNode t)
            | None =>
                s <- concat_empty E v ;;
                t <- createTextNode E (VStr s) ;;
                appendChild el (VNode t)
            end) as Hrest.
  { destruct (method h v "toString") as [c|].
    - apply respects_bind.
      + destruct c; [apply R_call | apply respects_native_toString].
      + intros r. apply respects_bind; [apply respects_createTextNode|].
        intros t. apply respects_appendChild.
    - apply respects_bind; [apply respects_concat_empty|].
      intros s. apply respects_bind; [apply respects_createTextNode|].
      intros t. apply respects_appendChild. }
  destruct (get_prop h v "toElement"); try exact Hrest.
  apply respects_bind; [apply R_call|]. intros r. apply respects_appendChild.
Qed.

Lemma respects_product v : respects R (product E v).
Proof.
  unfold product. apply respects_bind; [apply respects_get_heap|]. intros h.
  destruct (is_nullish v).
  { apply respects_bind; [apply respects_createComment|].
    intros c. apply respects_ret. }
  assert (respects R
            match method h v "toString" with
            | Some c =>
                r <- match c with
                     | User f => call_fn E f v []
                     | Native => native_toString E v
                     end ;;
                t <- createTextNode E r ;;
                ret (VNode t)
            | None =>
                s <- concat_empty E v ;;
                t <- createTextNode E (VStr s) ;;
                ret (VNode t)
            end) as Hrest.
  { destruct (method h v "toString") as [c|].
    - apply respects_bind.
      + destruct c; [apply R_call | apply respects_native_toString].
      + intros r. apply respects_bind; [apply respects_createTextNode|].
        intros t. apply respects_ret.
    - apply respects_bind; [apply respects_concat_empty|].
      intros s. apply respects_bind; [apply respects_createTextNode|].
      intros t. apply respects_ret. }
  destruct (get_prop h v "toElement"); try exact Hrest.
  apply R_call.
Qed.

Lemma respects_addChildren el v : respects R (addChildren E v el).
Proof.
  induction v as [items props IH|v Hna] using value_items_ind;
    rewrite addChildren_eq;
    (apply respects_bind; [apply respects_append_hook|]; intros _);
    (apply respects_bind; [|intros _; apply respects_append_hook]).
  - cbn [content]. apply respects_for_each. exact IH.
  - rewrite (content_not_array _ _ Hna). apply respects_append_one.
Qed.

Lemma respects_content el v : respects R (content E v el).
Proof.
  destruct v; try apply respects_append_one.
  cbn [content]. apply respects_for_each, Forall_forall.
  intros x _. apply respects_addChildren.
Qed.

End Respects.

(** ** The call log only grows *)

Lemma log_extends_refl m : log_extends m m.
Proof. exists []. rewrite app_nil_r. reflexivity. Qed.

Lemma log_extends_trans m1 m2 m3 :
  log_extends m1 m2 -> log_extends m2 m3 -> log_extends m1 m3.
Proof.
  intros [a Ha] [b Hb]. exists (a ++ b). rewrite Hb, Ha, app_assoc. reflexivity.
Qed.

Lemma log_extends_call f this args :
  respects log_extends (call_fn E f this args).
Proof.
  intros m. unfold call_fn.
  destruct (fn_call E f this args (m_heap m)); eexists; reflexivity.
Qed.

Lemma log_extends_write {A : Type} (c : M A) :
  (forall m, exists a h, c m = Ok a (Machine h (m_calls m))) ->
  respects log_extends c.
Proof.
  intros H m. destruct (H m) as (a & h & ->). exists []. ms.
  rewrite app_nil_r. reflexivity.
Qed.

Lemma content_log_extends el v : respects log_extends (content E v el).
Proof.
  apply respects_content;
    try (intros ?; apply log_extends_write; intros m; eexists _, _; reflexivity).
  - apply log_extends_refl.
  - apply log_extends_trans.
  - apply log_extends_call.
Qed.

(** The hook of the code is the hook of the specification. *)
Lemma append_hook_exposed key v el m :
  append_hook E key v el m = invoke_exposed E key v el m.
Proof.
  unfold append_hook, invoke_exposed, exposed_hook.
  destruct (truthy v); [|reflexivity].
  unfold bind at 1. unfold get_heap.
  destruct (get_prop (m_heap m) v key); try reflexivity.
  unfold bind, call_fn, invoke_once, ret.
  destruct (fn_call E f v [VNode el] (m_heap m)); reflexivity.
Qed.

(** ** [createElement] *)

Lemma createElement_eq tag args m :
  createElement E tag args m =
    match document_createElement E tag m with
    | Ok el m0 =>
        match for_each (dispatch E el) args m0 with
        | Ok _ m' => Ok el m'
        | Throw e m' => Throw e m'
        end
    | Throw e m0 => Throw e m0
    end.
Proof.
  unfold createElement, bind.
  destruct (document_createElement E tag m) as [el m0|e m0]; [|reflexivity].
  destruct (for_each (dispatch E el) args m0); reflexivity.
Qed.

Lemma createElement_Ok tag args m el m' :
  createElement E tag args m = Ok el m' ->
  exists m0, document_createElement E tag m = Ok el m0 /\
             for_each (dispatch E el) args m0 = Ok tt m'.
Proof.
  rewrite createElement_eq.
  destruct (document_createElement E tag m) as [el0 m0|e m0]; [|discriminate].
  destruct (for_each (dispatch E el0) args m0) as [[] m1|e m1] eqn:Hfe;
    [|discriminate].
  intros [= <- <-]. eauto.
Qed.

(** The three ways of an argument of [createElement]: the tag
    [[object Object]] leads to [addProps], a function is called once with
    the node, anything else goes to [addChildren]. *)
Lemma dispatch_object el arg m :
  object_toString E (m_heap m) arg = "[object Object]" ->
  dispatch E el arg m = addProps E arg el m.
Proof. intros H. unfold dispatch, bind, get_heap. rewrite H. reflexivity. Qed.

Lemma dispatch_function el f m :
  dispatch E el (VFun f) m = invoke_once E f VUndefined el m.
Proof.
  unfold dispatch, bind, get_heap.
  change (object_toString E (m_heap m) (VFun f)) with "[object Function]".
  cbn [String.eqb Ascii.eqb Bool.eqb]. unfold call_fn, invoke_once, ret.
  destruct (fn_call E f VUndefined [VNode el] (m_heap m)); reflexivity.
Qed.

Lemma dispatch_child el arg m :
  object_toString E (m_heap m) arg <> "[object Object]" ->
  is_function arg = false ->
  dispatch E el arg m = addChildren E arg el m.
Proof.
  intros H Hf. unfold dispatch, bind, get_heap.
  destruct (String.eqb_spec (object_toString E (m_heap m) arg) "[object Object]")
    as [Heq|_]; [destruct (H Heq)|].
  destruct arg; try reflexivity. discriminate Hf.
Qed.


(** ** [addProps] *)

Lemma special_false key :
  special key = false ->
  String.eqb key "class" = false /\ String.eqb key "for" = false /\
  String.eqb key "tabindex" = false /\ String.eqb key "style" = false /\
  String.eqb key "dataset" = false /\ String.eqb key "role" = false /\
  String.eqb key "aria" = false.
Proof.
  unfold special, special_keys. cbn [existsb]. rewrite !orb_false_iff. tauto.
Qed.

Lemma addProp_general props el key :
  special key = false ->
  addProp E props el key = (v <- prop props key ;; set_property E el key v).
Proof.
  intros H. destruct (special_false _ H) as (H1 & H2 & H3 & H4 & H5 & H6 & H7).
  unfold addProp. rewrite H1, H2, H3, H4, H5, H6, H7. reflexivity.
Qed.

Lemma addProps_eq props el m :
  addProps E props el m
  = for_each (addProp E props el) (for_in_keys (m_heap m) props) m.
Proof. reflexivity. Qed.

(** The assignment to a property that the host does not define. *)
Lemma set_property_slot el key v h log n :
  h !! el = Some n -> key <> "className" ->
  host_key E (n_kind n) key = None ->
  set_property E el key v (Machine h log)
  = Ok tt (Machine (<[el := with_slots (assoc_set key v (n_slots n)) n]> h) log).
Proof.
  intros Hel Hk Hh. unfold set_property, bind, get_node. ms. rewrite Hel.
  destruct (String.eqb_spec key "className") as [Heq|_]; [destruct (Hk Heq)|].
  cbn [andb]. rewrite Hh. reflexivity.
Qed.

(** The read of a property of a value that is not a node. *)
Lemma prop_bind {A : Type} props key (k : value -> M A) m :
  (forall id, props <> VNode id) ->
  (v <- prop props key ;; k v) m = k (get_prop [] props key) m.
Proof.
  intros Hp. unfold bind at 1. unfold prop, bind, get_heap, ret.
  rewrite (get_prop_heap (m_heap m)) by exact Hp. reflexivity.
Qed.

(** A key that is not special-cased: the value that the bag holds for it is
    assigned to the property of that name. *)
Lemma addProp_assigns props el key m :
  (forall id, props <> VNode id) -> special key = false ->
  addProp E props el key m = set_property E el key (get_prop [] props key) m.
Proof.
  intros Hp Hs. rewrite (addProp_general _ _ _ Hs). apply (prop_bind _ _ _ _ Hp).
Qed.

Lemma for_each_ext {A : Type} (f g : A -> M unit) xs :
  (forall x, In x xs -> forall m, f x m = g x m) ->
  forall m, for_each f xs m = for_each g xs m.
Proof.
  induction xs as [|x xs IH]; intros H m; [reflexivity|].
  rewrite !for_each_cons. unfold bind. rewrite (H x (or_introl eq_refl)).
  destruct (g x m) as [[] m1|e m1]; [|reflexivity].
  apply IH. intros y Hy. apply H. right. exact Hy.
Qed.

(** A bag of properties that the host does not define: every key is
    assigned, in order. *)
Lemma for_each_general_props props el keys : forall h log n,
  (forall id, props <> VNode id) ->
  Forall (fun k => special k = false /\ k <> "className"
                   /\ host_key E (n_kind n) k = None) keys ->
  h !! el = Some n ->
  for_each (addProp E props el) keys (Machine h log)
  = Ok tt (Machine
             (<[el := with_slots
                        (fold_left (fun s k => assoc_set k (get_prop [] props k) s)
                           keys (n_slots n)) n]> h) log).
Proof.
  induction keys as [|k keys IH]; intros h log n Hp Hks Hel.
  - cbn [fold_left for_each ret]. rewrite list_insert_id; [reflexivity|].
    rewrite Hel. destruct n; reflexivity.
  - apply Forall_cons in Hks. destruct Hks as [(Hs & Hc & Hh) Hks].
    pose proof (lookup_lt_Some _ _ _ Hel) as Hlt.
    rewrite for_each_cons. unfold bind. rewrite (addProp_assigns _ _ _ _ Hp Hs).
    rewrite (set_property_slot _ _ _ _ _ _ Hel Hc Hh).
    rewrite (IH _ _ (with_slots (assoc_set k (get_prop [] props k) (n_slots n)) n)
               Hp Hks (list_lookup_insert_eq _ _ _ Hlt)).
    rewrite list_insert_insert_eq. reflexivity.
Qed.

(** Null, undefined, booleans, numbers and functions have no enumerable
    key. *)
Lemma keyless_values h v :
  is_nullish v || is_function v
  || match v with VBool _ | VNum _ => true | _ => false end = true ->
  for_in_keys h v = [].
Proof. destruct v; try discriminate; reflexivity. Qed.

(** ** Last write wins *)

Lemma assoc_get_set_eq {A : Type} k (a : A) l :
  assoc_get k (assoc_set k a l) = Some a.
Proof.
  induction l as [|[k' a'] l IH]; cbn.
  - rewrite String.eqb_refl. reflexivity.
  - destruct (String.eqb_spec k k') as [<-|Hne]; cbn.
    + rewrite String.eqb_refl. reflexivity.
    + destruct (String.eqb_spec k k'); [contradiction | exact IH].
Qed.

Lemma assoc_get_set_ne {A : Type} k k' (a : A) l :
  k <> k' -> assoc_get k (assoc_set k' a l) = assoc_get k l.
Proof.
  intros Hne. induction l as [|[k0 a0] l IH]; cbn.
  - destruct (String.eqb_spec k k'); [contradiction | reflexivity].
  - destruct (String.eqb_spec k' k0) as [<-|Hne0]; cbn.
    + destruct (String.eqb_spec k k'); [contradiction | reflexivity].
    + destruct (String.eqb_spec k k0); [reflexivity | exact IH].
Qed.

Lemma lookup_prop_node h el key :
  lookup_prop h (VNode el) key
  = match h !! el with Some n => node_prop key n | None => None end.
Proof. reflexivity. Qed.

Section LastWrite.

Variable el : node_id.
Variable key : string.

(** No user function rewrites the property [key] of [el], and no setter
    of the host does. *)
Hypothesis frame :
  forall f this args h x,
    prop_is el key x h -> prop_is el key x (fn_heap (fn_call E f this args h)).
Hypothesis host_frame :
  forall k p h x,
    prop_is el key x h -> prop_is el key x (fn_heap (host_set E el k p h)).

Local Abbreviation keeps := (keeps_prop el key).

Lemma keeps_refl m : keeps m m.
Proof. intros x H. exact H. Qed.

Lemma keeps_trans m1 m2 m3 : keeps m1 m2 -> keeps m2 m3 -> keeps m1 m3.
Proof. intros H1 H2 x H. apply H2, H1, H. Qed.

Lemma keeps_call f this args : respects keeps (call_fn E f this args).
Proof.
  intros m. unfold call_fn.
  pose proof (frame f this args (m_heap m)) as Hf.
  destruct (fn_call E f this args (m_heap m)); intros x Hx; apply Hf, Hx.
Qed.

Lemma keeps_to_string v : respects keeps (to_string E v).
Proof.
  apply (respects_to_string keeps keeps_refl keeps_trans keeps_call).
Qed.

(** Writing the node [el] back with the property [key] as it was. *)
Lemma keeps_write (g : node -> node) m n :
  m_heap m !! el = Some n ->
  node_prop key (g n) = node_prop key n ->
  keeps m (Machine (<[el := g n]> (m_heap m)) (m_calls m)).
Proof.
  intros Hel Hg x. unfold prop_is. rewrite !lookup_prop_node. ms.
  rewrite Hel, list_lookup_insert_eq by apply (lookup_lt_Some _ _ _ Hel).
  rewrite Hg. auto.
Qed.

Lemma keeps_update (g : node -> node) :
  (forall n, node_prop key (g n) = node_prop key n) ->
  respects keeps (n <- get_node el ;; set_node el (g n)).
Proof.
  intros Hg m. unfold bind, get_node, set_node.
  destruct (m_heap m !! el) as [n|] eqn:Hel; [|apply keeps_refl].
  apply (keeps_write g _ _ Hel (Hg n)).
Qed.

Lemma node_prop_with_class s n :
  key <> "className" -> node_prop key (with_class s n) = node_prop key n.
Proof.
  intros Hk. unfold node_prop.
  destruct (String.eqb_spec key "className"); [contradiction | reflexivity].
Qed.

Lemma node_prop_with_slots k v n :
  k <> key ->
  node_prop key (with_slots (assoc_set k v (n_slots n)) n) = node_prop key n.
Proof.
  intros Hk. unfold node_prop. cbn [n_slots with_slots n_class].
  change (is_element (with_slots (assoc_set k v (n_slots n)) n))
    with (is_element n).
  destruct (String.eqb key "className" && is_element n); [reflexivity|].
  apply assoc_get_set_ne. congruence.
Qed.

Lemma keeps_convert c v : respects keeps (convert E c v).
Proof.
  destruct c as [|hint]; [apply (respects_ret keeps keeps_refl)|].
  apply (respects_to_primitive_with keeps keeps_refl keeps_trans keeps_call).
  apply (respects_native_toString keeps keeps_refl keeps_trans keeps_call).
Qed.

Lemma keeps_host_set k p : respects keeps (host_step (host_set E el k p)).
Proof.
  intros m. unfold host_step.
  pose proof (host_frame k p (m_heap m)) as Hf.
  destruct (host_set E el k p (m_heap m)); intros x Hx; apply Hf, Hx.
Qed.

Lemma keeps_set_property k v :
  k <> key -> respects keeps (set_property E el k v).
Proof.
  intros Hk m. unfold set_property. unfold bind at 1. unfold get_node at 1.
  destruct (m_heap m !! el) as [n|] eqn:Hel; [|apply keeps_refl].
  destruct (String.eqb k "className" && is_element n) eqn:Hc.
  - apply andb_true_iff in Hc. destruct Hc as [Hc _].
    apply String.eqb_eq in Hc. subst k.
    apply (respects_bind keeps keeps_trans); [apply keeps_to_string|].
    intros s. apply (keeps_update (with_class s)). intros n'.
    apply node_prop_with_class. congruence.
  - destruct (host_key E (n_kind n) k) as [c|].
    + apply (respects_bind keeps keeps_trans); [apply keeps_convert|].
      intros p. apply keeps_host_set.
    + unfold set_node.
      apply (keeps_write (fun n => with_slots (assoc_set k v (n_slots n)) n) _ _ Hel).
      apply (node_prop_with_slots _ _ _ Hk).
Qed.

Lemma keeps_classList_add args :
  key <> "className" -> respects keeps (classList_add E el args).
Proof.
  intros Hk. unfold classList_add.
  apply (respects_bind keeps keeps_trans);
    [apply (respects_get_node keeps keeps_refl)|]. intros n.
  destruct (negb (is_element n)); [apply (respects_throw keeps keeps_refl)|].
  apply (respects_bind keeps keeps_trans).
  - apply (respects_map_m keeps keeps_refl keeps_trans).
    apply Forall_forall. intros x _. apply keeps_to_string.
  - intros tokens. destruct (validate_tokens tokens);
      [apply (respects_throw keeps keeps_refl)|].
    apply (keeps_update
             (fun n' => with_class
                          (String.concat " " (fold_left token_add tokens (class_list n')))
                          n')).
    intros n'. apply (node_prop_with_class _ _ Hk).
Qed.

Lemma keeps_style_set rule v : respects keeps (style_set E el rule v).
Proof.
  intros m. unfold style_set. unfold bind at 1. unfold get_node at 1.
  destruct (m_heap m !! el) as [n|] eqn:Hel; [|apply keeps_refl].
  destruct (negb (is_element n)); [apply keeps_refl|].
  destruct (style_key E rule) as [c|].
  - apply (respects_bind keeps keeps_trans); [apply keeps_convert|].
    intros p m1. unfold bind, get_node.
    destruct (m_heap m1 !! el) as [n1|] eqn:Hel1; [|apply keeps_refl].
    destruct (style_put E rule p (n_style n1)) as [e|st]; [apply keeps_refl|].
    apply (keeps_write (with_style st) _ _ Hel1). reflexivity.
  - apply (keeps_write (fun n => with_style (assoc_set rule v (n_style n)) n) _ _ Hel).
    reflexivity.
Qed.

Lemma keeps_dataset_set k v : respects keeps (dataset_set E el k v).
Proof.
  unfold dataset_set.
  apply (respects_bind keeps keeps_trans);
    [apply (respects_get_node keeps keeps_refl)|]. intros n.
  destruct (negb (is_element n)); [apply (respects_throw keeps keeps_refl)|].
  apply (respects_bind keeps keeps_trans); [apply keeps_to_string|]. intros s.
  destruct (negb (data_ok E k)); [apply (respects_throw keeps keeps_refl)|].
  apply (keeps_update (fun n' => with_dataset (assoc_set k s (n_dataset n')) n')).
  reflexivity.
Qed.

Lemma keeps_setAttribute name v :
  String.eqb name "class" = false -> respects keeps (setAttribute E el name v).
Proof.
  intros Hname. unfold setAttribute. rewrite Hname.
  apply (respects_bind keeps keeps_trans);
    [apply (respects_get_node keeps keeps_refl)|]. intros n.
  destruct (negb (is_element n)); [apply (respects_throw keeps keeps_refl)|].
  apply (respects_bind keeps keeps_trans); [apply keeps_to_string|]. intros s.
  destruct (negb (attr_ok E name)); [apply (respects_throw keeps keeps_refl)|].
  apply (keeps_update (fun n' => with_attrs (assoc_set name s (n_attrs n')) n')).
  reflexivity.
Qed.

Lemma keeps_for_in v (body : string -> M unit) :
  (forall k, respects keeps (body k)) -> respects keeps (for_in v body).
Proof.
  intros Hb. unfold for_in.
  apply (respects_bind keeps keeps_trans);
    [apply (respects_get_heap keeps keeps_refl)|]. intros h.
  apply (respects_for_each keeps keeps_refl keeps_trans).
  apply Forall_forall. intros k _. apply Hb.
Qed.

Lemma keeps_prop_then v k (body : value -> M unit) :
  (forall x, respects keeps (body x)) ->
  respects keeps (x <- prop v k ;; body x).
Proof.
  intros Hb. apply (respects_bind keeps keeps_trans); [|exact Hb].
  unfold prop. apply (respects_bind keeps keeps_trans);
    [apply (respects_get_heap keeps keeps_refl)|].
  intros h. apply (respects_ret keeps keeps_refl).
Qed.

(** A key of the bag that writes another property keeps [key]. *)
Lemma keeps_addProp props k :
  target k <> Some key -> respects keeps (addProp E props el k).
Proof.
  unfold target, addProp, special, special_keys. cbn [existsb].
  destruct (String.eqb k "class").
  { intros Ht. apply keeps_prop_then. intros classNames.
    destruct (isArray classNames);
      [apply keeps_classList_add; congruence|].
    destruct (negb (is_nullish classNames));
      [|apply (respects_ret keeps keeps_refl)].
    apply keeps_set_property. congruence. }
  destruct (String.eqb k "for").
  { intros Ht. apply keeps_prop_then. intros v.
    apply keeps_set_property. congruence. }
  destruct (String.eqb k "tabindex").
  { intros Ht. apply keeps_prop_then. intros v.
    apply keeps_set_property. congruence. }
  destruct (String.eqb k "style").
  { intros _. apply keeps_prop_then. intros styles. apply keeps_for_in.
    intros rule. apply keeps_prop_then. intros v. apply keeps_style_set. }
  destruct (String.eqb k "dataset").
  { intros _. apply keeps_prop_then. intros dataset. apply keeps_for_in.
    intros dk. apply keeps_prop_then. intros v. apply keeps_dataset_set. }
  destruct (String.eqb k "role").
  { intros _. apply keeps_prop_then. intros v.
    apply keeps_setAttribute. reflexivity. }
  destruct (String.eqb k "aria").
  { intros _. apply keeps_prop_then. intros aria. apply keeps_for_in.
    intros a. apply keeps_prop_then. intros v.
    apply keeps_setAttribute. reflexivity. }
  intros Ht. apply keeps_prop_then. intros v.
  apply keeps_set_property. cbn in Ht. congruence.
Qed.

(** The key itself writes the value that the bag holds for it. *)
Lemma addProp_writes props m m' :
  special key = false ->
  (forall k, host_key E k key = None) ->
  (key = "className" -> is_string (get_prop (m_heap m) props key) = true) ->
  addProp E props el key m = Ok tt m' ->
  prop_is el key (get_prop (m_heap m) props key) (m_heap m').
Proof.
  intros Hs Hh Hc. rewrite (addProp_general _ _ _ Hs).
  unfold prop. unfold bind, get_heap, ret. destruct m as [h log]. ms.
  unfold set_property, bind, get_node. ms. ms.
  destruct (h !! el) as [n|] eqn:Hel; [|discriminate].
  pose proof (lookup_lt_Some _ _ _ Hel) as Hlt.
  unfold prop_is. rewrite lookup_prop_node.
  destruct (String.eqb key "className" && is_element n) eqn:Hcn.
  - apply andb_true_iff in Hcn. destruct Hcn as [Hk Hn].
    apply String.eqb_eq in Hk. specialize (Hc Hk). cbn [m_heap] in Hc.
    destruct (get_prop h props key) as [| |b|z|s|f|its ps|tg pr fs ms|id];
      try discriminate Hc.
    cbn. rewrite Hel. intros [= <-]. ms.
    rewrite list_lookup_insert_eq by exact Hlt.
    unfold node_prop. rewrite Hk. cbn [String.eqb Ascii.eqb Bool.eqb andb].
    change (is_element (with_class s n)) with (is_element n). rewrite Hn.
    reflexivity.
  - rewrite Hh. unfold set_node. intros [= <-]. ms.
    rewrite list_lookup_insert_eq by exact Hlt.
    unfold node_prop. cbn [n_slots with_slots].
    change (is_element (with_slots (assoc_set key (get_prop h props key) (n_slots n)) n))
      with (is_element n).
    rewrite Hcn. apply assoc_get_set_eq.
Qed.

Lemma for_each_addProp_last_write props keys :
  special key = false ->
  (forall k, host_key E k key = None) ->
  (key = "className" -> is_string (get_prop [] props key) = true) ->
  (forall id, props <> VNode id) ->
  (forall k, In k keys -> target k = Some key -> k = key) ->
  forall m m',
    for_each (addProp E props el) keys m = Ok tt m' ->
    prop_is el key (get_prop [] props key) (m_heap m) \/ In key keys ->
    prop_is el key (get_prop [] props key) (m_heap m').
Proof.
  intros Hs Hh Hc Hp. induction keys as [|k keys IH]; intros Hks m m' Hrun Hor.
  - injection Hrun as <-. destruct Hor as [H|[]]. exact H.
  - rewrite for_each_cons in Hrun. unfold bind in Hrun.
    destruct (addProp E props el k m) as [[] m1|e m1] eqn:Hk; [|discriminate].
    apply (IH (fun k' Hin => Hks k' (or_intror Hin)) _ _ Hrun).
    destruct (String.eqb_spec k key) as [->|Hne].
    + left. rewrite <- (get_prop_heap (m_heap m)) by exact Hp.
      apply (addProp_writes _ _ _ Hs Hh); [|exact Hk].
      rewrite (get_prop_heap (m_heap m)) by exact Hp. exact Hc.
    + destruct Hor as [H|[Heq|Hin]]; [left|contradiction|right; exact Hin].
      assert (target k <> Some key) as Ht.
      { intros Ht. apply Hne. apply Hks; [left; reflexivity | exact Ht]. }
      pose proof (keeps_addProp props k Ht m) as Hkeep.
      rewrite Hk in Hkeep. apply Hkeep, H.
Qed.

End LastWrite.


(** ** The class list *)

Lemma append_cons c a b : String c a +:+ b = String c (a +:+ b).
Proof. reflexivity. Qed.

Lemma has_whitespace_app a b :
  has_whitespace (a +:+ b) = has_whitespace a || has_whitespace b.
Proof.
  unfold has_whitespace.
  assert (list_ascii_of_string (a +:+ b)
          = list_ascii_of_string a ++ list_ascii_of_string b) as ->.
  { induction a as [|c a IH]; [reflexivity|].
    rewrite append_cons. cbn [list_ascii_of_string app]. rewrite IH. reflexivity. }
  apply existsb_app.
Qed.

Lemma valid_token_spec t :
  valid_token t = true <-> t <> EmptyString /\ has_whitespace t = false.
Proof.
  unfold valid_token. rewrite andb_true_iff, !negb_true_iff.
  split; intros [H1 H2]; split; try exact H2.
  - apply String.eqb_neq, H1.
  - apply String.eqb_neq, H1.
Qed.

Lemma append_empty_r s : s +:+ EmptyString = s.
Proof.
  induction s as [|c s IH]; [reflexivity|]. rewrite append_cons, IH. reflexivity.
Qed.

Lemma append_assoc a b c : (a +:+ b) +:+ c = a +:+ (b +:+ c).
Proof.
  induction a as [|x a IH]; [reflexivity|]. rewrite !append_cons, IH. reflexivity.
Qed.

Lemma split_ws_valid s : forall cur,
  has_whitespace cur = false ->
  Forall (fun t => valid_token t = true) (split_ws s cur).
Proof.
  induction s as [|c s IH]; intros cur Hcur; cbn [split_ws].
  - destruct (String.eqb_spec cur EmptyString); constructor; [|constructor].
    apply valid_token_spec. auto.
  - destruct (has_whitespace (String c EmptyString)) eqn:Hc.
    + destruct (String.eqb_spec cur EmptyString); [apply IH; reflexivity|].
      constructor; [apply valid_token_spec; auto | apply IH; reflexivity].
    + apply IH. rewrite has_whitespace_app, Hcur, Hc. reflexivity.
Qed.

Lemma split_ws_token t : forall rest cur,
  has_whitespace t = false ->
  split_ws (t +:+ rest) cur = split_ws rest (cur +:+ t).
Proof.
  induction t as [|c t IH]; intros rest cur Ht.
  - rewrite append_empty_r. reflexivity.
  - change (String c t) with (String c EmptyString +:+ t) in Ht.
    rewrite has_whitespace_app in Ht. apply orb_false_iff in Ht.
    destruct Ht as [Hc Ht].
    rewrite append_cons. cbn [split_ws]. rewrite Hc, (IH _ _ Ht), append_assoc.
    reflexivity.
Qed.

Lemma split_ws_concat ts :
  Forall (fun t => valid_token t = true) ts ->
  split_ws (String.concat " " ts) EmptyString = ts.
Proof.
  induction 1 as [|t ts Ht Hts IH]; [reflexivity|].
  apply valid_token_spec in Ht. destruct Ht as [Hne Hws].
  destruct ts as [|t2 ts].
  - cbn [String.concat].
    transitivity (split_ws (t +:+ EmptyString) EmptyString); [rewrite append_empty_r; reflexivity|].
    rewrite (split_ws_token _ _ _ Hws). cbn [split_ws].
    change (EmptyString +:+ t) with t.
    destruct (String.eqb_spec t EmptyString); [contradiction | reflexivity].
  - change (String.concat " " (t :: t2 :: ts))
      with (t +:+ (" " +:+ String.concat " " (t2 :: ts))).
    rewrite (split_ws_token _ _ _ Hws), append_cons. cbn [split_ws].
    change (has_whitespace " ") with true. cbn beta iota.
    change (EmptyString +:+ t) with t. change (EmptyString +:+ String.concat " " (t2 :: ts))
      with (String.concat " " (t2 :: ts)).
    destruct (String.eqb_spec t EmptyString); [contradiction|]. rewrite IH. reflexivity.
Qed.

Lemma existsb_eqb_In t (l : list string) :
  existsb (String.eqb t) l = true <-> In t l.
Proof.
  rewrite existsb_exists. split.
  - intros (x & Hx & Heq). apply String.eqb_eq in Heq. subst. exact Hx.
  - intros H. exists t. split; [exact H | apply String.eqb_refl].
Qed.

Lemma token_add_In set t x : In x (token_add set t) <-> In x set \/ x = t.
Proof.
  unfold token_add. destruct (existsb (String.eqb t) set) eqn:He.
  - apply existsb_eqb_In in He. split; [tauto|]. intros [H| ->]; assumption.
  - rewrite in_app_iff. cbn. intuition.
Qed.

Lemma fold_token_add_In ts : forall set x,
  In x (fold_left token_add ts set) <-> In x set \/ In x ts.
Proof.
  induction ts as [|t ts IH]; intros set x; cbn [fold_left].
  - cbn. tauto.
  - rewrite IH, token_add_In. cbn. intuition.
Qed.

Lemma token_add_NoDup set t : NoDup set -> NoDup (token_add set t).
Proof.
  intros H. unfold token_add. destruct (existsb (String.eqb t) set) eqn:He;
    [exact H|].
  apply NoDup_app. split; [exact H|]. split; [|apply NoDup_singleton].
  intros x Hx Hxt. apply list_elem_of_singleton in Hxt. subst x.
  apply list_elem_of_In, existsb_eqb_In in Hx. congruence.
Qed.

Lemma fold_token_add_NoDup ts : forall set,
  NoDup set -> NoDup (fold_left token_add ts set).
Proof.
  induction ts as [|t ts IH]; intros set H; cbn [fold_left]; [exact H|].
  apply IH, token_add_NoDup, H.
Qed.

Lemma fold_token_add_fresh ts : forall set,
  NoDup (set ++ ts) -> fold_left token_add ts set = set ++ ts.
Proof.
  induction ts as [|t ts IH]; intros set H; cbn [fold_left].
  - rewrite app_nil_r. reflexivity.
  - assert (token_add set t = set ++ [t]) as ->.
    { unfold token_add. destruct (existsb (String.eqb t) set) eqn:He; [|reflexivity].
      apply existsb_eqb_In, list_elem_of_In in He.
      apply NoDup_app in H. destruct H as (_ & Hd & _).
      destruct (Hd t He). left. }
    rewrite IH; rewrite <- app_assoc; [reflexivity | exact H].
Qed.

Lemma class_list_of_tokens ts n :
  NoDup ts -> Forall (fun t => valid_token t = true) ts ->
  class_list (with_class (String.concat " " ts) n) = ts.
Proof.
  intros Hd Hv. unfold class_list. cbn [n_class with_class].
  rewrite (split_ws_concat _ Hv). apply (fold_token_add_fresh ts []). exact Hd.
Qed.

Lemma class_list_NoDup n : NoDup (class_list n).
Proof. apply fold_token_add_NoDup. constructor. Qed.

Lemma class_list_valid n : Forall (fun t => valid_token t = true) (class_list n).
Proof.
  apply Forall_forall. intros t Ht. apply list_elem_of_In in Ht.
  unfold class_list in Ht. apply fold_token_add_In in Ht.
  destruct Ht as [[]|Ht].
  pose proof (split_ws_valid (n_class n) EmptyString eq_refl) as Hv.
  rewrite Forall_forall in Hv. apply Hv, list_elem_of_In, Ht.
Qed.

Lemma validate_tokens_valid ts :
  validate_tokens ts = None -> Forall (fun t => valid_token t = true) ts.
Proof.
  induction ts as [|t ts IH]; cbn [validate_tokens]; intros H; constructor.
  - unfold valid_token. destruct (String.eqb t EmptyString); [discriminate|].
    destruct (has_whitespace t); [discriminate | reflexivity].
  - destruct (String.eqb t EmptyString); [discriminate|].
    destruct (has_whitespace t); [discriminate | exact (IH H)].
Qed.

(** The class list after [classList.add(...ts)]. *)
Lemma class_list_after_add ts n :
  validate_tokens ts = None ->
  class_list (with_class
                (String.concat " " (fold_left token_add ts (class_list n))) n)
  = fold_left token_add ts (class_list n).
Proof.
  intros Hv. apply class_list_of_tokens.
  - apply fold_token_add_NoDup, class_list_NoDup.
  - apply Forall_forall. intros t Ht.
    apply list_elem_of_In, fold_token_add_In in Ht.
    pose proof (class_list_valid n) as H1.
    pose proof (validate_tokens_valid _ Hv) as H2.
    rewrite Forall_forall in H1, H2.
    destruct Ht as [Ht|Ht]; [apply H1 | apply H2]; apply list_elem_of_In, Ht.
Qed.

Lemma addProps_class v el m :
  addProps E (plain [("class", v)]) el m =
    (if isArray v then classList_add E el (array_items v)
     else if negb (is_nullish v) then set_property E el "className" v
     else ret tt) m.
Proof.
  rewrite addProps_eq. cbn [plain for_in_keys fmap list_fmap fst].
  rewrite for_each_cons. cbn [for_each]. rewrite bind_ret_tt.
  unfold addProp. cbn [String.eqb Ascii.eqb Bool.eqb].
  unfold prop. unfold bind at 1 2. unfold get_heap, ret. reflexivity.
Qed.

Lemma map_m_to_string_strings ts m :
  map_m (to_string E) (VStr <$> ts) m = Ok ts m.
Proof.
  revert m. induction ts as [|t ts IH]; intros m; [reflexivity|].
  cbn [fmap list_fmap map_m]. unfold bind at 1. rewrite to_string_eq.
  cbn. unfold bind. rewrite IH. reflexivity.
Qed.


Lemma append_text_new el s h log p :
  h !! el = Some p -> is_element p = true ->
  (t <- createTextNode E (VStr s) ;; appendChild el (VNode t)) (Machine h log)
  = Ok tt (Machine (append_new el h (KText s)) log).
Proof. intros Hel Hp. cbn. apply (appendChild_fresh _ _ _ _ _ Hel Hp). Qed.


(** The arguments are processed from left to right: the call with
    [args1 ++ args2] is the call with [args1] followed by the processing of
    [args2] on the same node. *)
Lemma createElement_app tag args1 args2 m :
  createElement E tag (args1 ++ args2) m =
    match createElement E tag args1 m with
    | Ok el m1 =>
        match for_each (dispatch E el) args2 m1 with
        | Ok _ m' => Ok el m'
        | Throw e m' => Throw e m'
        end
    | Throw e m1 => Throw e m1
    end.
Proof.
  rewrite !createElement_eq.
  destruct (document_createElement E tag m) as [el m0|e m0]; [|reflexivity].
  rewrite for_each_app. unfold bind.
  destruct (for_each (dispatch E el) args1 m0) as [[] m1|e m1]; reflexivity.
Qed.

(** ** The end of a computation that returns *)

Lemma bind_Ok_inv {A B : Type} (c : M A) (k : A -> M B) m b m' :
  bind c k m = Ok b m' -> exists a m1, c m = Ok a m1 /\ k a m1 = Ok b m'.
Proof. unfold bind. destruct (c m) as [a m1|e m1]; [eauto | discriminate]. Qed.

Lemma appendChild_Ok el child m m' :
  appendChild el child m = Ok tt m' ->
  exists c p cn,
    child = VNode c /\ m_heap m !! el = Some p /\ is_element p = true /\
    m_heap m !! c = Some cn /\
    contains (m_heap m) (List.length (m_heap m)) c el = false /\
    m' = Machine (attach el c (detach c (m_heap m))) (m_calls m).
Proof.
  unfold appendChild, bind, get_node, get_heap.
  destruct (m_heap m !! el) as [p|] eqn:Hel; [|discriminate]. ms.
  destruct child as [| | | | | | | |c]; try discriminate.
  destruct (m_heap m !! c) as [cn|] eqn:Hc; [|discriminate].
  destruct (is_element p) eqn:Hp; [|discriminate]. cbn [negb].
  destruct (contains (m_heap m) (List.length (m_heap m)) c el) eqn:Hcont;
    [discriminate|].
  unfold put_heap. intros [= <-]. exists c, p, cn. auto 10.
Qed.

Lemma contains_self h fuel c : contains h fuel c c = true.
Proof. destruct fuel; cbn; rewrite Nat.eqb_refl; reflexivity. Qed.

Lemma bind_get_heap {A : Type} (k : heap -> M A) m :
  bind get_heap k m = k (m_heap m) m.
Proof. reflexivity. Qed.

(** [append_one] appends the node itself, or the product of the value. *)
Lemma append_one_eq v el m :
  append_one E v el m =
    if is_tree_node (m_heap m) v then appendChild el v m
    else (r <- product E v ;; appendChild el r) m.
Proof.
  unfold append_one, product. rewrite (bind_assoc get_heap), !bind_get_heap.
  destruct (is_tree_node (m_heap m) v); [reflexivity|].
  destruct (is_nullish v); [rewrite (bind_assoc (createComment E _)); reflexivity|].
  assert (forall (A : Type) (c : M A) (k : A -> M node_id) m,
            (r <- c ;; t <- k r ;; appendChild el (VNode t)) m
            = (r <- (r <- c ;; t <- k r ;; ret (VNode t)) ;; appendChild el r) m)
    as Hassoc.
  { intros A c k m0. rewrite (bind_assoc c). apply bind_ext. intros r m1.
    rewrite (bind_assoc (k r)). reflexivity. }
  destruct (get_prop (m_heap m) v "toElement"); try reflexivity;
    (destruct (method (m_heap m) v "toString") as [c|];
     [apply Hassoc | apply (Hassoc _ _ (fun s => createTextNode E (VStr s)))]).
Qed.

(** The product of an inert value is a new text or comment. *)
Lemma product_inert v h log :
  inert v = true -> isArray v = false ->
  product E v (Machine h log)
  = Ok (VNode (List.length h)) (Machine (h ++ [new_node (leaf_kind E v)]) log).
Proof.
  intros Hv Ha.
  destruct v as [| |b|n|s|f|items props|tag proto fields methods|id];
    try discriminate; unfold product, bind, get_heap; ms; cbn [is_nullish].
  - reflexivity.
  - reflexivity.
  - destruct b; reflexivity.
  - reflexivity.
  - unfold get_prop, method, lookup_prop.
    rewrite !key_index_named by reflexivity. reflexivity.
  - reflexivity.
  - cbn [inert] in Hv. rewrite !andb_true_iff in Hv.
    destruct Hv as [[[Hproto Hq] Hte] Hts].
    apply negb_true_iff in Hte. unfold carries in Hte.
    apply bool_decide_eq_true in Hts.
    rewrite (get_prop_heap h) by discriminate.
    destruct (get_prop [] (VObj tag proto fields methods) "toElement") eqn:Hg;
      try discriminate Hte;
      unfold method; rewrite (lookup_prop_heap h), Hts by discriminate;
      cbn [has_builtins]; rewrite Hproto; reflexivity.
Qed.

(** A node that is not in the tree has no product. *)
Lemma product_dangling c m :
  m_heap m !! c = None -> exists e m', product E (VNode c) m = Throw e m'.
Proof.
  intros Hc. unfold product, bind, get_heap. cbn [is_nullish].
  unfold get_prop, method, lookup_prop. rewrite Hc. cbn [default has_builtins].
  unfold native_toString, native_toString_with, bind, get_node. rewrite Hc.
  eauto.
Qed.

(** ** Moving a node to the end of the children of an element *)

Lemma remove_id_In c cs x : In x (remove_id c cs) <-> In x cs /\ x <> c.
Proof.
  unfold remove_id. rewrite <- !list_elem_of_In, list_elem_of_filter. tauto.
Qed.

Lemma remove_id_absent c cs : ~ In c cs -> remove_id c cs = cs.
Proof.
  unfold remove_id. induction cs as [|x cs IH]; intros H; [reflexivity|].
  rewrite filter_cons. destruct (decide (x <> c)) as [_|Heq].
  - f_equal. apply IH. intros Hin. apply H. right. exact Hin.
  - destruct H. left. destruct (Nat.eq_dec x c); [assumption | contradiction].
Qed.

Lemma fold_moved_fresh ps : forall cs,
  NoDup (cs ++ ps) -> fold_left moved ps cs = cs ++ ps.
Proof.
  induction ps as [|p ps IH]; intros cs H; cbn [fold_left].
  - rewrite app_nil_r. reflexivity.
  - assert (moved cs p = cs ++ [p]) as ->.
    { unfold moved. rewrite remove_id_absent; [reflexivity|].
      intros Hin. apply NoDup_app in H. destruct H as (_ & Hd & _).
      apply (Hd p); [apply list_elem_of_In, Hin | left]. }
    rewrite IH; rewrite <- app_assoc; [reflexivity | exact H].
Qed.

Lemma keeps_kinds_trans h1 h2 h3 :
  keeps_kinds h1 h2 -> keeps_kinds h2 h3 -> keeps_kinds h1 h3.
Proof.
  intros H1 H2 id n Hn. destruct (H1 _ _ Hn) as (n2 & Hn2 & Hk2).
  destruct (H2 _ _ Hn2) as (n3 & Hn3 & Hk3). exists n3. split; [exact Hn3|].
  congruence.
Qed.

(** A node written back with its kind and, unless it is [c], its parent. *)
Lemma insert_lookup (h : heap) i (y : node) x xn :
  h !! x = Some xn ->
  <[i := y]> h !! x = Some (if Nat.eqb i x then y else xn).
Proof.
  intros Hx. destruct (Nat.eqb_spec i x) as [->|Hne].
  - apply list_lookup_insert_eq, (lookup_lt_Some _ _ _ Hx).
  - rewrite list_lookup_insert_ne by exact Hne. exact Hx.
Qed.

Lemma detach_lookup c h x xn :
  h !! x = Some xn ->
  exists xn', detach c h !! x = Some xn' /\ n_kind xn' = n_kind xn /\
              (x <> c -> n_parent xn' = n_parent xn).
Proof.
  intros Hx. unfold detach. destruct (h !! c) as [cn|] eqn:Hc; [|eauto].
  destruct (n_parent cn) as [q|]; [|eauto].
  assert (forall (g : heap) gx,
            g !! x = Some gx -> n_kind gx = n_kind xn ->
            (x <> c -> n_parent gx = n_parent xn) ->
            exists xn', <[c := with_parent None cn]> g !! x = Some xn' /\
                        n_kind xn' = n_kind xn /\
                        (x <> c -> n_parent xn' = n_parent xn)) as Hlast.
  { intros g gx Hg Hk Hpar. rewrite (insert_lookup _ _ _ _ _ Hg).
    eexists. split; [reflexivity|].
    destruct (Nat.eqb_spec c x) as [->|Hne].
    - rewrite Hx in Hc. injection Hc as <-. split; [reflexivity|].
      intros Hxx. destruct Hxx. reflexivity.
    - split; [exact Hk | exact Hpar]. }
  destruct (h !! q) as [qn|] eqn:Hq; [|apply (Hlast h xn Hx); auto].
  eapply Hlast; [apply (insert_lookup _ _ _ _ _ Hx)| |].
  - destruct (Nat.eqb_spec q x) as [->|_]; [|reflexivity].
    rewrite Hx in Hq. injection Hq as <-. reflexivity.
  - intros _. destruct (Nat.eqb_spec q x) as [->|_]; [|reflexivity].
    rewrite Hx in Hq. injection Hq as <-. reflexivity.
Qed.

Lemma attach_lookup el c h x xn :
  h !! x = Some xn ->
  exists xn', attach el c h !! x = Some xn' /\ n_kind xn' = n_kind xn /\
              (x <> c -> n_parent xn' = n_parent xn).
Proof.
  intros Hx. unfold attach. destruct (h !! el) as [pn|] eqn:Hel; [|eauto].
  destruct (h !! c) as [cn|] eqn:Hc; [|eauto].
  rewrite (insert_lookup _ _ _ _ _ (insert_lookup _ el _ _ _ Hx)).
  eexists. split; [reflexivity|].
  destruct (Nat.eqb_spec c x) as [->|Hne].
  - rewrite Hx in Hc. injection Hc as <-. split; [reflexivity|].
    intros Hxx. destruct Hxx. reflexivity.
  - destruct (Nat.eqb_spec el x) as [->|_]; [|auto].
    rewrite Hx in Hel. injection Hel as <-. auto.
Qed.

Lemma move_lookup el c h x xn :
  h !! x = Some xn ->
  exists xn', attach el c (detach c h) !! x = Some xn' /\
              n_kind xn' = n_kind xn /\
              (x <> c -> n_parent xn' = n_parent xn).
Proof.
  intros Hx. destruct (detach_lookup c _ _ _ Hx) as (x1 & Hx1 & Hk1 & Hp1).
  destruct (attach_lookup el c _ _ _ Hx1) as (x2 & Hx2 & Hk2 & Hp2).
  exists x2. split; [exact Hx2|]. split; [congruence|].
  intros Hne. rewrite (Hp2 Hne). apply (Hp1 Hne).
Qed.

Lemma move_keeps_kinds el c h : keeps_kinds h (attach el c (detach c h)).
Proof.
  intros x xn Hx. destruct (move_lookup el c _ _ _ Hx) as (x2 & Hx2 & Hk2 & _).
  eauto.
Qed.

Lemma detach_children el c h p cn :
  h !! el = Some p -> h !! c = Some cn -> el <> c ->
  children_of (detach c h) el
  = match n_parent cn with
    | Some q => if Nat.eqb q el then remove_id c (n_children p) else n_children p
    | None => n_children p
    end.
Proof.
  intros Hel Hc Hne. unfold children_of, detach. rewrite Hc.
  destruct (n_parent cn) as [q|]; [|rewrite Hel; reflexivity].
  destruct (Nat.eqb_spec q el) as [->|Hq].
  - rewrite Hel. rewrite list_lookup_insert_ne by congruence.
    rewrite list_lookup_insert_eq by apply (lookup_lt_Some _ _ _ Hel).
    reflexivity.
  - destruct (h !! q); rewrite !list_lookup_insert_ne by congruence;
      rewrite Hel; reflexivity.
Qed.

Lemma settled_move el c h cn :
  settled h el -> h !! c = Some cn -> el <> c ->
  children_of (attach el c (detach c h)) el = moved (children_of h el) c /\
  settled (attach el c (detach c h)) el.
Proof.
  intros [(p & Hel & Hp) Hown] Hc Hne.
  destruct (lookup_lt_is_Some_2 (detach c h) el) as [p2 Hp2].
  { rewrite detach_length. apply (lookup_lt_Some _ _ _ Hel). }
  destruct (lookup_lt_is_Some_2 (detach c h) c) as [c2 Hc2].
  { rewrite detach_length. apply (lookup_lt_Some _ _ _ Hc). }
  assert (children_of (attach el c (detach c h)) el = moved (children_of h el) c)
    as Hkids.
  { rewrite (attach_children _ _ _ _ _ Hp2 Hc2 Hne).
    change (n_children p2) with
      (match Some p2 with Some n => n_children n | None => [] end).
    rewrite <- Hp2. fold (children_of (detach c h) el).
    rewrite (detach_children _ _ _ _ _ Hel Hc Hne).
    unfold moved, children_of. rewrite Hel.
    assert (n_parent cn <> Some el -> remove_id c (n_children p) = n_children p)
      as Habs.
    { intros Hpar. apply remove_id_absent. intros Hin.
      destruct (Hown c) as (cn' & Hc' & Hpar').
      - unfold children_of. rewrite Hel. exact Hin.
      - congruence. }
    destruct (n_parent cn) as [q|] eqn:Hq.
    - destruct (Nat.eqb_spec q el) as [->|Hqe]; [reflexivity|].
      rewrite Habs by congruence. reflexivity.
    - rewrite Habs by congruence. reflexivity. }
  split; [exact Hkids|]. split.
  - destruct (move_lookup el c _ _ _ Hel) as (p3 & Hp3 & Hk3 & _).
    exists p3. split; [exact Hp3|]. unfold is_element in *. rewrite Hk3. exact Hp.
  - intros x Hx. rewrite Hkids in Hx. unfold moved in Hx.
    apply in_app_iff in Hx. destruct Hx as [Hx|[<-|[]]].
    + apply remove_id_In in Hx. destruct Hx as [Hx Hxc].
      destruct (Hown _ Hx) as (xn & Hxn & Hpar).
      destruct (move_lookup el c _ _ _ Hxn) as (x3 & Hx3 & _ & Hp3).
      exists x3. split; [exact Hx3|]. rewrite (Hp3 Hxc). exact Hpar.
    + unfold attach. rewrite Hp2, Hc2. eexists. split.
      * apply list_lookup_insert_eq. rewrite length_insert.
        apply (lookup_lt_Some _ _ _ Hc2).
      * reflexivity.
Qed.

(** ** The shape of the tree *)

Lemma keeps_shape_refl h : keeps_shape h h.
Proof. intros id n H. eauto. Qed.

Lemma keeps_shape_trans h1 h2 h3 :
  keeps_shape h1 h2 -> keeps_shape h2 h3 -> keeps_shape h1 h3.
Proof.
  intros H1 H2 id n Hn. destruct (H1 _ _ Hn) as (n2 & Hn2 & Hk2).
  destruct (H2 _ _ Hn2) as (n3 & Hn3 & Hk3). exists n3. split; [exact Hn3|].
  congruence.
Qed.

Lemma keeps_shape_grow h n : keeps_shape h (h ++ [n]).
Proof.
  intros id x H. exists x. split; [|reflexivity].
  apply (lookup_app_l_Some _ _ _ _ H).
Qed.

Lemma keeps_shape_length h h' :
  keeps_shape h h' -> List.length h <= List.length h'.
Proof.
  intros H. destruct (Nat.eq_dec (List.length h) 0) as [->|Hne]; [lia|].
  destruct (lookup_lt_is_Some_2 h (List.length h - 1)) as [n Hn]; [lia|].
  destruct (H _ _ Hn) as (n' & Hn' & _). apply lookup_lt_Some in Hn'. lia.
Qed.

Lemma keeps_shape_kinds h h' : keeps_shape h h' -> keeps_kinds h h'.
Proof.
  intros H id n Hn. destruct (H _ _ Hn) as (n' & Hn' & Hs).
  exists n'. split; [exact Hn'|]. unfold shape in Hs. congruence.
Qed.

Lemma keeps_shape_settled h h' el :
  keeps_shape h h' -> settled h el ->
  settled h' el /\ children_of h' el = children_of h el.
Proof.
  intros H [(p & Hel & Hp) Hown].
  destruct (H _ _ Hel) as (p' & Hel' & Hs). unfold shape in Hs.
  injection Hs as Hk Hpar Hkids.
  assert (children_of h' el = children_of h el) as Heq.
  { unfold children_of. rewrite Hel, Hel'. exact Hkids. }
  split; [|exact Heq]. split.
  - exists p'. split; [exact Hel'|]. unfold is_element in *. rewrite Hk. exact Hp.
  - intros c Hc. rewrite Heq in Hc. destruct (Hown _ Hc) as (cn & Hcn & Hcp).
    destruct (H _ _ Hcn) as (cn' & Hcn' & Hcs). unfold shape in Hcs.
    exists cn'. split; [exact Hcn'|]. congruence.
Qed.

Lemma stands_for_kept h h' v c :
  keeps_kinds h h' -> stands_for E h v c -> stands_for E h' v c.
Proof.
  intros H. destruct v; cbn [stands_for]; try (intros ?; assumption);
    intros (x & Hx & Hk); destruct (H _ _ Hx) as (x' & Hx' & Hk');
    exists x'; (split; [exact Hx'|]); intros Hv; rewrite Hk'; apply Hk, Hv.
Qed.

(** ** The child that a value contributes *)

Section Ends.

Variable R : machine -> machine -> Prop.
Hypothesis R_refl : forall m, R m m.
Hypothesis R_trans : forall m1 m2 m3, R m1 m2 -> R m2 m3 -> R m1 m3.
Hypothesis R_call : forall f this args, respects R (call_fn E f this args).
Hypothesis R_alloc : forall n, respects R (alloc n).

(** A successful [append_one] ends with the append of a node [c] of the
    heap, on a machine that the conversions and the producers of the value
    have led to: [c] is the value when the value is a node, and a new text
    or comment when the value is inert. *)
Lemma append_one_ends v el m m' :
  isArray v = false ->
  append_one E v el m = Ok tt m' ->
  exists m1 c,
    R m m1 /\
    appendChild el (VNode c) m1 = Ok tt m' /\
    (forall c0, v = VNode c0 -> c = c0) /\
    (inert v = true ->
     m1 = Machine (m_heap m ++ [new_node (leaf_kind E v)]) (m_calls m) /\
     c = List.length (m_heap m)).
Proof.
  intros Ha. rewrite append_one_eq.
  destruct (is_tree_node (m_heap m) v) eqn:Htree.
  - destruct v; try discriminate Htree. intros H. exists m, id.
    split; [apply R_refl|]. split; [exact H|]. split; [congruence|].
    discriminate.
  - intros H. apply bind_Ok_inv in H. destruct H as (r & m1 & Hprod & Happ).
    destruct (appendChild_Ok _ _ _ _ Happ) as (c & _ & _ & -> & _).
    exists m1, c.
    pose proof (respects_product R R_refl R_trans R_call R_alloc v m) as HR.
    rewrite Hprod in HR. split; [exact HR|]. split; [exact Happ|]. split.
    + intros c0 ->. cbn [is_tree_node] in Htree.
      apply bool_decide_eq_false in Htree.
      destruct (m_heap m !! c0) eqn:Hc0; [destruct Htree; eauto|].
      destruct (product_dangling _ _ Hc0) as (e & m2 & Hthrow). congruence.
    + intros Hv. destruct m as [h log].
      rewrite (product_inert _ _ _ Hv Ha) in Hprod.
      injection Hprod as <- <-. split; reflexivity.
Qed.

(** The product of a value that is neither a node nor elementable is a
    node that the host creates for it. *)
Lemma product_fresh v m r m1 :
  (forall c0, v <> VNode c0) ->
  is_function (get_prop (m_heap m) v "toElement") = false ->
  product E v m = Ok r m1 ->
  exists m0 n,
    R m m0 /\ r = VNode (List.length (m_heap m0)) /\
    m1 = Machine (m_heap m0 ++ [n]) (m_calls m0).
Proof.
  intros Hv Hte. unfold product. rewrite bind_get_heap.
  assert (forall (x : value) ma,
            R m ma ->
            (t <- createTextNode E x ;; ret (VNode t)) ma = Ok r m1 ->
            exists m0 n,
              R m m0 /\ r = VNode (List.length (m_heap m0)) /\
              m1 = Machine (m_heap m0 ++ [n]) (m_calls m0)) as Htext.
  { intros x ma Hma H. apply bind_Ok_inv in H. destruct H as (t & mb & Ht & Hret).
    injection Hret as <- <-. unfold createTextNode in Ht.
    apply bind_Ok_inv in Ht. destruct Ht as (s & m0 & Hs & Halloc).
    injection Halloc as <- <-. exists m0, (new_node (KText s)).
    split; [|split; reflexivity].
    pose proof (respects_to_string R R_refl R_trans R_call x ma) as HR.
    rewrite Hs in HR. apply (R_trans _ _ _ Hma HR). }
  destruct (is_nullish v).
  { intros H. apply bind_Ok_inv in H. destruct H as (t & mb & Ht & Hret).
    injection Hret as <- <-. unfold createComment in Ht.
    apply bind_Ok_inv in Ht. destruct Ht as (s & m0 & Hs & Halloc).
    injection Halloc as <- <-. exists m0, (new_node (KComment s)).
    split; [|split; reflexivity].
    pose proof (respects_to_string R R_refl R_trans R_call
                  (VStr (prim_to_string v)) m) as HR.
    rewrite Hs in HR. exact HR. }
  assert (match method (m_heap m) v "toString" with
          | Some c =>
              r <- match c with
                   | User f => call_fn E f v []
                   | Native => native_toString E v
                   end ;;
              t <- createTextNode E r ;;
              ret (VNode t)
          | None =>
              s <- concat_empty E v ;;
              t <- createTextNode E (VStr s) ;;
              ret (VNode t)
          end m = Ok r m1 ->
          exists m0 n,
            R m m0 /\ r = VNode (List.length (m_heap m0)) /\
            m1 = Machine (m_heap m0 ++ [n]) (m_calls m0)) as Hrest.
  { destruct (method (m_heap m) v "toString") as [c|]; intros H;
      apply bind_Ok_inv in H; destruct H as (x & ma & Hx & H).
    - apply (Htext x ma); [|exact H].
      destruct c as [f|].
      + pose proof (R_call f v [] m) as HR. rewrite Hx in HR. exact HR.
      + pose proof (respects_native_toString R R_refl R_trans R_call v m) as HR.
        rewrite Hx in HR. exact HR.
    - apply (Htext (VStr x) ma); [|exact H].
      pose proof (respects_concat_empty R R_refl R_trans R_call v m) as HR.
      rewrite Hx in HR. exact HR. }
  destruct (get_prop (m_heap m) v "toElement"); try exact Hrest.
  discriminate Hte.
Qed.

End Ends.

(** A value that is not an array and whose append returns stands last
    among the children, whatever the user functions do. *)
Lemma append_one_last v el m m' :
  isArray v = false ->
  append_one E v el m = Ok tt m' ->
  exists c, last (children_of (m_heap m') el) = Some c /\
            stands_for E (m_heap m') v c.
Proof.
  intros Ha H.
  destruct (append_one_ends (fun _ _ => True) (fun _ => I) (fun _ _ _ _ _ => I)
              (fun f this args m =>
                 match call_fn E f this args m as o
                 return match o with Ok _ _ => True | Throw _ _ => True end
                 with Ok _ _ => I | Throw _ _ => I end)
              (fun n m => I) v el m m' Ha H)
    as (m1 & c & _ & Happ & Hnode & Hinert).
  destruct (appendChild_Ok _ _ _ _ Happ) as (c' & p & cn & Hc' & Hel & Hp & Hc & Hcont & ->).
  injection Hc' as <-. exists c. ms.
  split; [apply (appendChild_node _ _ _ (m_calls m1) _ _ Hel Hp Hc Hcont)|].
  destruct (move_lookup el c _ _ _ Hc) as (c3 & Hc3 & Hk3 & _).
  destruct v; cbn [stands_for];
    try (exists c3; (split; [exact Hc3|]); intros Hv;
         destruct (Hinert Hv) as [-> ->]; ms; cbn [m_heap] in Hc;
         rewrite list_lookup_middle in Hc by reflexivity;
         injection Hc as <-; exact Hk3).
  apply Hnode. reflexivity.
Qed.

Lemma leaves_not_arrays v : Forall (fun leaf => isArray leaf = false) (leaves v).
Proof.
  induction v as [items props IH|v Hna] using value_items_ind.
  - cbn [leaves]. induction IH as [|x items Hx _ IHitems]; [constructor|].
    cbn [flat_map]. apply Forall_app. split; assumption.
  - rewrite (leaves_not_array _ Hna). constructor; [exact Hna | constructor].
Qed.

(** The append of a leaf that returns leaves the node of the leaf last. *)
Lemma leaf_step_last v el leaf m1 m2 :
  In leaf (leaves v) ->
  run_step E el (SAppend leaf) m1 = Ok tt m2 ->
  exists c, last (children_of (m_heap m2) el) = Some c /\
            stands_for E (m_heap m2) leaf c.
Proof.
  intros Hin H. apply (append_one_last leaf el m1 m2); [|exact H].
  pose proof (leaves_not_arrays v) as Hall. rewrite Forall_forall in Hall.
  apply Hall, list_elem_of_In, Hin.
Qed.

(** ** One node per leaf *)

Section Products.

Variable el : node_id.

(** No user function removes a node, changes the kind of one or moves
    one. *)
Hypothesis fn_shape :
  forall f this args h, keeps_shape h (fn_heap (fn_call E f this args h)).

Local Abbreviation Q :=
  (fun m m' : machine => keeps_shape (m_heap m) (m_heap m')).

Lemma Q_call f this args : respects Q (call_fn E f this args).
Proof.
  intros m. unfold call_fn. pose proof (fn_shape f this args (m_heap m)) as H.
  destruct (fn_call E f this args (m_heap m)); exact H.
Qed.

Lemma Q_alloc n : respects Q (alloc n).
Proof. intros m. apply keeps_shape_grow. Qed.

Lemma Q_hook key v m m' :
  settled (m_heap m) el ->
  append_hook E key v el m = Ok tt m' ->
  keeps_kinds (m_heap m) (m_heap m') /\ settled (m_heap m') el /\
  children_of (m_heap m') el = children_of (m_heap m) el.
Proof.
  intros Hs H.
  pose proof (respects_append_hook Q (fun m => keeps_shape_refl _)
                (fun m1 m2 m3 => keeps_shape_trans _ _ _) Q_call key v el m) as HQ.
  rewrite H in HQ. split; [apply keeps_shape_kinds, HQ|].
  apply (keeps_shape_settled _ _ _ HQ Hs).
Qed.

Lemma append_one_products v m m' :
  isArray v = false -> settled (m_heap m) el ->
  append_one E v el m = Ok tt m' ->
  keeps_kinds (m_heap m) (m_heap m') /\ settled (m_heap m') el /\
  exists c, stands_for E (m_heap m') v c /\
            children_of (m_heap m') el = moved (children_of (m_heap m) el) c.
Proof.
  intros Ha Hs H.
  destruct (append_one_ends Q (fun m => keeps_shape_refl _)
              (fun m1 m2 m3 => keeps_shape_trans _ _ _) Q_call Q_alloc
              v el m m' Ha H) as (m1 & c & HQ & Happ & Hnode & Hinert).
  destruct (keeps_shape_settled _ _ _ HQ Hs) as [Hs1 Hkids1].
  destruct (appendChild_Ok _ _ _ _ Happ)
    as (c' & p & cn & Hc' & Hel & Hp & Hc & Hcont & ->).
  injection Hc' as <-. ms.
  assert (el <> c) as Hne.
  { intros <-. rewrite contains_self in Hcont. discriminate. }
  destruct (settled_move _ _ _ _ Hs1 Hc Hne) as [Hkids Hs2].
  split.
  { apply (keeps_kinds_trans _ (m_heap m1)); [apply keeps_shape_kinds, HQ|].
    apply move_keeps_kinds. }
  split; [exact Hs2|]. exists c. split; [|rewrite Hkids, Hkids1; reflexivity].
  destruct (move_lookup el c _ _ _ Hc) as (c3 & Hc3 & Hk3 & _).
  destruct v; cbn [stands_for];
    try (exists c3; (split; [exact Hc3|]); intros Hv;
         destruct (Hinert Hv) as [-> ->]; ms; cbn [m_heap] in Hc;
         rewrite list_lookup_middle in Hc by reflexivity;
         injection Hc as <-; exact Hk3).
  apply Hnode. reflexivity.
Qed.

Lemma for_each_products items :
  Forall (fun v => forall m m',
            settled (m_heap m) el ->
            addChildren E v el m = Ok tt m' ->
            keeps_kinds (m_heap m) (m_heap m') /\ settled (m_heap m') el /\
            exists ps, Forall2 (stands_for E (m_heap m')) (leaves v) ps /\
                       children_of (m_heap m') el
                       = fold_left moved ps (children_of (m_heap m) el)) items ->
  forall m1 m2,
    settled (m_heap m1) el ->
    for_each (fun child => addChildren E child el) items m1 = Ok tt m2 ->
    keeps_kinds (m_heap m1) (m_heap m2) /\ settled (m_heap m2) el /\
    exists ps, Forall2 (stands_for E (m_heap m2)) (flat_map leaves items) ps /\
               children_of (m_heap m2) el
               = fold_left moved ps (children_of (m_heap m1) el).
Proof.
  induction 1 as [|x items Hx _ IHitems]; intros m1 m2 Hs1 Hrun.
  - injection Hrun as <-. split; [apply keeps_kinds_refl|].
    split; [exact Hs1|]. exists []. split; [constructor | reflexivity].
  - rewrite for_each_cons in Hrun. apply bind_Ok_inv in Hrun.
    destruct Hrun as ([] & ma & Hxrun & Hrest).
    destruct (Hx _ _ Hs1 Hxrun) as (Hka & Hsa & psx & Hfx & Hcx).
    destruct (IHitems _ _ Hsa Hrest) as (Hkb & Hsb & psr & Hfr & Hcr).
    split; [apply (keeps_kinds_trans _ _ _ Hka Hkb)|].
    split; [exact Hsb|]. exists (psx ++ psr). split.
    + cbn [flat_map]. apply Forall2_app; [|exact Hfr].
      eapply Forall2_impl; [exact Hfx|]. intros leaf c.
      apply stands_for_kept, Hkb.
    + rewrite fold_left_app, <- Hcx. exact Hcr.
Qed.

(** Every leaf of the value gets a node, and the nodes are appended in the
    order of the leaves. *)
Lemma addChildren_products v : forall m m',
  settled (m_heap m) el ->
  addChildren E v el m = Ok tt m' ->
  keeps_kinds (m_heap m) (m_heap m') /\ settled (m_heap m') el /\
  exists ps, Forall2 (stands_for E (m_heap m')) (leaves v) ps /\
             children_of (m_heap m') el
             = fold_left moved ps (children_of (m_heap m) el).
Proof.
  induction v as [items props IH|v Hna] using value_items_ind;
    intros m m' Hs H; rewrite addChildren_eq in H;
    apply bind_Ok_inv in H; destruct H as ([] & m1 & Hbefore & H);
    apply bind_Ok_inv in H; destruct H as ([] & m2 & Hcontent & Hafter);
    destruct (Q_hook _ _ _ _ Hs Hbefore) as (Hk1 & Hs1 & Hc1).
  - cbn [content leaves] in *.
    destruct (for_each_products _ IH _ _ Hs1 Hcontent) as (Hk2 & Hs2 & ps & Hf & Hc2).
    destruct (Q_hook _ _ _ _ Hs2 Hafter) as (Hk3 & Hs3 & Hc3).
    split; [apply (keeps_kinds_trans _ _ _ Hk1), (keeps_kinds_trans _ _ _ Hk2 Hk3)|].
    split; [exact Hs3|]. exists ps. split.
    + eapply Forall2_impl; [exact Hf|]. intros leaf c. apply stands_for_kept, Hk3.
    + rewrite Hc3, Hc2, Hc1. reflexivity.
  - rewrite (content_not_array _ _ Hna) in Hcontent.
    rewrite (leaves_not_array _ Hna).
    destruct (append_one_products _ _ _ Hna Hs1 Hcontent) as (Hk2 & Hs2 & c & Hst & Hc2).
    destruct (Q_hook _ _ _ _ Hs2 Hafter) as (Hk3 & Hs3 & Hc3).
    split; [apply (keeps_kinds_trans _ _ _ Hk1), (keeps_kinds_trans _ _ _ Hk2 Hk3)|].
    split; [exact Hs3|]. exists [c]. split.
    + constructor; [|constructor]. apply (stands_for_kept _ _ _ _ Hk3 Hst).
    + cbn [fold_left]. rewrite Hc3, Hc2, Hc1. reflexivity.
Qed.

(** The text that the engine makes for a value did not exist before. *)
Lemma append_one_fresh v m m' :
  (forall c0, v <> VNode c0) ->
  is_function (get_prop (m_heap m) v "toElement") = false ->
  append_one E v el m = Ok tt m' ->
  exists c, last (children_of (m_heap m') el) = Some c /\
            List.length (m_heap m) <= c.
Proof.
  intros Hv Hte. rewrite append_one_eq.
  assert (is_tree_node (m_heap m) v = false) as ->
    by (destruct v; try reflexivity; destruct (Hv id eq_refl)).
  intros H. apply bind_Ok_inv in H. destruct H as (r & m1 & Hprod & Happ).
  destruct (product_fresh Q (fun m => keeps_shape_refl _)
              (fun m1 m2 m3 => keeps_shape_trans _ _ _) Q_call
              v m r m1 Hv Hte Hprod) as (m0 & n & HQ & -> & ->).
  destruct (appendChild_Ok _ _ _ _ Happ)
    as (c & p & cn & Hc' & Hel & Hp & Hc & Hcont & ->).
  injection Hc' as <-. ms. exists (List.length (m_heap m0)).
  split; [apply (appendChild_node _ _ _ (m_calls m0) _ _ Hel Hp Hc Hcont)|].
  apply keeps_shape_length, HQ.
Qed.

(** The same for the content of the value, between its two hooks. *)
Lemma content_products v m m' :
  settled (m_heap m) el ->
  content E v el m = Ok tt m' ->
  exists ps, Forall2 (stands_for E (m_heap m')) (leaves v) ps /\
             children_of (m_heap m') el
             = fold_left moved ps (children_of (m_heap m) el).
Proof.
  intros Hs H. destruct (isArray v) eqn:Ha.
  - destruct v; try discriminate Ha. cbn [content leaves] in *.
    destruct (for_each_products items) with (m1 := m) (m2 := m')
      as (_ & _ & Hps); [|exact Hs|exact H|exact Hps].
    apply Forall_forall. intros x _. apply addChildren_products.
  - rewrite (content_not_array _ _ Ha) in H. rewrite (leaves_not_array _ Ha).
    destruct (append_one_products _ _ _ Ha Hs H) as (_ & _ & c & Hst & Hc).
    exists [c]. split; [constructor; [exact Hst | constructor] | exact Hc].
Qed.

End Products.

(** ** The conversion of a value without [toString] *)

Lemma method_none_not_primitive h v :
  is_nullish v = false -> method h v "toString" = None -> is_primitive v = false.
Proof.
  intros Hn Hm. destruct v; try reflexivity; try discriminate Hn;
    try discriminate Hm.
  unfold method, lookup_prop in Hm.
  rewrite key_index_named in Hm by reflexivity. discriminate Hm.
Qed.

Lemma method_heap h h' v key :
  (forall id, v <> VNode id) -> method h' v key = method h v key.
Proof.
  intros Hv. unfold method. rewrite (lookup_prop_heap h), (lookup_prop_heap h')
    by exact Hv. reflexivity.
Qed.

(** ['' + v] asks [valueOf] first, and has nothing else to ask when
    [toString] is not a function. *)
Lemma concat_empty_valueOf v h log :
  (forall id, v <> VNode id) -> is_nullish v = false ->
  method h v "toString" = None ->
  concat_empty E v (Machine h log)
  = match method h v "valueOf" with
    | Some (User f) =>
        match fn_call E f v [] h with
        | FReturn r h' =>
            if is_primitive r
            then Ok (prim_to_string r) (Machine h' (log ++ [Call f v []]))
            else Throw TypeError (Machine h' (log ++ [Call f v []]))
        | FThrow e h' => Throw e (Machine h' (log ++ [Call f v []]))
        end
    | _ => Throw TypeError (Machine h log)
    end.
Proof.
  intros Hv Hnull Hts.
  pose proof (method_none_not_primitive _ _ Hnull Hts) as Hprim.
  unfold concat_empty, to_primitive, to_primitive_with. rewrite Hprim.
  unfold bind at 1. unfold try_method at 1. unfold bind at 1.
  unfold get_heap at 1. ms.
  destruct (method h v "valueOf") as [[f|]|] eqn:Hm.
  - unfold bind at 1. unfold call_fn. ms.
    destruct (fn_call E f v [] h) as [r h'|e h']; [|reflexivity].
    destruct (is_primitive r); [reflexivity|].
    unfold try_method, bind, get_heap. ms.
    rewrite (method_heap h h' v _ Hv), Hts. reflexivity.
  - cbn [String.eqb Ascii.eqb Bool.eqb]. unfold bind at 1. unfold ret at 1.
    rewrite Hprim. unfold try_method, bind, get_heap. ms. rewrite Hts.
    reflexivity.
  - unfold try_method, bind, get_heap. ms. rewrite Hts. reflexivity.
Qed.

(** ** The exceptions that a computation ends with *)

Section Raises.

Variable P : exn -> Prop.
Hypothesis P_type : P TypeError.

Lemma raises_ret {A : Type} (a : A) : raises_only P (ret a).
Proof. intros m e m' H. discriminate H. Qed.

Lemma raises_throw {A : Type} e : P e -> raises_only P (@throw A e).
Proof. intros He m e' m' [= <- _]. exact He. Qed.

Lemma raises_bind {A B : Type} (c : M A) (k : A -> M B) :
  raises_only P c -> (forall a, raises_only P (k a)) -> raises_only P (bind c k).
Proof.
  intros Hc Hk m e m'. unfold bind.
  destruct (c m) as [a m1|e1 m1] eqn:Hcm; [apply Hk|].
  intros [= <- <-]. apply (Hc _ _ _ Hcm).
Qed.

Lemma raises_get_heap : raises_only P get_heap.
Proof. intros m e m' H. discriminate H. Qed.

Lemma raises_get_node id : raises_only P (get_node id).
Proof.
  intros m e m'. unfold get_node. destruct (m_heap m !! id); [discriminate|].
  intros [= <- _]. exact P_type.
Qed.

Lemma raises_alloc n : raises_only P (alloc n).
Proof. intros m e m' H. discriminate H. Qed.

Lemma raises_put_heap h : raises_only P (put_heap h).
Proof. intros m e m' H. discriminate H. Qed.

Lemma raises_for_each {A : Type} (body : A -> M unit) xs :
  Forall (fun x => raises_only P (body x)) xs -> raises_only P (for_each body xs).
Proof.
  induction 1 as [|x xs Hx _ IH]; [apply raises_ret|].
  rewrite for_each_cons. apply raises_bind; auto.
Qed.

Lemma raises_join_with (ts : value -> M string) xs :
  Forall (fun x => raises_only P (ts x)) xs -> raises_only P (join_with ts xs).
Proof.
  induction 1 as [|x xs Hx _ IH]; [apply raises_ret|].
  cbn [join_with]. apply raises_bind.
  - destruct (is_nullish x); [apply raises_ret | exact Hx].
  - intros s. apply raises_bind; [exact IH|]. intros ss. apply raises_ret.
Qed.

Hypothesis P_call : forall f this args, raises_only P (call_fn E f this args).

Lemma raises_try_method native v key otherwise :
  raises_only P native -> raises_only P otherwise ->
  raises_only P (try_method E native v key otherwise).
Proof.
  intros Hn Ho. unfold try_method.
  apply raises_bind; [apply raises_get_heap|]. intros h.
  destruct (method h v key) as [c|]; [|exact Ho].
  apply raises_bind.
  - destruct c; [apply P_call|]. destruct (String.eqb key "toString");
      [exact Hn | apply raises_ret].
  - intros r. destruct (is_primitive r); [apply raises_ret | exact Ho].
Qed.

Lemma raises_to_primitive_with native hint v :
  raises_only P native -> raises_only P (to_primitive_with E native hint v).
Proof.
  intros Hn. unfold to_primitive_with.
  destruct (is_primitive v); [apply raises_ret|].
  destruct hint; repeat apply raises_try_method; auto using @raises_throw.
Qed.

Lemma raises_native_toString_with ts v :
  (forall items props, v = VArr items props ->
     Forall (fun x => raises_only P (ts x)) items) ->
  raises_only P (native_toString_with E ts v).
Proof.
  intros Hts. destruct v; cbn [native_toString_with]; try apply raises_ret.
  - apply raises_bind; [apply raises_join_with; eauto|].
    intros ss. apply raises_ret.
  - apply raises_bind; [apply raises_get_node|]. intros n. apply raises_ret.
Qed.

Lemma raises_to_string v : raises_only P (to_string E v).
Proof.
  induction v as [items props IH|v Hna] using value_items_ind;
    rewrite to_string_eq;
    (apply raises_bind; [|intros p; apply raises_ret]);
    apply raises_to_primitive_with, raises_native_toString_with.
  - intros items' props' [= <- <-]. exact IH.
  - intros items props ->. discriminate Hna.
Qed.

Lemma raises_native_toString v : raises_only P (native_toString E v).
Proof.
  apply raises_native_toString_with. intros items props _.
  apply Forall_forall. intros x _. apply raises_to_string.
Qed.

Lemma raises_concat_empty v : raises_only P (concat_empty E v).
Proof.
  unfold concat_empty, to_primitive.
  apply raises_bind; [|intros p; apply raises_ret].
  apply raises_to_primitive_with, raises_native_toString.
Qed.

Lemma raises_append_hook key v el : raises_only P (append_hook E key v el).
Proof.
  unfold append_hook. destruct (truthy v); [|apply raises_ret].
  apply raises_bind; [apply raises_get_heap|]. intros h.
  destruct (get_prop h v key); try apply raises_ret.
  apply raises_bind; [apply P_call|]. intros _. apply raises_ret.
Qed.

Lemma raises_createTextNode v : raises_only P (createTextNode E v).
Proof.
  unfold createTextNode. apply raises_bind; [apply raises_to_string|].
  intros s. apply raises_alloc.
Qed.

Lemma raises_createComment v : raises_only P (createComment E v).
Proof.
  unfold createComment. apply raises_bind; [apply raises_to_string|].
  intros s. apply raises_alloc.
Qed.

Hypothesis P_hierarchy : P (DOMException "HierarchyRequestError").

Lemma raises_appendChild el child : raises_only P (appendChild el child).
Proof.
  unfold appendChild. apply raises_bind; [apply raises_get_node|].
  intros p. apply raises_bind; [apply raises_get_heap|]. intros h.
  destruct child; try (apply raises_throw; exact P_type).
  destruct (h !! id); [|apply raises_throw; exact P_type].
  destruct (negb (is_element p)); [apply raises_throw; exact P_hierarchy|].
  destruct (contains h (List.length h) id el);
    [apply raises_throw; exact P_hierarchy|].
  apply raises_put_heap.
Qed.

Lemma raises_append_one v el : raises_only P (append_one E v el).
Proof.
  unfold append_one. apply raises_bind; [apply raises_get_heap|]. intros h.
  destruct (is_tree_node h v); [apply raises_appendChild|].
  destruct (is_nullish v).
  { apply raises_bind; [apply raises_createComment|].
    intros c. apply raises_appendChild. }
  assert (raises_only P
            match method h v "toString" with
            | Some c =>
                r <- match c with
                     | User f => call_fn E f v []
                     | Native => native_toString E v
                     end ;;
                t <- createTextNode E r ;;
                appendChild el (VNode t)
            | None =>
                s <- concat_empty E v ;;
                t <- createTextNode E (VStr s) ;;
                appendChild el (VNode t)
            end) as Hrest.
  { destruct (method h v "toString") as [c|].
    - apply raises_bind.
      + destruct c; [apply P_call | apply raises_native_toString].
      + intros r. apply raises_bind; [apply raises_createTextNode|].
        intros t. apply raises_appendChild.
    - apply raises_bind; [apply raises_concat_empty|].
      intros s. apply raises_bind; [apply raises_createTextNode|].
      intros t. apply raises_appendChild. }
  destruct (get_prop h v "toElement"); try exact Hrest.
  apply raises_bind; [apply P_call|]. intros r. apply raises_appendChild.
Qed.

Lemma raises_addChildren el v : raises_only P (addChildren E v el).
Proof.
  induction v as [items props IH|v Hna] using value_items_ind;
    rewrite addChildren_eq;
    (apply raises_bind; [apply raises_append_hook|]; intros _);
    (apply raises_bind; [|intros _; apply raises_append_hook]).
  - cbn [content]. apply raises_for_each. exact IH.
  - rewrite (content_not_array _ _ Hna). apply raises_append_one.
Qed.

End Raises.

(** What [addChildren] raises was raised by a user function or is a
    refusal of the host. *)
Lemma addChildren_raises el v :
  raises_only (fun e => raised_by_user E e \/ host_refusal e) (addChildren E v el).
Proof.
  apply raises_addChildren.
  - right. left. reflexivity.
  - intros f this args m e m'. unfold call_fn.
    destruct (fn_call E f this args (m_heap m)) as [r h'|e' h'] eqn:Hf;
      [discriminate|].
    intros [= <- _]. left. exists f, this, args, (m_heap m), h'. exact Hf.
  - right. right. reflexivity.
Qed.
(** ** The properties of the specification *)



(** C4, amended: for a property bag [{class: v}] and an element: if [v]
    is an array (of strings or not), each element is converted to a string
    and, the host accepting the tokens, added to the class list, which
    keeps its former entries in place; if [v] is null or undefined nothing
    happens; otherwise [v] is not an array, it is converted to a string and
    that string becomes the whole class attribute. *)
Theorem C4_class_rules el h log n :
  h !! el = Some n -> is_element n = true ->
  (forall items props ts h1 log1 n1,
      map_m (to_string E) items (Machine h log) = Ok ts (Machine h1 log1) ->
      validate_tokens ts = None ->
      h1 !! el = Some n1 ->
      let n' := with_class
                  (String.concat " " (fold_left token_add ts (class_list n1))) n1 in
      addProps E (plain [("class", VArr items props)]) el (Machine h log)
      = Ok tt (Machine (<[el := n']> h1) log1) /\
      class_list n' = fold_left token_add ts (class_list n1) /\
      (exists added, class_list n' = class_list n1 ++ added) /\
      (forall t, In t (class_list n') <-> In t (class_list n1) \/ In t ts)) /\
  (forall ts, map_m (to_string E) (VStr <$> ts) (Machine h log)
              = Ok ts (Machine h log)) /\
  (forall v,
      is_nullish v = true ->
      addProps E (plain [("class", v)]) el (Machine h log)
      = Ok tt (Machine h log)) /\
  (forall v s h1 log1 n1,
      isArray v = false -> is_nullish v = false ->
      to_string E v (Machine h log) = Ok s (Machine h1 log1) ->
      h1 !! el = Some n1 ->
      addProps E (plain [("class", v)]) el (Machine h log)
      = Ok tt (Machine (<[el := with_class s n1]> h1) log1)).
Proof.
  intros Hel Hn. split; [|split; [|split]].
  - intros items props ts h1 log1 n1 Hm Hv H1 n'.
    assert (class_list n' = fold_left token_add ts (class_list n1)) as Hcl
      by apply (class_list_after_add _ _ Hv).
    split; [|split; [exact Hcl|split]].
    + rewrite addProps_class. cbn [isArray array_items].
      unfold classList_add, bind, get_node. ms. rewrite Hel, Hn. cbn [negb].
      rewrite Hm, Hv. ms. rewrite H1. reflexivity.
    + rewrite Hcl. generalize (class_list n1) as set. clear.
      induction ts as [|t ts IH]; intros set; cbn [fold_left].
      * exists []. rewrite app_nil_r. reflexivity.
      * destruct (IH (token_add set t)) as [added Ha]. rewrite Ha.
        unfold token_add. destruct (existsb (String.eqb t) set).
        -- exists added. reflexivity.
        -- exists (t :: added). rewrite <- app_assoc. reflexivity.
    + intros t. rewrite Hcl. apply fold_token_add_In.
  - intros ts. apply map_m_to_string_strings.
  - intros v Hv. rewrite addProps_class.
    destruct v; try discriminate Hv; reflexivity.
  - intros v s h1 log1 n1 Ha Hz Hs H1. rewrite addProps_class, Ha, Hz.
    cbn [negb]. unfold set_property, bind, get_node. ms. rewrite Hel, Hn.
    cbn [String.eqb Ascii.eqb Bool.eqb andb]. rewrite Hs. ms. rewrite H1.
    reflexivity.
Qed.



(** C7: when the processing of an argument raises a failure, the call of
    [createElement] ends with that very failure and with the machine as the
    failing step left it: the arguments after it are not processed and what
    was done before stays.  A hook, an elementable producer and a
    stringable producer that throw, and a host that refuses the tag or the
    child, are such failures. *)
Theorem C7_failure_propagates tag el :
  (forall args1 arg args2 m m1 e m2,
      createElement E tag args1 m = Ok el m1 ->
      dispatch E el arg m1 = Throw e m2 ->
      createElement E tag (args1 ++ arg :: args2) m = Throw e m2) /\
  (forall f e h log h',
      fn_call E f VUndefined [VNode el] h = FThrow e h' ->
      dispatch E el (VFun f) (Machine h log)
      = Throw e (Machine h' (log ++ [Call f VUndefined [VNode el]]))) /\
  (forall v f e h log h',
      is_tree_node h v = false -> is_nullish v = false ->
      get_prop h v "toElement" = VFun f ->
      fn_call E f v [] h = FThrow e h' ->
      append_one E v el (Machine h log)
      = Throw e (Machine h' (log ++ [Call f v []]))) /\
  (forall v f e h log h',
      is_tree_node h v = false -> is_nullish v = false ->
      is_function (get_prop h v "toElement") = false ->
      method h v "toString" = Some (User f) ->
      fn_call E f v [] h = FThrow e h' ->
      append_one E v el (Machine h log)
      = Throw e (Machine h' (log ++ [Call f v []]))) /\
  (forall v f h log r h',
      is_tree_node h v = false -> is_nullish v = false ->
      get_prop h v "toElement" = VFun f ->
      fn_call E f v [] h = FReturn r h' ->
      is_tree_node h' r = false ->
      is_Some (h' !! el) ->
      append_one E v el (Machine h log)
      = Throw TypeError (Machine h' (log ++ [Call f v []]))) /\
  (forall args m,
      tag_ok E tag = false ->
      createElement E tag args m
      = Throw (DOMException "InvalidCharacterError") m).
Proof.
  repeat split.
  - intros args1 arg args2 m m1 e m2 H1 H2.
    destruct (createElement_Ok _ _ _ _ _ H1) as (m0 & Hc & Hfe).
    rewrite createElement_eq, Hc.
    rewrite (for_each_abort _ _ _ _ _ _ _ _ Hfe H2). reflexivity.
  - intros f e h log h' Hf. rewrite dispatch_function. unfold invoke_once. ms.
    rewrite Hf. reflexivity.
  - intros v f e h log h' Hn Hz Hg Hf.
    unfold append_one, bind, get_heap. ms. rewrite Hn, Hz, Hg.
    unfold call_fn. ms. rewrite Hf. reflexivity.
  - intros v f e h log h' Hn Hz Hg Hm Hf.
    unfold append_one, bind, get_heap. ms. rewrite Hn, Hz, Hm.
    destruct (get_prop h v "toElement"); try discriminate Hg;
      unfold call_fn; ms; rewrite Hf; reflexivity.
  - intros v f h log r h' Hn Hz Hg Hf Hr [p Hp].
    unfold append_one, bind, get_heap. ms. rewrite Hn, Hz, Hg.
    unfold call_fn. ms. rewrite Hf.
    unfold appendChild, bind, get_node, get_heap. ms. rewrite Hp. ms.
    destruct r; try reflexivity. cbn [is_tree_node] in Hr.
    apply bool_decide_eq_false in Hr.
    destruct (h' !! id) eqn:Hid; [|reflexivity].
    destruct Hr. eauto.
  - intros args m0 Ht. unfold createElement, bind, document_createElement.
    rewrite Ht. reflexivity.
Qed.


(** C9, amended: a value of [style], [dataset] or [aria] that is not a
    node and has no enumerable keys (null, undefined, a boolean, a number,
    a function, an empty string, array or object) is iterated zero times:
    nothing is raised and the machine, hence the node, stays as it was. *)
Theorem C9_no_enumerable_key_no_change el key v m :
  In key ["style"; "dataset"; "aria"] ->
  (forall id, v <> VNode id) ->
  for_in_keys [] v = [] ->
  addProps E (plain [(key, v)]) el m = Ok tt m.
Proof.
  intros Hk Hn Hv0.
  assert (for_in_keys (m_heap m) v = []) as Hv.
  { rewrite <- Hv0. destruct v; try reflexivity. destruct (Hn id eq_refl). }
  rewrite addProps_eq. cbn [plain for_in_keys fmap list_fmap fst].
  rewrite for_each_cons. cbn [for_each].
  cbn [In] in Hk. destruct Hk as [<-|[<-|[<-|[]]]];
    unfold addProp; cbn [String.eqb Ascii.eqb Bool.eqb];
    unfold bind, prop, get_heap, ret, for_in; cbn; rewrite Hv; reflexivity.
Qed.

(** C10: an argument whose tag is [[object Object]] is handed to
    [addProps], whatever methods it has; an object of that tag, whether a
    literal or an instance of a class and whether or not it has [toElement],
    [toString] or append hooks, thus has its enumerable keys assigned as
    properties of the node: when none of the keys is special-cased, the
    processing of the argument is the assignment [el[k] = arg[k]] for each
    enumerable key [k] in order, and nothing else; and when the keys name
    properties of the node's own, which the host does not define, each ends
    up holding the value, nothing is called and no child is appended. *)
Theorem C10_object_tag_goes_to_addProps el arg m :
  object_toString E (m_heap m) arg = "[object Object]" ->
  dispatch E el arg m = addProps E arg el m /\
  (forall h proto fields methods,
      object_toString E h (VObj "Object" proto fields methods)
      = "[object Object]") /\
  (forall proto fields methods,
      arg = VObj "Object" proto fields methods ->
      Forall (fun k => special k = false) fields.*1 ->
      dispatch E el arg m
      = for_each (fun k => set_property E el k (get_prop [] arg k)) fields.*1 m) /\
  (forall proto fields methods n,
      arg = VObj "Object" proto fields methods ->
      m_heap m !! el = Some n ->
      Forall (fun k => special k = false /\ k <> "className"
                       /\ host_key E (n_kind n) k = None) fields.*1 ->
      dispatch E el arg m
      = Ok tt (Machine
                 (<[el := with_slots
                            (fold_left
                               (fun s k => assoc_set k (get_prop [] arg k) s)
                               fields.*1 (n_slots n)) n]> (m_heap m))
                 (m_calls m))).
Proof.
  intros Htag. split; [apply (dispatch_object _ _ _ Htag)|].
  split; [reflexivity|]. split.
  { intros proto fields methods -> Hks.
    rewrite (dispatch_object _ _ _ Htag), addProps_eq. cbn [for_in_keys].
    apply for_each_ext. intros k Hk m0. apply addProp_assigns; [discriminate|].
    rewrite Forall_forall in Hks. apply Hks, list_elem_of_In, Hk. }
  intros proto fields methods n -> Hel Hks.
  rewrite (dispatch_object _ _ _ Htag), addProps_eq. cbn [for_in_keys].
  destruct m as [h log]. ms.
  apply for_each_general_props; [discriminate | exact Hks | exact Hel].
Qed.

End Properties.


(** ** The properties at concrete inputs *)


(** The functions of the sample environment create nodes and write
    properties of nodes, and leave every node at its place. *)
Lemma sample_call_keeps_shape f this args h :
  keeps_shape h (fn_heap (sample_call f this args h)).
Proof.
  assert (forall key, keeps_shape h (fn_heap (record_count key args h))) as Hrc.
  { intros key. unfold record_count.
    destruct args as [|[| | | | | | | |el] args]; try apply keeps_shape_refl.
    destruct (h !! el) as [n|] eqn:Hel; [|apply keeps_shape_refl].
    cbn [fn_heap]. intros id x Hx.
    rewrite (insert_lookup _ _ _ _ _ Hx). eexists. split; [reflexivity|].
    destruct (Nat.eqb_spec el id) as [->|_]; [|reflexivity].
    rewrite Hel in Hx. injection Hx as <-. reflexivity. }
  destruct f as [|[|[|[|[|[|f]]]]]]; cbn [sample_call fn_heap];
    try apply keeps_shape_refl; try apply Hrc.
  apply keeps_shape_grow.
Qed.

Lemma settled_without_children h el p :
  h !! el = Some p -> is_element p = true -> n_children p = [] -> settled h el.
Proof.
  intros Hel Hp Hc. split; [eauto|]. unfold children_of. rewrite Hel, Hc.
  intros c [].
Qed.



Lemma C4_witness :
  [with_class "x" div] !! 0 = Some (with_class "x" div) /\
  is_element (with_class "x" div) = true /\
  addProps sample_env (plain [("class", VArr [VStr "a"; VStr "x"; VStr "b"] [])]) 0
    (Machine [with_class "x" div] [])
  = Ok tt (Machine [with_class "x a b" div] []).
Proof.
  split; [reflexivity|]. split; [reflexivity|].
  destruct (C4_class_rules sample_env 0 [with_class "x" div] [] (with_class "x" div)
              eq_refl eq_refl) as (Harr & _).
  apply (Harr [VStr "a"; VStr "x"; VStr "b"] [] ["a"; "x"; "b"]
              [with_class "x" div] [] (with_class "x" div) eq_refl eq_refl eq_refl).
Defined.

(** C4 as stated fails for an array whose elements are not strings: with
    [{class: [1, 2]}] the value is not an array of strings nor null, its
    conversion to a string is "1,2", yet the class attribute becomes "1 2",
    the two elements having been added to the class list, and not "1,2" as
    the assignment of the converted value would make it.  And an array of
    strings is not always added: the host refuses the token "a b". *)
Lemma C4_array_of_numbers_counterexample :
  forallb is_string (array_items one_two) = false /\
  is_nullish one_two = false /\
  to_string sample_env one_two one_div = Ok "1,2" one_div /\
  set_property sample_env 0 "className" one_two one_div
  = Ok tt (Machine [with_class "1,2" div] []) /\
  addProps sample_env (plain [("class", one_two)]) 0 one_div
  = Ok tt (Machine [with_class "1 2" div] []) /\
  addProps sample_env (plain [("class", VArr [VStr "a b"] [])]) 0 one_div
  = Throw (DOMException "InvalidCharacterError") one_div.
Proof. repeat split; reflexivity. Qed.

(** C5 at the hooks of the tests: the before-append hook finds the parent
    without child, the after-append hook finds it with the child, and each
    is in the call log once. *)
Example C5_hooks_see_the_parent :
  addChildren sample_env (VNode 1) 0 div_and_span
  = Ok tt
      (Machine
         [Node (KElement "div") None [1] EmptyString [] [] []
               [("before", VNum 0); ("after", VNum 1)];
          with_parent (Some 0) hooked_span]
         [Call 4 (VNode 1) [VNode 0]; Call 5 (VNode 1) [VNode 0]]).
Proof. reflexivity. Qed.





Lemma C7_witness :
  createElement sample_env "div" [VStr "a"] (Machine [] [])
  = Ok 0 (Machine [with_children [1] div; child_of 0 (KText "a")] []) /\
  dispatch sample_env 0 (VFun 3)
    (Machine [with_children [1] div; child_of 0 (KText "a")] [])
  = Throw (Thrown (VStr "boom"))
      (Machine [with_children [1] div; child_of 0 (KText "a")]
         [Call 3 VUndefined [VNode 0]]) /\
  createElement sample_env "div" [VStr "a"; VFun 3; VStr "b"] (Machine [] [])
  = Throw (Thrown (VStr "boom"))
      (Machine [with_children [1] div; child_of 0 (KText "a")]
         [Call 3 VUndefined [VNode 0]]).
Proof.
  split; [reflexivity|]. split; [reflexivity|].
  destruct (C7_failure_propagates sample_env "div" 0) as (Hmain & _).
  apply (Hmain [VStr "a"] (VFun 3) [VStr "b"] (Machine [] []) _ _ _
           eq_refl eq_refl).
Defined.

(** The setters of the host of the examples write attributes. *)
Lemma sample_set_keeps_props el key k p h x :
  prop_is el key x h -> prop_is el key x (fn_heap (sample_set el k p h)).
Proof.
  unfold sample_set, prop_is. rewrite !lookup_prop_node.
  destruct (String.eqb k "id" || String.eqb k "title"); [|intros H; exact H].
  destruct (h !! el) as [n|] eqn:Hel; cbn [fn_heap]; [|rewrite Hel; intros H; exact H].
  rewrite list_lookup_insert_eq by apply (lookup_lt_Some _ _ _ Hel).
  intros H. exact H.
Qed.



(** A property that the host defines holds what its setter makes of the
    assigned value: on a host that reflects [id] as an attribute,
    [{id: 5}] leaves the attribute "5", a string, and no property of the
    node's own; the assignment to [tagName], which has no setter, raises a
    [TypeError]; and [{style: {width: 5}}] leaves the style as it was,
    where [{style: {width: '5px'}}] sets the width. *)
Example host_defined_properties :
  addProps sample_env (plain [("id", VNum 5)]) 0 one_div
  = Ok tt (Machine [with_attrs [("id", "5")] div] []) /\
  addProps sample_env (plain [("tagName", VStr "p")]) 0 one_div
  = Throw TypeError one_div /\
  addProps sample_env (plain [("style", plain [("width", VNum 5)])]) 0 one_div
  = Ok tt one_div /\
  addProps sample_env (plain [("style", plain [("width", VStr "5px")])]) 0
    one_div
  = Ok tt (Machine [with_style [("width", VStr "5px")] div] []).
Proof. repeat split; reflexivity. Qed.

Lemma C9_witness :
  In "aria" ["style"; "dataset"; "aria"] /\
  for_in_keys [] (VNum 3) = [] /\
  addProps sample_env (plain [("aria", VNum 3)]) 0 one_div = Ok tt one_div.
Proof.
  split; [right; right; left; reflexivity|]. split; [reflexivity|].
  apply (C9_no_enumerable_key_no_change sample_env 0 "aria" (VNum 3) one_div).
  - right. right. left. reflexivity.
  - discriminate.
  - reflexivity.
Defined.

(** C9 as stated fails for a string: [{aria: 'ab'}] is iterated over the
    indices of the string and sets the attributes [aria-0] and [aria-1]. *)
Lemma C9_string_counterexample :
  addProps sample_env (plain [("aria", VStr "ab")]) 0 one_div
  = Ok tt (Machine [with_attrs [("aria-0", "a"); ("aria-1", "b")] div] []) /\
  addProps sample_env (plain [("aria", VStr "ab")]) 0 one_div <> Ok tt one_div.
Proof. split; [reflexivity | discriminate]. Qed.

Lemma C10_witness :
  object_toString sample_env (m_heap one_div) labelled_widget = "[object Object]" /\
  dispatch sample_env 0 labelled_widget one_div
  = Ok tt (Machine [with_slots [("label", VStr "x")] div] []).
Proof.
  split; [reflexivity|].
  destruct (C10_object_tag_goes_to_addProps sample_env 0 labelled_widget one_div
              eq_refl) as (_ & _ & _ & Hassign).
  apply (Hassign true [("label", VStr "x")] [("toElement", VFun 1)] div
           eq_refl eq_refl).
  repeat constructor; discriminate.
Defined.

(** ** The scenarios of the specification *)

Example scenario_1 :
  createElement sample_env "div" [plain [("id", VStr "main")]] (Machine [] [])
  = Ok 0 (Machine [with_attrs [("id", "main")] div] []).
Proof. reflexivity. Qed.

Example scenario_2 :
  createElement sample_env "span" [plain [("class", VArr [VStr "a"; VStr "b"] [])]]
    (Machine [] [])
  = Ok 0 (Machine [with_class "a b" (new_node (KElement "span"))] []).
Proof. reflexivity. Qed.

Example scenario_3 :
  createElement sample_env "div"
    [VFun 0; VStr "Hello"; plain [("id", VStr "x")]; VNode 0]
    (Machine [new_node (KElement "span")] [])
  = Ok 1
      (Machine
         [with_parent (Some 1) (new_node (KElement "span"));
          Node (KElement "div") None [2; 0] EmptyString [("id", "x")] [] [] [];
          child_of 1 (KText "Hello")]
         [Call 0 VUndefined [VNode 1]]).
Proof. reflexivity. Qed.

Example scenario_4 :
  createElement sample_env "div" [VArr [VNode 0; VUndefined] []]
    (Machine [new_node (KElement "span")] [])
  = Ok 1
      (Machine
         [with_parent (Some 1) (new_node (KElement "span"));
          with_children [0; 2] div;
          child_of 1 (KComment "undefined")]
         []).
Proof. reflexivity. Qed.

(** * Further properties of the engine *)

Section Further.

Variable E : env.

(** ** Loops *)

Lemma for_each_fmap {A B : Type} (f : A -> B) (body : B -> M unit) xs m :
  for_each body (f <$> xs) m = for_each (fun x => body (f x)) xs m.
Proof.
  revert m. induction xs as [|x xs IH]; intros m; [reflexivity|].
  rewrite fmap_cons, !for_each_cons. unfold bind.
  destruct (body (f x) m) as [[] m1|e m1]; [apply IH | reflexivity].
Qed.

(** ** The tag shortcuts *)

(** X1: every shortcut of [index.js] is [createElement] with its tag bound;
    the exported name is the tag for all of them but [v], which creates a
    [var] element; the names are distinct, and there is no export named
    [var]. *)
Theorem shortcuts_bind_their_tag :
  NoDup shortcuts.*1 /\
  (forall name tag,
      In (name, tag) shortcuts ->
      shortcut E name = Some (createElement E tag) /\
      (tag = name \/ name = "v" /\ tag = "var")) /\
  shortcut E "v" = Some (createElement E "var") /\
  shortcut E "var" = None.
Proof.
  assert (NoDup shortcuts.*1) as Hnd.
  { apply (bool_decide_unpack _). vm_compute. reflexivity. }
  split; [exact Hnd|]. split; [|split; reflexivity].
  intros name tag Hin.
  assert (assoc_get name shortcuts = Some tag) as Hget.
  { revert Hnd Hin. generalize shortcuts. clear.
    induction l as [|[k t] l IH]; intros Hnd Hin; [destruct Hin|].
    cbn [assoc_get]. cbn in Hnd. apply NoDup_cons in Hnd as [Hk Hnd].
    destruct Hin as [[= -> ->]|Hin].
    - rewrite String.eqb_refl. reflexivity.
    - destruct (String.eqb_spec name k) as [->|_]; [|apply IH; assumption].
      destruct Hk. apply list_elem_of_In, (in_map fst _ _ Hin). }
  split; [unfold shortcut; rewrite Hget; reflexivity|].
  assert (forallb (fun p => String.eqb p.2 p.1
                            || String.eqb p.1 "v" && String.eqb p.2 "var")
                  shortcuts = true) as Hall by (vm_compute; reflexivity).
  rewrite forallb_forall in Hall. specialize (Hall _ Hin).
  cbn [fst snd] in Hall.
  apply orb_true_iff in Hall as [H|H].
  - left. apply String.eqb_eq, H.
  - right. apply andb_true_iff in H as [H1 H2].
    split; apply String.eqb_eq; assumption.
Qed.

(** ** Arguments of [createElement] *)

Lemma length_append a b :
  String.length (a +:+ b) = String.length a + String.length b.
Proof.
  induction a as [|x a IH]; [reflexivity|].
  rewrite append_cons. cbn [String.length]. rewrite IH. reflexivity.
Qed.

Lemma append_inj_r c : forall a b, a +:+ c = b +:+ c -> a = b.
Proof.
  assert (forall a x, c <> String x a +:+ c) as Hlen.
  { intros a x H. apply (f_equal String.length) in H.
    rewrite append_cons in H. cbn [String.length] in H.
    rewrite length_append in H. lia. }
  induction a as [|x a IH]; intros [|y b] H.
  - reflexivity.
  - destruct (Hlen _ _ H).
  - symmetry in H. destruct (Hlen _ _ H).
  - rewrite !append_cons in H. injection H as -> H. f_equal. apply IH, H.
Qed.

Lemma object_tag_inj s t :
  "[object " +:+ s +:+ "]" = "[object " +:+ t +:+ "]" -> s = t.
Proof.
  intros H. repeat (rewrite append_cons in H; injection H as H).
  change (s +:+ "]" = t +:+ "]") in H. apply append_inj_r in H. exact H.
Qed.

Lemma child_arg_tag h v :
  child_arg v = true ->
  object_toString E h v <> "[object Object]" /\ is_function v = false.
Proof.
  intros Hc. split; [|destruct v; try reflexivity; discriminate Hc].
  intros H.
  change "[object Object]" with ("[object " +:+ "Object" +:+ "]") in H.
  unfold object_toString in H. apply object_tag_inj in H.
  destruct v; try discriminate H.
  - cbn [child_arg] in Hc. subst tag. discriminate Hc.
  - destruct (h !! id) as [n|]; [|discriminate H].
    destruct (n_kind n); discriminate H.
Qed.

(** X2: building an element in two steps: [createElement] applied to the
    arguments [args1] followed by [args2] is [createElement] applied to
    [args1], followed by the processing of [args2] on the element it
    returned; and a failure of the first step is the failure of the whole. *)
Theorem createElement_in_two_steps tag args1 args2 m :
  createElement E tag (args1 ++ args2) m
  = (el <- createElement E tag args1 ;;
     for_each (dispatch E el) args2 ;;;
     ret el) m.
Proof.
  rewrite createElement_app. unfold bind, ret.
  destruct (createElement E tag args1 m) as [el m1|e m1]; reflexivity.
Qed.

Lemma dispatch_array el items props m :
  quiet (VArr items props) = true ->
  dispatch E el (VArr items props) m
  = for_each (fun child => addChildren E child el) items m.
Proof.
  intros Hq. rewrite dispatch_child; [|discriminate|reflexivity].
  destruct (quiet_hooks (VArr items props)) with (h := m_heap m) as [_ _];
    [discriminate|exact Hq|].
  rewrite addChildren_eq. destruct m as [h log].
  unfold bind at 1. rewrite append_hook_none
    by (apply (quiet_hooks (VArr items props) h); [discriminate|exact Hq]).
  unfold bind at 1. cbn [content].
  destruct (for_each _ items (Machine h log)) as [[] [h1 log1]|e m1];
    [|reflexivity].
  apply append_hook_none.
  apply (quiet_hooks (VArr items props) h1); [discriminate|exact Hq].
Qed.

(** X3: children given in an array are the children given one by one: for an
    array without append hooks whose elements are children (neither
    functions nor objects of tag [[object Object]]), [createElement] with
    the array among its arguments is [createElement] with the elements in
    its place. *)
Theorem array_of_children_is_spread tag args1 items props args2 m :
  quiet (VArr items props) = true ->
  forallb child_arg items = true ->
  createElement E tag (args1 ++ VArr items props :: args2) m
  = createElement E tag (args1 ++ items ++ args2) m.
Proof.
  intros Hq Hall.
  assert (forall el m1, dispatch E el (VArr items props) m1
                        = for_each (dispatch E el) items m1) as Hd.
  { intros el m1. rewrite dispatch_array by exact Hq.
    apply for_each_ext. intros x Hx m2. symmetry.
    rewrite forallb_forall in Hall.
    destruct (child_arg_tag (m_heap m2) x (Hall x Hx)) as [Ht Hf].
    apply dispatch_child; assumption. }
  rewrite !createElement_eq.
  destruct (document_createElement E tag m) as [el m0|e m0]; [|reflexivity].
  rewrite !for_each_app, for_each_cons. unfold bind.
  destruct (for_each (dispatch E el) args1 m0) as [[] m1|e m1]; [|reflexivity].
  rewrite Hd, for_each_app. unfold bind.
  destruct (for_each (dispatch E el) items m1) as [[] m2|e m2]; reflexivity.
Qed.

Lemma invoke_once_log f v el m :
  match invoke_once E f v el m with
  | Ok _ m' | Throw _ m' => m_calls m' = m_calls m ++ [Call f v [VNode el]]
  end.
Proof.
  unfold invoke_once.
  destruct (fn_call E f v [VNode el] (m_heap m)); reflexivity.
Qed.

Lemma hooks_log el fs : forall m,
  match for_each (dispatch E el) (VFun <$> fs) m with
  | Ok _ m' => m_calls m' = m_calls m ++ (hook_call el <$> fs)
  | Throw _ m' =>
      exists pre f post,
        fs = pre ++ f :: post /\
        m_calls m' = m_calls m ++ (hook_call el <$> pre ++ [f])
  end.
Proof.
  induction fs as [|f fs IH]; intros m.
  - cbn. rewrite app_nil_r. reflexivity.
  - rewrite fmap_cons, for_each_cons. unfold bind.
    rewrite dispatch_function.
    pose proof (invoke_once_log f VUndefined el m) as Hlog.
    destruct (invoke_once E f VUndefined el m) as [[] m1|e m1].
    + specialize (IH m1).
      destruct (for_each (dispatch E el) (VFun <$> fs) m1) as [[] m2|e m2].
      * rewrite IH, Hlog, <- app_assoc. reflexivity.
      * destruct IH as (pre & g & post & -> & IH).
        exists (f :: pre), g, post. split; [reflexivity|].
        rewrite IH, Hlog, <- app_assoc. reflexivity.
    + exists [], f, fs. split; [reflexivity|]. exact Hlog.
Qed.

(** X4: hooks given as arguments: when all the arguments of [createElement]
    are functions, each is called once, in the order of the arguments, with
    [this] undefined and the new element as only argument, and nothing else
    is called.  When a hook throws, the hooks before it and the hook itself
    have been called, and none after it. *)
Theorem hooks_are_called_once_in_order tag fs m :
  tag_ok E tag = true ->
  let el := List.length (m_heap m) in
  match createElement E tag (VFun <$> fs) m with
  | Ok r m' => r = el /\ m_calls m' = m_calls m ++ (hook_call el <$> fs)
  | Throw _ m' =>
      exists pre f post,
        fs = pre ++ f :: post /\
        m_calls m' = m_calls m ++ (hook_call el <$> pre ++ [f])
  end.
Proof.
  intros Htag el. rewrite createElement_eq.
  unfold document_createElement. rewrite Htag. unfold alloc. fold el.
  pose proof (hooks_log el fs
                (Machine (m_heap m ++ [new_node (KElement tag)]) (m_calls m)))
    as Hlog.
  destruct (for_each (dispatch E el) (VFun <$> fs) _) as [[] m1|e m1].
  - split; [reflexivity | exact Hlog].
  - exact Hlog.
Qed.

(** ** An existing node as argument *)

Lemma closed_node h i n :
  closed h = true -> h !! i = Some n ->
  Forall (fun c => c < List.length h) (n_children n) /\
  (forall p, n_parent n = Some p -> p < List.length h).
Proof.
  intros Hcl Hi. unfold closed in Hcl. rewrite forallb_forall in Hcl.
  specialize (Hcl n). apply andb_true_iff in Hcl as [Hc Hp].
  2:{ apply list_elem_of_In, (list_elem_of_lookup_2 _ _ _ Hi). }
  split.
  - apply List.Forall_forall. intros c Hin. rewrite forallb_forall in Hc.
    apply Nat.ltb_lt, Hc, Hin.
  - intros p Hpar. rewrite Hpar in Hp. apply Nat.ltb_lt, Hp.
Qed.

Lemma contains_fresh h x :
  closed h = true ->
  forall fuel r, r < List.length h ->
    contains (h ++ [x]) fuel r (List.length h) = false.
Proof.
  intros Hcl. induction fuel as [|fuel IH]; intros r Hr; cbn [contains].
  - rewrite orb_false_r. apply Nat.eqb_neq. lia.
  - apply orb_false_iff. split; [apply Nat.eqb_neq; lia|].
    rewrite lookup_app_l by exact Hr.
    destruct (h !! r) as [n|] eqn:Hn; [|reflexivity].
    destruct (closed_node _ _ _ Hcl Hn) as [Hc _].
    induction Hc as [|c cs Hc _ IHc]; [reflexivity|].
    cbn [existsb]. rewrite (IH c Hc). exact IHc.
Qed.

(** X5: an existing node as the only argument: for a tag that the host
    accepts and a node [c] without append hooks, in a heap whose nodes name
    only nodes of the heap, [createElement] returns a new element whose only
    child is [c]; [c] has the new element as parent and is otherwise as it
    was; the former parent of [c] has lost [c] from its children; every
    other node is as it was, and nothing is called. *)
Theorem created_element_adopts_node tag c cn h log :
  tag_ok E tag = true ->
  closed h = true ->
  h !! c = Some cn ->
  is_function (get_prop h (VNode c) "onbeforeappend") = false ->
  is_function (get_prop h (VNode c) "onappend") = false ->
  let el := List.length h in
  exists h',
    createElement E tag [VNode c] (Machine h log) = Ok el (Machine h' log) /\
    List.length h' = S (List.length h) /\
    h' !! el = Some (with_children [c] (new_node (KElement tag))) /\
    h' !! c = Some (with_parent (Some el) cn) /\
    (forall p pn,
        n_parent cn = Some p -> p <> c -> h !! p = Some pn ->
        h' !! p = Some (with_children (remove_id c (n_children pn)) pn)) /\
    (forall i n,
        i <> c -> n_parent cn <> Some i -> h !! i = Some n -> h' !! i = Some n).
Proof.
  intros Htag Hcl Hc Hb Ha el.
  pose proof (lookup_lt_Some _ _ _ Hc) as Hlt.
  set (h0 := h ++ [new_node (KElement tag)]).
  assert (h0 !! c = Some cn) as Hc0 by (apply lookup_app_l_Some, Hc).
  assert (h0 !! el = Some (new_node (KElement tag))) as Hel0
    by apply list_lookup_middle, eq_refl.
  assert (el <> c) as Hne by (unfold el; lia).
  assert (List.length h0 = S (List.length h)) as Hlen0
    by (unfold h0; rewrite length_app; cbn; lia).
  exists (attach el c (detach c h0)).
  assert (contains h0 (List.length h0) c el = false) as Hcont
    by (apply contains_fresh; assumption).
  destruct (appendChild_node el c h0 log _ cn Hel0 eq_refl Hc0 Hcont)
    as [Happ _].
  (* the heap after the detachment *)
  assert (exists par, detach c h0 !! c = Some (with_parent par cn))
    as [par Hdc].
  { unfold detach. rewrite Hc0. destruct (n_parent cn) as [q|] eqn:Hq.
    - exists None.
      destruct (h0 !! q); apply list_lookup_insert_eq;
        rewrite ?length_insert; lia.
    - exists None. rewrite Hc0. destruct cn; cbn in *. rewrite Hq.
      reflexivity. }
  assert (detach c h0 !! el = Some (new_node (KElement tag))) as Hde.
  { unfold detach. rewrite Hc0. destruct (n_parent cn) as [q|] eqn:Hq;
      [|exact Hel0].
    destruct (closed_node _ _ _ Hcl Hc) as [_ Hpar]. specialize (Hpar q Hq).
    destruct (h0 !! q); rewrite !list_lookup_insert_ne by (unfold el; lia);
      exact Hel0. }
  split; [|split; [|split; [|split; [|split]]]].
  - rewrite createElement_eq. unfold document_createElement. rewrite Htag.
    unfold alloc. ms. fold el h0. rewrite for_each_cons, bind_ret_tt.
    rewrite dispatch_child; [| |reflexivity].
    + rewrite addChildren_eq. unfold bind at 1.
      rewrite append_hook_none.
      2:{ unfold get_prop, lookup_prop. rewrite Hc0.
          unfold get_prop, lookup_prop in Hb. rewrite Hc in Hb. exact Hb. }
      unfold bind. cbn [content]. unfold append_one, bind, get_heap. ms.
      cbn [is_tree_node]. rewrite Hc0. cbn [bool_decide decide_rel].
      rewrite bool_decide_eq_true_2 by eauto.
      rewrite Happ. rewrite append_hook_none; [reflexivity|].
      unfold attach. rewrite Hde, Hdc.
      unfold get_prop, lookup_prop.
      rewrite list_lookup_insert_eq
        by (rewrite length_insert, detach_length; lia).
      unfold get_prop, lookup_prop in Ha. rewrite Hc in Ha.
      destruct cn; exact Ha.
    + ms. intros H. destruct (child_arg_tag h0 (VNode c) eq_refl) as [Ht _].
      exact (Ht H).
  - unfold attach. rewrite Hde, Hdc, !length_insert, detach_length. exact Hlen0.
  - unfold attach. rewrite Hde, Hdc.
    rewrite list_lookup_insert_ne by (unfold el; lia).
    apply list_lookup_insert_eq. rewrite detach_length. lia.
  - unfold attach. rewrite Hde, Hdc.
    rewrite list_lookup_insert_eq
      by (rewrite length_insert, detach_length; lia).
    reflexivity.
  - intros p pn Hp Hpc Hpn.
    pose proof (lookup_lt_Some _ _ _ Hpn) as Hplt.
    unfold attach. rewrite Hde, Hdc.
    rewrite !list_lookup_insert_ne by (unfold el; lia || congruence).
    assert (h0 !! p = Some pn) as Hp0 by apply lookup_app_l_Some, Hpn.
    unfold detach. rewrite Hc0, Hp, Hp0.
    rewrite list_lookup_insert_ne by congruence.
    apply list_lookup_insert_eq. rewrite Hlen0. lia.
  - intros i n Hic Hpi Hi.
    pose proof (lookup_lt_Some _ _ _ Hi) as Hilt.
    unfold attach. rewrite Hde, Hdc.
    rewrite !list_lookup_insert_ne by (unfold el; lia || congruence).
    unfold detach. rewrite Hc0.
    destruct (n_parent cn) as [q|] eqn:Hq;
      [|apply lookup_app_l_Some, Hi].
    destruct (h0 !! q);
      rewrite !list_lookup_insert_ne by congruence;
      apply lookup_app_l_Some, Hi.
Qed.

(** ** Reading a property bag *)

(** The read of a property as the first step of a computation. *)
Lemma prop_read {A : Type} props key (k : value -> M A) m :
  (v <- prop props key ;; k v) m = k (get_prop (m_heap m) props key) m.
Proof. reflexivity. Qed.

Lemma get_prop_plain h fields k :
  get_prop h (plain fields) k = default VUndefined (assoc_get k fields).
Proof.
  unfold get_prop, plain, lookup_prop. destruct (assoc_get k fields); reflexivity.
Qed.

Lemma assoc_get_In {A : Type} k (l : list (string * A)) :
  In k l.*1 -> exists a, assoc_get k l = Some a.
Proof.
  induction l as [|[k' a] l IH]; intros H; [destruct H|].
  cbn [assoc_get]. destruct (String.eqb_spec k k') as [->|Hne]; [eauto|].
  destruct H as [H|H]; [cbn in H; congruence | exact (IH H)].
Qed.

Lemma addProps_single k v el m :
  addProps E (plain [(k, v)]) el m = addProp E (plain [(k, v)]) el k m.
Proof.
  rewrite addProps_eq. cbn [plain for_in_keys fmap list_fmap fst].
  rewrite for_each_cons. cbn [for_each]. apply bind_ret_tt.
Qed.

(** The body of the loop depends on the bag through the value read under
    the key. *)
Lemma addProp_ext P P' el k m :
  get_prop (m_heap m) P k = get_prop (m_heap m) P' k ->
  addProp E P el k m = addProp E P' el k m.
Proof.
  intros Hget. unfold addProp.
  repeat match goal with
         | |- context [String.eqb k ?lit] =>
             destruct (String.eqb_spec k lit) as [->|?];
             [rewrite !prop_read, Hget; reflexivity|]
         end.
  rewrite !prop_read, Hget. reflexivity.
Qed.

(** An alias does what the key of the property does. *)
Lemma addProp_alias P P' el k m :
  get_prop (m_heap m) P k = get_prop (m_heap m) P' (canonical k) ->
  addProp E P el k m = addProp E P' el (canonical k) m.
Proof.
  intros Hget. unfold canonical in *.
  destruct (String.eqb_spec k "for") as [->|Hfor].
  { unfold addProp. cbn [String.eqb Ascii.eqb Bool.eqb].
    rewrite !prop_read, Hget. reflexivity. }
  destruct (String.eqb_spec k "tabindex") as [->|Htab].
  { unfold addProp. cbn [String.eqb Ascii.eqb Bool.eqb].
    rewrite !prop_read, Hget. reflexivity. }
  apply addProp_ext, Hget.
Qed.

Lemma assoc_get_unalias fields : forall k,
  NoDup (canonical <$> fields.*1) -> In k fields.*1 ->
  assoc_get (canonical k) (unalias fields) = assoc_get k fields.
Proof.
  induction fields as [|[k0 v0] fields IH]; intros k Hnd Hin; [destruct Hin|].
  cbn in Hnd. apply NoDup_cons in Hnd as [Hk0 Hnd].
  cbn [unalias fmap list_fmap assoc_get fst snd].
  destruct (String.eqb_spec k k0) as [->|Hne].
  - rewrite String.eqb_refl. reflexivity.
  - destruct Hin as [Hin|Hin]; [cbn in Hin; congruence|].
    destruct (String.eqb_spec (canonical k) (canonical k0)) as [Heq|_].
    + destruct Hk0. rewrite <- Heq. apply list_elem_of_fmap_2, list_elem_of_In, Hin.
    + apply (IH k Hnd Hin).
Qed.

(** X6: the aliases: a bag that names a property by its alias, [for] for
    [htmlFor] and [tabindex] for [tabIndex], does what the bag with the
    names of the properties does, provided that the bag does not hold both
    an alias and its property. *)
Theorem aliases_stand_for_their_property fields el m :
  NoDup (canonical <$> fields.*1) ->
  addProps E (plain fields) el m = addProps E (plain (unalias fields)) el m.
Proof.
  intros Hnd. rewrite !addProps_eq. cbn [plain for_in_keys].
  assert ((unalias fields).*1 = (canonical <$> (fields.*1))) as ->.
  { induction fields as [|[k v] fs IH]; [reflexivity|].
    cbn. f_equal. apply IH. cbn in Hnd. apply NoDup_cons in Hnd. apply Hnd. }
  rewrite (for_each_fmap canonical). apply for_each_ext. intros k Hk m1.
  apply addProp_alias.
  rewrite !get_prop_plain, assoc_get_unalias by assumption. reflexivity.
Qed.

(** X7: only the enumerable properties of a bag count: whatever the tag, the
    prototype and the methods of an object, [addProps] does with it what it
    does with the plain object of its enumerable properties. *)
Theorem addProps_reads_enumerable_only tag proto fields methods el m :
  addProps E (VObj tag proto fields methods) el m
  = addProps E (plain fields) el m.
Proof.
  rewrite !addProps_eq. cbn [plain for_in_keys].
  apply for_each_ext. intros k Hk m1.
  apply addProp_ext. destruct (assoc_get_In _ _ Hk) as [a Ha].
  unfold get_prop, plain, lookup_prop. rewrite Ha. reflexivity.
Qed.

(** ** Class arrays and class strings *)

Lemma classList_add_strings el ts h log n :
  h !! el = Some n -> is_element n = true -> validate_tokens ts = None ->
  classList_add E el (VStr <$> ts) (Machine h log)
  = Ok tt (Machine
             (<[el := with_class
                        (String.concat " " (fold_left token_add ts (class_list n)))
                        n]> h) log).
Proof.
  intros Hel Hn Hv. unfold classList_add. unfold bind at 1. unfold get_node at 1.
  ms. rewrite Hel, Hn. cbn [negb]. unfold bind at 1.
  rewrite map_m_to_string_strings, Hv. unfold bind, get_node. ms. rewrite Hel.
  reflexivity.
Qed.

Lemma validate_tokens_app ts1 ts2 :
  validate_tokens ts1 = None -> validate_tokens ts2 = None ->
  validate_tokens (ts1 ++ ts2) = None.
Proof.
  intros H1 H2. induction ts1 as [|t ts1 IH]; [exact H2|].
  cbn [validate_tokens app] in *.
  destruct (String.eqb t EmptyString); [discriminate|].
  destruct (has_whitespace t); [discriminate | exact (IH H1)].
Qed.

Lemma fold_token_add_present ts : forall set,
  (forall t, In t ts -> In t set) -> fold_left token_add ts set = set.
Proof.
  induction ts as [|t ts IH]; intros set H; [reflexivity|].
  cbn [fold_left]. assert (token_add set t = set) as ->.
  { unfold token_add.
    destruct (existsb (String.eqb t) set) eqn:He; [reflexivity|].
    assert (existsb (String.eqb t) set = true) as He'
      by (apply existsb_eqb_In, H; left; reflexivity).
    congruence. }
  apply IH. intros x Hx. apply H. right. exact Hx.
Qed.

(** X8: class arrays accumulate and class strings replace.  On an element,
    for arrays of tokens that the host accepts: applying two class arrays
    one after the other is applying their concatenation; applying the same
    array twice is applying it once; and a class string applied after an
    array leaves the class attribute that the string alone gives. *)
Theorem class_arrays_accumulate_and_strings_replace el h log n ts1 ts2 s :
  h !! el = Some n -> is_element n = true ->
  validate_tokens ts1 = None -> validate_tokens ts2 = None ->
  let add ts := addProps E (plain [("class", VArr (VStr <$> ts) [])]) el in
  let set := addProps E (plain [("class", VStr s)]) el in
  (add ts1 ;;; add ts2) (Machine h log) = add (ts1 ++ ts2) (Machine h log) /\
  (add ts1 ;;; add ts1) (Machine h log) = add ts1 (Machine h log) /\
  (add ts1 ;;; set) (Machine h log) = set (Machine h log) /\
  set (Machine h log) = Ok tt (Machine (<[el := with_class s n]> h) log).
Proof.
  intros Hel Hn Hv1 Hv2 add set.
  pose proof (lookup_lt_Some _ _ _ Hel) as Hlt.
  assert (forall ts h1 log1 n1,
             h1 !! el = Some n1 -> is_element n1 = true ->
             validate_tokens ts = None ->
             add ts (Machine h1 log1)
             = Ok tt (Machine
                        (<[el := with_class
                                   (String.concat " "
                                      (fold_left token_add ts (class_list n1)))
                                   n1]> h1) log1)) as Hadd.
  { intros ts h1 log1 n1 H1 H2 H3. unfold add. rewrite addProps_class.
    cbn [isArray array_items]. apply classList_add_strings; assumption. }
  assert (forall h1 log1 n1,
             h1 !! el = Some n1 -> is_element n1 = true ->
             set (Machine h1 log1)
             = Ok tt (Machine (<[el := with_class s n1]> h1) log1)) as Hset.
  { intros h1 log1 n1 H1 H2. unfold set. rewrite addProps_class.
    cbn [isArray is_nullish negb]. unfold set_property, bind, get_node. ms.
    rewrite H1, H2. cbn [String.eqb Ascii.eqb Bool.eqb andb].
    rewrite to_string_eq. cbn. unfold bind, get_node, ret. ms. rewrite H1.
    reflexivity. }
  set (n1 := with_class
               (String.concat " " (fold_left token_add ts1 (class_list n))) n).
  assert (class_list n1 = fold_left token_add ts1 (class_list n)) as Hcl
    by (apply class_list_after_add, Hv1).
  assert ((<[el := n1]> h) !! el = Some n1) as Hel1
    by (apply list_lookup_insert_eq, Hlt).
  split; [|split; [|split]].
  - unfold bind. rewrite (Hadd ts1 _ _ _ Hel Hn Hv1). fold n1.
    rewrite (Hadd ts2 _ _ _ Hel1 Hn Hv2).
    rewrite (Hadd (ts1 ++ ts2) _ _ _ Hel Hn (validate_tokens_app _ _ Hv1 Hv2)).
    rewrite list_insert_insert_eq, Hcl, fold_left_app. reflexivity.
  - unfold bind. rewrite (Hadd ts1 _ _ _ Hel Hn Hv1). fold n1.
    rewrite (Hadd ts1 _ _ _ Hel1 Hn Hv1).
    rewrite list_insert_insert_eq, Hcl.
    rewrite (fold_token_add_present ts1 (fold_left token_add ts1 (class_list n))).
    + reflexivity.
    + intros t Ht. apply fold_token_add_In. right. exact Ht.
  - unfold bind. rewrite (Hadd ts1 _ _ _ Hel Hn Hv1). fold n1.
    rewrite (Hset _ _ _ Hel1 Hn), (Hset _ _ _ Hel Hn).
    rewrite list_insert_insert_eq. reflexivity.
  - apply (Hset _ _ _ Hel Hn).
Qed.

(** ** Style rules, data attributes and ARIA attributes *)

(** A loop whose every step rewrites the element [el]. *)
Lemma for_each_update el (g : string -> node -> node) (body : string -> M unit) keys :
  (forall k n, is_element (g k n) = is_element n) ->
  (forall k h log n,
      In k keys -> h !! el = Some n -> is_element n = true ->
      body k (Machine h log) = Ok tt (Machine (<[el := g k n]> h) log)) ->
  forall h log n,
    h !! el = Some n -> is_element n = true ->
    for_each body keys (Machine h log)
    = Ok tt (Machine (<[el := fold_left (fun n k => g k n) keys n]> h) log).
Proof.
  intros Hg. induction keys as [|k keys IH]; intros Hbody h log n Hel Hn.
  - cbn [for_each fold_left ret]. rewrite list_insert_id by exact Hel.
    reflexivity.
  - pose proof (lookup_lt_Some _ _ _ Hel) as Hlt.
    rewrite for_each_cons. unfold bind.
    rewrite (Hbody k h log n (or_introl eq_refl) Hel Hn).
    rewrite (IH (fun k' h' log' n' Hin => Hbody k' h' log' n' (or_intror Hin))
                _ _ (g k n)).
    + rewrite list_insert_insert_eq. reflexivity.
    + apply list_lookup_insert_eq, Hlt.
    + rewrite Hg. exact Hn.
Qed.

Lemma assoc_get_fold_set {A : Type} (name : string -> string) (f : string -> A) keys :
  (forall k k', name k = name k' -> k = k') ->
  forall s k,
    assoc_get (name k) (fold_left (fun s k' => assoc_set (name k') (f k') s) keys s)
    = if existsb (String.eqb k) keys then Some (f k) else assoc_get (name k) s.
Proof.
  intros Hinj. induction keys as [|k0 keys IH]; intros s k; [reflexivity|].
  cbn [fold_left existsb]. rewrite IH.
  destruct (existsb (String.eqb k) keys); [rewrite orb_true_r; reflexivity|].
  rewrite orb_false_r. destruct (String.eqb_spec k k0) as [->|Hne].
  - apply assoc_get_set_eq.
  - apply assoc_get_set_ne. intros H. apply Hne, Hinj, H.
Qed.

Lemma fold_with_style (f : string -> value) keys : forall n,
  fold_left (fun n r => with_style (assoc_set r (f r) (n_style n)) n) keys n
  = with_style (fold_left (fun s r => assoc_set r (f r) s) keys (n_style n)) n.
Proof.
  induction keys as [|k keys IH]; intros n; cbn [fold_left].
  - destruct n; reflexivity.
  - rewrite IH. reflexivity.
Qed.

Lemma fold_with_dataset (f : string -> string) keys : forall n,
  fold_left (fun n k => with_dataset (assoc_set k (f k) (n_dataset n)) n) keys n
  = with_dataset (fold_left (fun s k => assoc_set k (f k) s) keys (n_dataset n)) n.
Proof.
  induction keys as [|k keys IH]; intros n; cbn [fold_left].
  - destruct n; reflexivity.
  - rewrite IH. reflexivity.
Qed.

Lemma fold_with_attrs (name : string -> string) (f : string -> string) keys :
  forall n,
  fold_left (fun n k => with_attrs (assoc_set (name k) (f k) (n_attrs n)) n) keys n
  = with_attrs
      (fold_left (fun s k => assoc_set (name k) (f k) s) keys (n_attrs n)) n.
Proof.
  induction keys as [|k keys IH]; intros n; cbn [fold_left].
  - destruct n; reflexivity.
  - rewrite IH. reflexivity.
Qed.

Lemma to_string_primitive v m :
  is_primitive v = true -> to_string E v m = Ok (prim_to_string v) m.
Proof.
  intros Hp. rewrite to_string_eq. unfold to_primitive_with. rewrite Hp.
  reflexivity.
Qed.

Lemma for_in_eq v (body : string -> M unit) m :
  for_in v body m = for_each body (for_in_keys (m_heap m) v) m.
Proof. reflexivity. Qed.

Lemma for_in_keys_heap h v :
  (forall id, v <> VNode id) -> for_in_keys h v = for_in_keys [] v.
Proof. intros Hv. destruct v; try reflexivity. destruct (Hv id eq_refl). Qed.

Lemma convert_primitive c v m :
  is_primitive v = true -> convert E c v m = Ok v m.
Proof.
  intros Hp. destruct c as [|hint]; [reflexivity|].
  unfold convert, to_primitive, to_primitive_with. rewrite Hp. reflexivity.
Qed.

(** The assignment of a primitive to a member of [el.style]. *)
Lemma style_set_primitive el rule v h log n :
  h !! el = Some n -> is_element n = true -> is_primitive v = true ->
  style_set E el rule v (Machine h log)
  = match style_assign E rule v (n_style n) with
    | inr s => Ok tt (Machine (<[el := with_style s n]> h) log)
    | inl e => Throw e (Machine h log)
    end.
Proof.
  intros Hel Hn Hp. unfold style_set, style_assign. unfold bind at 1.
  unfold get_node at 1. ms. rewrite Hel, Hn. cbn [negb].
  destruct (style_key E rule) as [c|]; [|reflexivity].
  unfold bind at 1. rewrite (convert_primitive _ _ _ Hp).
  unfold bind, get_node. ms. rewrite Hel.
  destruct (style_put E rule v (n_style n)); reflexivity.
Qed.

Lemma style_loop el S keys : forall h log n,
  h !! el = Some n -> is_element n = true -> (forall id, S <> VNode id) ->
  Forall (fun r => is_primitive (get_prop [] S r) = true) keys ->
  for_each (fun rule => v <- prop S rule ;; style_set E el rule v) keys
    (Machine h log)
  = let m' := Machine (<[el := with_style
                                 (style_merge E S keys (n_style n)).2 n]> h) log in
    match (style_merge E S keys (n_style n)).1 with
    | None => Ok tt m'
    | Some e => Throw e m'
    end.
Proof.
  induction keys as [|r keys IH]; intros h log n Hel Hn HS Hprim.
  - cbn. rewrite list_insert_id; [reflexivity|]. rewrite Hel.
    destruct n; reflexivity.
  - apply Forall_cons in Hprim. destruct Hprim as [Hr Hprim].
    pose proof (lookup_lt_Some _ _ _ Hel) as Hlt.
    rewrite for_each_cons. unfold bind at 1. rewrite prop_read. ms.
    rewrite (get_prop_heap h S r HS), (style_set_primitive _ _ _ _ _ _ Hel Hn Hr).
    cbn [style_merge].
    destruct (style_assign E r (get_prop [] S r) (n_style n)) as [e|s].
    + cbn. rewrite list_insert_id; [reflexivity|]. rewrite Hel.
      destruct n; reflexivity.
    + rewrite (IH _ _ (with_style s n) (list_lookup_insert_eq _ _ _ Hlt) Hn HS Hprim).
      cbn zeta. rewrite list_insert_insert_eq. reflexivity.
Qed.

Lemma style_merge_own S keys : forall s,
  Forall (fun r => style_key E r = None) keys ->
  style_merge E S keys s
  = (None, fold_left (fun s r => assoc_set r (get_prop [] S r) s) keys s).
Proof.
  induction keys as [|r keys IH]; intros s H; [reflexivity|].
  apply Forall_cons in H. destruct H as [Hr H].
  cbn [style_merge fold_left]. unfold style_assign. rewrite Hr. apply IH, H.
Qed.

(** X9: the style rules of a bag are assigned to the style of the element
    one after the other: for an object under [style] whose values are
    primitives, every rule is assigned in the order of the keys, by the
    setter of the host where the host defines the member, until the host
    refuses one; no user function is called and nothing else of the
    element changes.  For rules that the host does not define, the style
    object holds afterwards the value of the bag for each of the rules and
    what it held before for every other. *)
Theorem style_rules_are_merged el h log n S :
  h !! el = Some n -> is_element n = true -> (forall id, S <> VNode id) ->
  let keys := for_in_keys [] S in
  Forall (fun r => is_primitive (get_prop [] S r) = true) keys ->
  let after := style_merge E S keys (n_style n) in
  let m' := Machine (<[el := with_style after.2 n]> h) log in
  addProps E (plain [("style", S)]) el (Machine h log)
  = match after.1 with
    | None => Ok tt m'
    | Some e => Throw e m'
    end /\
  (Forall (fun r => style_key E r = None) keys ->
   after.1 = None /\
   forall r,
     assoc_get r after.2
     = if existsb (String.eqb r) keys then Some (get_prop [] S r)
       else assoc_get r (n_style n)).
Proof.
  intros Hel Hn HS keys Hprim after m'. split.
  - rewrite addProps_single. unfold addProp. cbn [String.eqb Ascii.eqb Bool.eqb].
    rewrite prop_read.
    change (get_prop (m_heap (Machine h log)) (plain [("style", S)]) "style")
      with S.
    rewrite for_in_eq. ms. rewrite (for_in_keys_heap h S HS). fold keys.
    apply (style_loop _ _ _ _ _ _ Hel Hn HS Hprim).
  - intros Hown. unfold after. rewrite (style_merge_own _ _ _ Hown).
    split; [reflexivity|]. intros r. cbn [snd].
    apply (assoc_get_fold_set (fun k => k)). auto.
Qed.

(** X10: the data attributes of a bag are merged into the dataset of the
    element: for an object under [dataset] whose values are primitives and
    whose keys the host accepts, every key is set to the string of its
    value, nothing else of the element changes, and the dataset keeps what
    it held under the other keys. *)
Theorem dataset_is_merged_as_strings el h log n D :
  h !! el = Some n -> is_element n = true -> (forall id, D <> VNode id) ->
  let keys := for_in_keys [] D in
  Forall (fun k => data_ok E k = true /\ is_primitive (get_prop [] D k) = true)
         keys ->
  let n' := with_dataset
              (fold_left
                 (fun d k => assoc_set k (prim_to_string (get_prop [] D k)) d)
                 keys (n_dataset n)) n in
  addProps E (plain [("dataset", D)]) el (Machine h log)
  = Ok tt (Machine (<[el := n']> h) log) /\
  (forall k,
      assoc_get k (n_dataset n')
      = if existsb (String.eqb k) keys
        then Some (prim_to_string (get_prop [] D k))
        else assoc_get k (n_dataset n)).
Proof.
  intros Hel Hn HD keys Hok n'. split.
  - rewrite addProps_single. unfold addProp. cbn [String.eqb Ascii.eqb Bool.eqb].
    rewrite prop_read.
    change (get_prop (m_heap (Machine h log)) (plain [("dataset", D)]) "dataset")
      with D.
    rewrite for_in_eq. ms. rewrite (for_in_keys_heap h D HD). fold keys.
    rewrite (for_each_update el
               (fun k n => with_dataset
                             (assoc_set k (prim_to_string (get_prop [] D k))
                                (n_dataset n)) n)
               _ keys) with (n := n); try assumption.
    + rewrite fold_with_dataset. reflexivity.
    + reflexivity.
    + intros k h1 log1 n1 Hk H1 Hn1. rewrite prop_read. ms.
      rewrite (get_prop_heap h1 D k HD).
      rewrite List.Forall_forall in Hok. destruct (Hok k Hk) as [Hdk Hprim].
      unfold dataset_set. unfold bind at 1. unfold get_node at 1. ms.
      rewrite H1, Hn1. cbn [negb]. unfold bind at 1.
      rewrite (to_string_primitive _ _ Hprim), Hdk. cbn [negb].
      unfold bind, get_node. ms. rewrite H1. reflexivity.
  - intros k. unfold n'. cbn [n_dataset with_dataset].
    apply (assoc_get_fold_set (fun k => k)
             (fun k => prim_to_string (get_prop [] D k))). auto.
Qed.

Lemma setAttribute_primitive el name v h log n :
  h !! el = Some n -> is_element n = true ->
  is_primitive v = true -> attr_ok E name = true ->
  String.eqb name "class" = false ->
  setAttribute E el name v (Machine h log)
  = Ok tt (Machine
             (<[el := with_attrs (assoc_set name (prim_to_string v) (n_attrs n)) n]> h)
             log).
Proof.
  intros Hel Hn Hp Hok Hc. unfold setAttribute.
  unfold bind at 1. unfold get_node at 1. ms. rewrite Hel, Hn. cbn [negb].
  unfold bind at 1. rewrite (to_string_primitive _ _ Hp), Hok. cbn [negb].
  unfold bind, get_node. ms. rewrite Hel, Hc. reflexivity.
Qed.


Lemma aria_name_inj k k' : "aria-" +:+ k = "aria-" +:+ k' -> k = k'.
Proof. intros H. repeat (rewrite append_cons in H; injection H as H). exact H. Qed.


(** ** Failures and targets that are not elements *)

(** X13: [addProps] is not undone by a failure: when the processing of
    the keys before a key of the bag returns and the processing of that key
    raises, [addProps] raises the same failure from the machine as the
    failing key left it: what the keys before it wrote stays written, and
    the keys after it are not processed. *)
Theorem addProps_keeps_the_writes_before_a_failure
    fields1 k v fields2 el m m1 e m2 :
  let P := plain (fields1 ++ (k, v) :: fields2) in
  for_each (addProp E P el) fields1.*1 m = Ok tt m1 ->
  addProp E P el k m1 = Throw e m2 ->
  addProps E P el m = Throw e m2.
Proof.
  intros P Hrun Hthrow. rewrite addProps_eq. cbn [P plain for_in_keys].
  rewrite fmap_app, fmap_cons. cbn [fst].
  apply (for_each_abort _ _ _ _ _ _ _ _ Hrun Hthrow).
Qed.

Lemma get_prop_single h k v : get_prop h (plain [(k, v)]) k = v.
Proof.
  unfold get_prop, plain, lookup_prop. cbn [assoc_get].
  rewrite String.eqb_refl. reflexivity.
Qed.

(** X14: a target that is not an element, such as a text or a comment node,
    has no class list, style, dataset or attributes: a class array, a role,
    and a style, dataset or aria object with at least one key raise a
    [TypeError] and leave the machine as it was, while a class that is not
    an array and every ordinary key become properties of the node's own
    where the host defines no property of that name on the node. *)
Theorem special_keys_need_an_element el h log n :
  h !! el = Some n -> is_element n = false ->
  (forall items props,
      addProps E (plain [("class", VArr items props)]) el (Machine h log)
      = Throw TypeError (Machine h log)) /\
  (forall v,
      addProps E (plain [("role", v)]) el (Machine h log)
      = Throw TypeError (Machine h log)) /\
  (forall key S,
      In key ["style"; "dataset"; "aria"] -> for_in_keys h S <> [] ->
      addProps E (plain [(key, S)]) el (Machine h log)
      = Throw TypeError (Machine h log)) /\
  (forall key v,
      special key = false \/ key = "class" /\ isArray v = false /\ is_nullish v = false ->
      host_key E (n_kind n) (if String.eqb key "class" then "className" else key)
      = None ->
      addProps E (plain [(key, v)]) el (Machine h log)
      = Ok tt (Machine
                 (<[el := with_slots
                            (assoc_set (if String.eqb key "class" then "className"
                                        else key) v (n_slots n)) n]> h) log)).
Proof.
  intros Hel Hn.
  assert (forall k v, host_key E (n_kind n) k = None ->
                      set_property E el k v (Machine h log)
                      = Ok tt (Machine
                                 (<[el := with_slots (assoc_set k v (n_slots n)) n]> h)
                                 log)) as Hset.
  { intros k v Hk. unfold set_property, bind, get_node. ms. rewrite Hel, Hn.
    rewrite andb_false_r, Hk. reflexivity. }
  split; [|split; [|split]].
  - intros items props. rewrite addProps_class. cbn [isArray].
    unfold classList_add, bind, get_node. ms. rewrite Hel, Hn. reflexivity.
  - intros v. rewrite addProps_single. unfold addProp.
    cbn [String.eqb Ascii.eqb Bool.eqb]. rewrite prop_read.
    unfold setAttribute, bind, get_node. ms. rewrite Hel, Hn. reflexivity.
  - intros key S Hkey Hkeys. rewrite addProps_single.
    destruct (for_in_keys h S) as [|r rs] eqn:Hrs; [congruence|].
    destruct Hkey as [<-|[<-|[<-|[]]]]; unfold addProp;
      cbn [String.eqb Ascii.eqb Bool.eqb]; rewrite prop_read, get_prop_single;
      rewrite for_in_eq; ms; rewrite Hrs, for_each_cons; unfold bind at 1;
      rewrite prop_read; ms.
    + unfold style_set, bind, get_node. ms. rewrite Hel, Hn. reflexivity.
    + unfold dataset_set, bind, get_node. ms. rewrite Hel, Hn. reflexivity.
    + unfold setAttribute, bind, get_node. ms. rewrite Hel, Hn. reflexivity.
  - intros key v [Hs|(-> & Ha & Hnull)] Hhost.
    + rewrite addProps_single, (addProp_general _ _ _ _ Hs), prop_read.
      rewrite get_prop_single. destruct (special_false _ Hs) as [Hc _].
      rewrite Hc in *. apply Hset, Hhost.
    + rewrite addProps_class, Ha, Hnull. cbn [negb String.eqb Ascii.eqb Bool.eqb].
      apply Hset, Hhost.
Qed.

(** ** Producers of children *)

(** X15: the append hooks of what [toElement] returns are not invoked: for a
    value without append hooks whose [toElement] returns a node that the
    host accepts, the only call that [addChildren] makes is the call of
    [toElement], without arguments, whatever hooks the returned node
    carries; the node becomes the last child of the element. *)
Theorem hooks_of_a_produced_node_are_not_invoked el v f c h log h' p cn :
  isArray v = false -> (forall id, v <> VNode id) -> is_nullish v = false ->
  quiet v = true ->
  get_prop [] v "toElement" = VFun f ->
  fn_call E f v [] h = FReturn (VNode c) h' ->
  h' !! el = Some p -> is_element p = true ->
  h' !! c = Some cn -> contains h' (List.length h') c el = false ->
  addChildren E v el (Machine h log)
  = Ok tt (Machine (attach el c (detach c h')) (log ++ [Call f v []])) /\
  last (children_of (attach el c (detach c h')) el) = Some c.
Proof.
  intros Ha Hv Hnull Hq Hte Hcall Hel Hp Hc Hcont.
  destruct (appendChild_node el c h' (log ++ [Call f v []]) p cn Hel Hp Hc Hcont)
    as [Happ Hlast].
  split; [|exact Hlast].
  rewrite addChildren_eq. unfold bind at 1.
  rewrite append_hook_none by (apply quiet_hooks; assumption).
  unfold bind. rewrite (content_not_array _ _ _ Ha).
  unfold append_one, bind, get_heap. ms.
  assert (is_tree_node h v = false) as ->.
  { destruct v; try reflexivity. destruct (Hv id eq_refl). }
  rewrite Hnull, (get_prop_heap h v _ Hv), Hte.
  unfold call_fn. ms. rewrite Hcall, Happ.
  apply append_hook_none, quiet_hooks; assumption.
Qed.

(** X16: the last branch of [addChildren]: a value that has neither a
    [toElement] nor a [toString] that is a function is converted with
    ['' + v], which asks [valueOf] first.  When [valueOf] is not a user
    function (it is the built-in one, or missing, or not a function), the
    conversion raises a [TypeError] and nothing is appended; when it is a
    user function that returns a primitive, the string of that primitive
    is appended as a new text node. *)
Theorem child_without_toString_is_converted_by_valueOf el v h log :
  isArray v = false -> is_tree_node h v = false -> is_nullish v = false ->
  is_function (get_prop h v "toElement") = false ->
  method h v "toString" = None ->
  ((forall f, method h v "valueOf" <> Some (User f)) ->
   append_one E v el (Machine h log) = Throw TypeError (Machine h log)) /\
  (forall f r h' p,
      method h v "valueOf" = Some (User f) ->
      fn_call E f v [] h = FReturn r h' ->
      is_primitive r = true ->
      h' !! el = Some p -> is_element p = true ->
      append_one E v el (Machine h log)
      = Ok tt (Machine (append_new el h' (KText (prim_to_string r)))
                 (log ++ [Call f v []]))).
Proof.
  intros Ha Htree Hnull Hte Hts.
  pose proof (method_none_not_primitive _ _ Hnull Hts) as Hprim.
  assert (append_one E v el (Machine h log)
          = (s <- concat_empty E v ;;
             t <- createTextNode E (VStr s) ;;
             appendChild el (VNode t)) (Machine h log)) as Hone.
  { unfold append_one. unfold bind at 1. unfold get_heap at 1. ms.
    rewrite Htree, Hnull, Hts.
    destruct (get_prop h v "toElement"); try reflexivity. discriminate Hte. }
  split.
  - intros Hvo. rewrite Hone. unfold bind at 1.
    assert (concat_empty E v (Machine h log) = Throw TypeError (Machine h log))
      as ->; [|reflexivity].
    unfold concat_empty, to_primitive, to_primitive_with. rewrite Hprim.
    unfold bind at 1. unfold try_method at 1. unfold bind at 1.
    unfold get_heap at 1. ms.
    destruct (method h v "valueOf") as [[f|]|] eqn:Hm.
    + destruct (Hvo f eq_refl).
    + cbn [String.eqb Ascii.eqb Bool.eqb]. unfold bind at 1. unfold ret at 1.
      rewrite Hprim. unfold try_method, bind, get_heap. ms. rewrite Hts.
      reflexivity.
    + unfold try_method, bind, get_heap. ms. rewrite Hts. reflexivity.
  - intros f r h' p Hvo Hcall Hr Hel Hp. rewrite Hone. unfold bind at 1.
    assert (concat_empty E v (Machine h log)
            = Ok (prim_to_string r) (Machine h' (log ++ [Call f v []]))) as ->.
    { unfold concat_empty, to_primitive, to_primitive_with. rewrite Hprim.
      unfold bind at 1. unfold try_method at 1. unfold bind at 1.
      unfold get_heap at 1. ms. rewrite Hvo. unfold bind at 1.
      unfold call_fn. ms. rewrite Hcall, Hr. reflexivity. }
    apply (append_text_new _ _ _ _ _ _ Hel Hp).
Qed.

(** ** What the engine leaves alone *)

Section Frame.

(** A relation between the heap before and the heap after, kept by the
    user functions, and a relation between a node and what is written in
    its place. *)
Variable R : heap -> heap -> Prop.
Variable same : node -> node -> Prop.

Hypothesis R_refl : forall h, R h h.
Hypothesis R_trans : forall h1 h2 h3, R h1 h2 -> R h2 h3 -> R h1 h3.
Hypothesis R_fn :
  forall f this args h, R h (fn_heap (fn_call E f this args h)).

Local Abbreviation RM := (fun m m' : machine => R (m_heap m) (m_heap m')).

Lemma RM_refl m : RM m m.
Proof. apply R_refl. Qed.

Lemma RM_trans m1 m2 m3 : RM m1 m2 -> RM m2 m3 -> RM m1 m3.
Proof. apply R_trans. Qed.

Lemma RM_call f this args : respects RM (call_fn E f this args).
Proof.
  intros m. unfold call_fn. pose proof (R_fn f this args (m_heap m)) as H.
  destruct (fn_call E f this args (m_heap m)); exact H.
Qed.

Lemma RM_to_string v : respects RM (to_string E v).
Proof. apply (respects_to_string E RM RM_refl RM_trans RM_call). Qed.

Lemma RM_bind {A B : Type} (c : M A) (k : A -> M B) :
  respects RM c -> (forall a, respects RM (k a)) -> respects RM (bind c k).
Proof. apply (respects_bind RM RM_trans). Qed.

Lemma RM_for_in v (body : string -> M unit) :
  (forall h k, In k (for_in_keys h v) -> respects RM (body k)) ->
  respects RM (for_in v body).
Proof.
  intros Hb. unfold for_in. apply RM_bind; [apply (respects_get_heap RM RM_refl)|].
  intros h. apply (respects_for_each RM RM_refl RM_trans).
  apply Forall_forall. intros k Hk. apply (Hb h), list_elem_of_In, Hk.
Qed.

Lemma RM_convert c v : respects RM (convert E c v).
Proof.
  destruct c as [|hint]; [apply (respects_ret RM RM_refl)|].
  apply (respects_to_primitive_with E RM RM_refl RM_trans RM_call).
  apply (respects_native_toString E RM RM_refl RM_trans RM_call).
Qed.

Lemma RM_prop_then v k (body : value -> M unit) :
  (forall x, respects RM (body x)) -> respects RM (x <- prop v k ;; body x).
Proof.
  intros Hb. apply RM_bind; [|exact Hb]. unfold prop.
  apply RM_bind; [apply (respects_get_heap RM RM_refl)|].
  intros h. apply (respects_ret RM RM_refl).
Qed.

(** *** The writes of [addProps] *)

Hypothesis R_write :
  forall h el n n', h !! el = Some n -> same n n' -> R h (<[el := n']> h).
Hypothesis same_class : forall s n, same n (with_class s n).
Hypothesis same_attrs : forall a n, same n (with_attrs a n).
Hypothesis same_style : forall s n, same n (with_style s n).
Hypothesis same_dataset : forall d n, same n (with_dataset d n).
Hypothesis same_slots : forall s n, same n (with_slots s n).

Lemma RM_update el (g : node -> node) :
  (forall n, same n (g n)) ->
  respects RM (n <- get_node el ;; set_node el (g n)).
Proof.
  intros Hg m. unfold bind, get_node, set_node.
  destruct (m_heap m !! el) as [n|] eqn:Hel; [|apply R_refl].
  ms. apply (R_write _ _ _ _ Hel (Hg n)).
Qed.

(** The setter of the property [k] of [el], where the host defines the
    property, keeps the relation. *)
Local Abbreviation setter_keeps :=
  (fun (el : node_id) (k : string) =>
     forall kind c p h,
       host_key E kind k = Some c -> R h (fn_heap (host_set E el k p h))).

Lemma RM_set_property el k v :
  setter_keeps el k -> respects RM (set_property E el k v).
Proof.
  intros Hhost m. unfold set_property. unfold bind at 1. unfold get_node at 1.
  destruct (m_heap m !! el) as [n|] eqn:Hel; [|apply R_refl].
  destruct (String.eqb k "className" && is_element n).
  - apply RM_bind; [apply RM_to_string|]. intros s.
    apply (RM_update el (with_class s)). intros n'. apply same_class.
  - destruct (host_key E (n_kind n) k) as [c|] eqn:Hk.
    + apply RM_bind; [apply RM_convert|]. intros p m1. unfold host_step.
      pose proof (Hhost _ _ p (m_heap m1) Hk) as H.
      destruct (host_set E el k p (m_heap m1)); exact H.
    + unfold set_node. ms. apply (R_write _ _ _ _ Hel), same_slots.
Qed.

Lemma RM_classList_add el args : respects RM (classList_add E el args).
Proof.
  unfold classList_add.
  apply RM_bind; [apply (respects_get_node RM RM_refl)|]. intros n.
  destruct (negb (is_element n)); [apply (respects_throw RM RM_refl)|].
  apply RM_bind.
  - apply (respects_map_m RM RM_refl RM_trans).
    apply Forall_forall. intros x _. apply RM_to_string.
  - intros tokens. destruct (validate_tokens tokens);
      [apply (respects_throw RM RM_refl)|].
    apply (RM_update el
             (fun n' => with_class
                          (String.concat " " (fold_left token_add tokens (class_list n')))
                          n')).
    intros n'. apply same_class.
Qed.

Lemma RM_style_set el rule v : respects RM (style_set E el rule v).
Proof.
  intros m. unfold style_set. unfold bind at 1. unfold get_node at 1.
  destruct (m_heap m !! el) as [n|] eqn:Hel; [|apply R_refl].
  destruct (negb (is_element n)); [apply R_refl|].
  destruct (style_key E rule) as [c|].
  - apply RM_bind; [apply RM_convert|]. intros p m1. unfold bind, get_node.
    destruct (m_heap m1 !! el) as [n1|] eqn:Hel1; [|apply R_refl].
    destruct (style_put E rule p (n_style n1)) as [e|s]; [apply R_refl|].
    unfold set_node. ms. apply (R_write _ _ _ _ Hel1), same_style.
  - unfold set_node. ms. apply (R_write _ _ _ _ Hel), same_style.
Qed.

Lemma RM_dataset_set el k v : respects RM (dataset_set E el k v).
Proof.
  unfold dataset_set.
  apply RM_bind; [apply (respects_get_node RM RM_refl)|]. intros n.
  destruct (negb (is_element n)); [apply (respects_throw RM RM_refl)|].
  apply RM_bind; [apply RM_to_string|]. intros s.
  destruct (negb (data_ok E k)); [apply (respects_throw RM RM_refl)|].
  apply (RM_update el (fun n' => with_dataset (assoc_set k s (n_dataset n')) n')).
  intros n'. apply same_dataset.
Qed.

Lemma RM_setAttribute el name v : respects RM (setAttribute E el name v).
Proof.
  unfold setAttribute.
  apply RM_bind; [apply (respects_get_node RM RM_refl)|]. intros n.
  destruct (negb (is_element n)); [apply (respects_throw RM RM_refl)|].
  apply RM_bind; [apply RM_to_string|]. intros s.
  destruct (negb (attr_ok E name)); [apply (respects_throw RM RM_refl)|].
  destruct (String.eqb name "class").
  - apply (RM_update el (with_class s)). intros n'. apply same_class.
  - apply (RM_update el (fun n' => with_attrs (assoc_set name s (n_attrs n')) n')).
    intros n'. apply same_attrs.
Qed.

Lemma RM_addProp props el k :
  (forall t, target k = Some t -> setter_keeps el t) ->
  respects RM (addProp E props el k).
Proof.
  unfold addProp, target, special, special_keys. cbn [existsb].
  destruct (String.eqb k "class").
  { intros Ht. apply RM_prop_then. intros classNames.
    destruct (isArray classNames); [apply RM_classList_add|].
    destruct (negb (is_nullish classNames));
      [apply RM_set_property, Ht; reflexivity | apply (respects_ret RM RM_refl)]. }
  destruct (String.eqb k "for").
  { intros Ht. apply RM_prop_then. intros v.
    apply RM_set_property, Ht. reflexivity. }
  destruct (String.eqb k "tabindex").
  { intros Ht. apply RM_prop_then. intros v.
    apply RM_set_property, Ht. reflexivity. }
  destruct (String.eqb k "style").
  { intros _. apply RM_prop_then. intros styles. apply RM_for_in.
    intros _ rule _. apply RM_prop_then. intros v. apply RM_style_set. }
  destruct (String.eqb k "dataset").
  { intros _. apply RM_prop_then. intros dataset. apply RM_for_in.
    intros _ dk _. apply RM_prop_then. intros v. apply RM_dataset_set. }
  destruct (String.eqb k "role").
  { intros _. apply RM_prop_then. intros v. apply RM_setAttribute. }
  destruct (String.eqb k "aria").
  { intros _. apply RM_prop_then. intros aria. apply RM_for_in.
    intros _ a _. apply RM_prop_then. intros v. apply RM_setAttribute. }
  intros Ht. apply RM_prop_then. intros v. apply RM_set_property, Ht.
  reflexivity.
Qed.

Lemma RM_addProps props el :
  (forall h k t, In k (for_in_keys h props) -> target k = Some t ->
                 setter_keeps el t) ->
  respects RM (addProps E props el).
Proof.
  intros Hk. apply RM_for_in. intros h k Hin. apply RM_addProp.
  intros t. apply (Hk h k t Hin).
Qed.

(** *** The writes of [addChildren] *)

Hypothesis R_text : forall h s, R h (h ++ [new_node (KText s)]).
Hypothesis R_comment : forall h s, R h (h ++ [new_node (KComment s)]).
Hypothesis R_move : forall h el c, R h (attach el c (detach c h)).

Lemma RM_createTextNode v : respects RM (createTextNode E v).
Proof.
  unfold createTextNode. apply RM_bind; [apply RM_to_string|].
  intros s m. unfold alloc. ms. apply R_text.
Qed.

Lemma RM_createComment v : respects RM (createComment E v).
Proof.
  unfold createComment. apply RM_bind; [apply RM_to_string|].
  intros s m. unfold alloc. ms. apply R_comment.
Qed.

Lemma RM_appendChild el child : respects RM (appendChild el child).
Proof.
  intros m. unfold appendChild, bind, get_node, get_heap.
  destruct (m_heap m !! el) as [p|]; [|apply R_refl].
  destruct child; try apply R_refl.
  destruct (m_heap m !! id); [|apply R_refl].
  destruct (negb (is_element p)); [apply R_refl|].
  destruct (contains (m_heap m) (List.length (m_heap m)) id el);
    [apply R_refl|].
  unfold put_heap. ms. apply R_move.
Qed.

Lemma RM_new_text v el :
  respects RM (t <- createTextNode E v ;; appendChild el (VNode t)).
Proof.
  apply RM_bind; [|intros t; apply RM_appendChild].
  apply RM_createTextNode.
Qed.

Lemma RM_append_one v el : respects RM (append_one E v el).
Proof.
  unfold append_one.
  apply RM_bind; [apply (respects_get_heap RM RM_refl)|]. intros h.
  destruct (is_tree_node h v); [apply RM_appendChild|].
  destruct (is_nullish v).
  { apply RM_bind; [|intros c; apply RM_appendChild].
    apply RM_createComment. }
  assert (respects RM
            match method h v "toString" with
            | Some c =>
                r <- match c with
                     | User f => call_fn E f v []
                     | Native => native_toString E v
                     end ;;
                t <- createTextNode E r ;;
                appendChild el (VNode t)
            | None =>
                s <- concat_empty E v ;;
                t <- createTextNode E (VStr s) ;;
                appendChild el (VNode t)
            end) as Hrest.
  { destruct (method h v "toString") as [c|].
    - apply RM_bind; [|intros r; apply RM_new_text].
      destruct c; [apply RM_call|].
      apply (respects_native_toString E RM RM_refl RM_trans RM_call).
    - apply RM_bind; [|intros s; apply RM_new_text].
      apply (respects_concat_empty E RM RM_refl RM_trans RM_call). }
  destruct (get_prop h v "toElement"); try exact Hrest.
  apply RM_bind; [apply RM_call|]. intros r. apply RM_appendChild.
Qed.

Lemma RM_addChildren el v : respects RM (addChildren E v el).
Proof.
  induction v as [items props IH|v Hna] using value_items_ind;
    rewrite addChildren_eq;
    (apply RM_bind;
     [apply (respects_append_hook E RM RM_refl RM_trans RM_call)|]; intros _);
    (apply RM_bind;
     [|intros _; apply (respects_append_hook E RM RM_refl RM_trans RM_call)]).
  - cbn [content]. apply (respects_for_each RM RM_refl RM_trans). exact IH.
  - rewrite (content_not_array _ _ _ Hna). apply RM_append_one.
Qed.

Lemma RM_dispatch el arg :
  (forall t, setter_keeps el t) -> respects RM (dispatch E el arg).
Proof.
  intros Hhost. unfold dispatch.
  apply RM_bind; [apply (respects_get_heap RM RM_refl)|]. intros h.
  destruct (String.eqb (object_toString E h arg) "[object Object]").
  { apply RM_addProps. intros h' k t _ _. apply Hhost. }
  destruct arg; try apply RM_addChildren.
  apply RM_bind; [apply RM_call|]. intros _. apply (respects_ret RM RM_refl).
Qed.

End Frame.

Lemma same_tree_refl h : same_tree h h.
Proof. reflexivity. Qed.

Lemma same_tree_trans h1 h2 h3 :
  same_tree h1 h2 -> same_tree h2 h3 -> same_tree h1 h3.
Proof. unfold same_tree. congruence. Qed.

Lemma same_tree_write h el n n' :
  h !! el = Some n -> shape n' = shape n -> same_tree h (<[el := n']> h).
Proof.
  intros Hel Hs. unfold same_tree. rewrite list_fmap_insert.
  apply list_insert_id. rewrite list_lookup_fmap, Hel. cbn. congruence.
Qed.

(** X17: [addProps] itself never adds, removes or moves a node: for a bag
    none of whose keys writes a property that the host defines (the
    setters of [textContent] or [innerHTML] do change the children), and
    when no user function changes the tree, the heap after [addProps] has
    the nodes of the heap before it, each of the same kind, with the same
    parent and the same children, whether [addProps] returns or raises.
    The class, the style, the dataset and the attributes are all written
    without a change of the tree. *)
Theorem addProps_leaves_the_tree_alone props el m :
  (forall f this args h, same_tree h (fn_heap (fn_call E f this args h))) ->
  (forall id, props <> VNode id) ->
  (forall k t kind,
      In k (for_in_keys [] props) -> target k = Some t ->
      host_key E kind t = None) ->
  match addProps E props el m with
  | Ok _ m' | Throw _ m' => same_tree (m_heap m) (m_heap m')
  end.
Proof.
  intros Hfn Hp Hkeys.
  apply (RM_addProps same_tree (fun n n' => shape n' = shape n)
           same_tree_refl same_tree_trans Hfn same_tree_write);
    try reflexivity.
  intros h k t Hin Ht kind c p h0 Hk.
  rewrite (for_in_keys_heap h props Hp) in Hin.
  rewrite (Hkeys k t kind Hin Ht) in Hk. discriminate Hk.
Qed.

Lemma keeps_payload_refl h : keeps_payload h h.
Proof. intros id n H. eauto. Qed.

Lemma keeps_payload_trans h1 h2 h3 :
  keeps_payload h1 h2 -> keeps_payload h2 h3 -> keeps_payload h1 h3.
Proof.
  intros H1 H2 id n Hn. destruct (H1 id n Hn) as (n2 & Hn2 & Hp2).
  destruct (H2 id n2 Hn2) as (n3 & Hn3 & Hp3). exists n3. split; congruence.
Qed.

Lemma keeps_payload_write h i x x' :
  h !! i = Some x -> payload x' = payload x -> keeps_payload h (<[i := x']> h).
Proof.
  intros Hi Hp id n Hn. destruct (decide (id = i)) as [->|Hne].
  - exists x'. split; [|congruence].
    apply list_lookup_insert_eq, (lookup_lt_Some _ _ _ Hi).
  - exists n. split; [|reflexivity]. rewrite list_lookup_insert_ne; auto.
Qed.

Lemma keeps_payload_grow h n : keeps_payload h (h ++ [n]).
Proof. intros id x Hx. exists x. split; [apply lookup_app_l_Some, Hx | reflexivity]. Qed.

Lemma keeps_payload_detach h c : keeps_payload h (detach c h).
Proof.
  unfold detach. destruct (h !! c) as [cn|] eqn:Hc; [|apply keeps_payload_refl].
  destruct (n_parent cn) as [p|]; [|apply keeps_payload_refl].
  destruct (h !! p) as [pn|] eqn:Hp.
  - destruct (decide (c = p)) as [->|Hne].
    + rewrite list_insert_insert_eq.
      apply (keeps_payload_write _ _ _ _ Hc). reflexivity.
    + apply keeps_payload_trans
        with (<[p := with_children (remove_id c (n_children pn)) pn]> h).
      * apply (keeps_payload_write h p pn _ Hp). reflexivity.
      * apply (keeps_payload_write _ c cn).
        -- rewrite list_lookup_insert_ne by congruence. exact Hc.
        -- reflexivity.
  - apply (keeps_payload_write _ _ _ _ Hc). reflexivity.
Qed.

Lemma keeps_payload_attach h el c : keeps_payload h (attach el c h).
Proof.
  unfold attach. destruct (h !! el) as [pn|] eqn:Hp; [|apply keeps_payload_refl].
  destruct (h !! c) as [cn|] eqn:Hc; [|apply keeps_payload_refl].
  destruct (decide (c = el)) as [->|Hne].
  - rewrite list_insert_insert_eq.
    apply (keeps_payload_write _ _ _ _ Hc). reflexivity.
  - apply keeps_payload_trans
      with (<[el := with_children (n_children pn ++ [c]) pn]> h).
    + apply (keeps_payload_write h el pn _ Hp). reflexivity.
    + apply (keeps_payload_write _ c cn).
      * rewrite list_lookup_insert_ne by congruence. exact Hc.
      * reflexivity.
Qed.

Lemma keeps_payload_move h el c : keeps_payload h (attach el c (detach c h)).
Proof.
  eapply keeps_payload_trans; [apply keeps_payload_detach | apply keeps_payload_attach].
Qed.

(** X18: [addChildren] never removes a node and never writes a property:
    when no user function does, every node of the heap before [addChildren]
    is in the heap after it with its kind, class, attributes, style, dataset
    and properties as they were, whether [addChildren] returns or raises. *)
Theorem addChildren_writes_no_property v el m :
  (forall f this args h, keeps_payload h (fn_heap (fn_call E f this args h))) ->
  match addChildren E v el m with
  | Ok _ m' | Throw _ m' => keeps_payload (m_heap m) (m_heap m')
  end.
Proof.
  intros Hfn.
  apply (RM_addChildren keeps_payload keeps_payload_refl keeps_payload_trans Hfn
           (fun h s => keeps_payload_grow h _) (fun h s => keeps_payload_grow h _)
           keeps_payload_move).
Qed.

Lemma keeps_payload_kinds h h' : keeps_payload h h' -> keeps_kinds h h'.
Proof.
  intros H id n Hn. destruct (H id n Hn) as (n' & Hn' & Hp).
  exists n'. split; [exact Hn'|]. unfold payload in Hp. congruence.
Qed.

Lemma keeps_kinds_write h i x x' :
  h !! i = Some x -> n_kind x' = n_kind x -> keeps_kinds h (<[i := x']> h).
Proof.
  intros Hi Hp id n Hn. destruct (decide (id = i)) as [->|Hne].
  - exists x'. split; [|congruence].
    apply list_lookup_insert_eq, (lookup_lt_Some _ _ _ Hi).
  - exists n. split; [|reflexivity]. rewrite list_lookup_insert_ne; auto.
Qed.

(** X19: what [createElement] returns is an element of the requested tag:
    when no user function removes a node or changes the kind of one, a call
    that returns gives the identifier that was free before the call, which
    names an element of that tag in the final heap, and every node that
    existed before the call still exists, with its kind. *)
Theorem createElement_returns_an_element_of_the_tag tag args m el m' :
  (forall f this args h, keeps_kinds h (fn_heap (fn_call E f this args h))) ->
  createElement E tag args m = Ok el m' ->
  el = List.length (m_heap m) /\
  (exists n, m_heap m' !! el = Some n /\ n_kind n = KElement tag) /\
  keeps_kinds (m_heap m) (m_heap m').
Proof.
  intros Hfn Hrun.
  destruct (createElement_Ok _ _ _ _ _ _ Hrun) as (m0 & Hdoc & Hargs).
  unfold document_createElement in Hdoc.
  destruct (tag_ok E tag); [|discriminate Hdoc].
  unfold alloc in Hdoc. injection Hdoc as <- <-.
  set (el := List.length (m_heap m)) in *.
  (* as long as [el] is an element, every step keeps the kinds *)
  set (R := fun h h' : heap =>
              (exists n, h !! el = Some n /\ is_element n = true) ->
              keeps_kinds h h').
  assert (forall h, R h h) as R_refl by (intros h _; apply keeps_kinds_refl).
  assert (forall h1 h2 h3, R h1 h2 -> R h2 h3 -> R h1 h3) as R_trans.
  { intros h1 h2 h3 H12 H23 Hel. specialize (H12 Hel).
    apply (keeps_kinds_trans _ _ _ H12), H23.
    destruct Hel as (n & Hn & He). destruct (H12 _ _ Hn) as (n' & Hn' & Hk).
    exists n'. split; [exact Hn'|]. unfold is_element in *. rewrite Hk. exact He. }
  assert (respects (fun m1 m2 => R (m_heap m1) (m_heap m2))
            (for_each (dispatch E el) args)) as Hfe.
  { apply (respects_for_each _ (fun m => R_refl (m_heap m))
             (fun m1 m2 m3 => R_trans (m_heap m1) (m_heap m2) (m_heap m3))).
    apply Forall_forall. intros x _.
    apply (RM_dispatch R (fun n n' => n_kind n' = n_kind n) R_refl R_trans).
    - intros f this args0 h _. apply Hfn.
    - intros h i n n' Hi Hs _. apply (keeps_kinds_write _ _ _ _ Hi Hs).
    - reflexivity.
    - reflexivity.
    - reflexivity.
    - reflexivity.
    - reflexivity.
    - intros h s _. apply keeps_payload_kinds, keeps_payload_grow.
    - intros h s _. apply keeps_payload_kinds, keeps_payload_grow.
    - intros h p c _. apply keeps_payload_kinds, keeps_payload_move.
    - intros t kind c p h _ (n & Hn & He). apply (host_set_kinds E _ _ _ _ _ Hn He). }
  specialize (Hfe (Machine (m_heap m ++ [new_node (KElement tag)]) (m_calls m))).
  rewrite Hargs in Hfe. cbn [m_heap] in Hfe.
  assert ((m_heap m ++ [new_node (KElement tag)]) !! el
          = Some (new_node (KElement tag))) as Hnew
    by (apply list_lookup_middle; reflexivity).
  specialize (Hfe (ex_intro _ _ (conj Hnew eq_refl))).
  split; [reflexivity|]. split.
  - apply (Hfe _ _ Hnew).
  - apply (keeps_kinds_trans _ (m_heap m ++ [new_node (KElement tag)]));
      [|exact Hfe].
    apply keeps_payload_kinds, keeps_payload_grow.
Qed.

(** ** Applying a bag twice *)

Lemma assoc_set_same {A : Type} k (a : A) l :
  assoc_get k l = Some a -> assoc_set k a l = l.
Proof.
  induction l as [|[k' a'] l IH]; cbn [assoc_get assoc_set]; [discriminate|].
  destruct (String.eqb_spec k k') as [->|_].
  - intros [= ->]. reflexivity.
  - intros H. rewrite (IH H). reflexivity.
Qed.

Lemma fold_assoc_set_same {A : Type} (f : string -> A) keys : forall s,
  (forall k, In k keys -> assoc_get k s = Some (f k)) ->
  fold_left (fun s k => assoc_set k (f k) s) keys s = s.
Proof.
  induction keys as [|k keys IH]; intros s H; [reflexivity|].
  cbn [fold_left]. rewrite assoc_set_same by (apply H; left; reflexivity).
  apply IH. intros k' Hk'. apply H. right. exact Hk'.
Qed.

(** X20: applying a bag of properties of the node's own twice is applying
    it once: when no key of the bag is special-cased or names a property
    that the host defines, the second application assigns every property
    the value it already holds, and leaves the machine as the first
    application made it. *)
Theorem ordinary_bag_twice_is_once P el h log n :
  (forall id, P <> VNode id) ->
  Forall (fun k => special k = false /\ k <> "className"
                   /\ host_key E (n_kind n) k = None) (for_in_keys [] P) ->
  h !! el = Some n ->
  (addProps E P el ;;; addProps E P el) (Machine h log)
  = addProps E P el (Machine h log).
Proof.
  intros HP Hord Hel. pose proof (lookup_lt_Some _ _ _ Hel) as Hlt.
  unfold bind. rewrite !addProps_eq. ms. rewrite (for_in_keys_heap h P HP).
  rewrite (for_each_general_props _ P el _ h log n HP Hord Hel).
  rewrite addProps_eq. ms. rewrite (for_in_keys_heap _ P HP).
  rewrite (for_each_general_props _ P el _ _ log
             (with_slots
                (fold_left (fun s k => assoc_set k (get_prop [] P k) s)
                   (for_in_keys [] P) (n_slots n)) n)
             HP Hord (list_lookup_insert_eq _ _ _ Hlt)).
  rewrite list_insert_insert_eq. cbn [n_slots with_slots].
  rewrite fold_assoc_set_same; [reflexivity|].
  intros k Hk.
  rewrite (assoc_get_fold_set (fun k => k) (fun k => get_prop [] P k)) by auto.
  assert (existsb (String.eqb k) (for_in_keys [] P) = true) as ->
    by (apply existsb_eqb_In, Hk).
  reflexivity.
Qed.

(** ** Arguments that run no user code *)

Lemma fold_append_new_length el ks : forall h,
  List.length (fold_left (append_new el) ks h) = List.length h + List.length ks.
Proof.
  induction ks as [|k ks IH]; intros h; cbn [fold_left List.length]; [lia|].
  rewrite IH, append_new_length. lia.
Qed.

Lemma ordinary_bag_keys kind v :
  ordinary_bag E kind v = true ->
  (forall h, object_toString E h v = "[object Object]") /\
  (forall id, v <> VNode id) /\
  Forall (fun k => special k = false /\ k <> "className"
                   /\ host_key E kind k = None) (for_in_keys [] v).
Proof.
  destruct v; try discriminate. cbn [ordinary_bag]. intros H.
  apply andb_true_iff in H as [Htag Hkeys]. apply String.eqb_eq in Htag.
  subst tag.
  split; [reflexivity|]. split; [discriminate|].
  cbn [for_in_keys]. apply List.Forall_forall. intros k Hk.
  rewrite forallb_forall in Hkeys. specialize (Hkeys k Hk).
  unfold own_key in Hkeys. rewrite !andb_true_iff in Hkeys.
  destruct Hkeys as [[H1 H2] H3].
  apply negb_true_iff in H1, H2. apply bool_decide_eq_true in H3.
  split; [exact H1|]. split; [|exact H3].
  intros ->. discriminate H2.
Qed.

Lemma simple_loop el kind args : forall h1 log n1,
  forallb (simple_arg E kind) args = true ->
  h1 !! el = Some n1 -> is_element n1 = true -> n_kind n1 = kind ->
  exists h2 n2,
    for_each (dispatch E el) args (Machine h1 log) = Ok tt (Machine h2 log) /\
    h2 !! el = Some n2 /\ n_kind n2 = n_kind n1 /\
    n_children n2
    = n_children n1
      ++ seq (List.length h1) (List.length (simple_leaves E kind args)) /\
    List.length h2
    = List.length h1 + List.length (simple_leaves E kind args) /\
    (forall i leaf,
        simple_leaves E kind args !! i = Some leaf ->
        h2 !! (List.length h1 + i) = Some (child_of el (leaf_kind E leaf))) /\
    (forall i, i <> el -> i < List.length h1 -> h2 !! i = h1 !! i).
Proof.
  induction args as [|a args IH]; intros h1 log n1 Hall Hel Hn Hkind.
  - exists h1, n1. cbn [simple_leaves flat_map List.length seq].
    rewrite app_nil_r, Nat.add_0_r.
    repeat split; try reflexivity; try assumption. intros i leaf Hi. discriminate Hi.
  - cbn [forallb] in Hall. apply andb_true_iff in Hall as [Ha Hall].
    pose proof (lookup_lt_Some _ _ _ Hel) as Hlt.
    rewrite for_each_cons. unfold simple_arg in Ha.
    destruct (ordinary_bag E kind a) eqn:Hbag.
    + (* a bag of ordinary properties *)
      destruct (ordinary_bag_keys _ _ Hbag) as (Htag & Hnode & Hkeys).
      unfold bind. rewrite dispatch_object by apply Htag.
      rewrite addProps_eq. ms. rewrite (for_in_keys_heap h1 a Hnode).
      rewrite <- Hkind in Hkeys.
      rewrite (for_each_general_props _ a el _ h1 log n1 Hnode Hkeys Hel).
      set (n1' := with_slots _ n1).
      destruct (IH (<[el := n1']> h1) log n1' Hall
                  (list_lookup_insert_eq _ _ _ Hlt) Hn Hkind)
        as (h2 & n2 & Hrun & Hel2 & Hk2 & Hc2 & Hlen2 & Hnew2 & Hold2).
      rewrite length_insert in *.
      exists h2, n2. unfold simple_leaves in *. cbn [flat_map]. rewrite Hbag.
      cbn [app]. repeat split; try assumption.
      intros i Hi Hilt. rewrite (Hold2 i Hi Hilt).
      apply list_lookup_insert_ne. congruence.
    + (* an inert child *)
      cbn [orb] in Ha. apply andb_true_iff in Ha as [Hchild Hinert].
      destruct (child_arg_tag h1 a Hchild) as [Htag Hfun].
      unfold bind. rewrite (dispatch_child E el a (Machine h1 log) Htag Hfun).
      rewrite (addChildren_inert _ _ _ Hinert _ _ _ Hel Hn).
      set (ks := leaf_kind E <$> leaves a).
      set (h1' := fold_left (append_new el) ks h1).
      assert (List.length ks = List.length (leaves a)) as Hks
        by (unfold ks; apply length_fmap).
      assert (List.length h1' = List.length h1 + List.length (leaves a)) as Hlen1
        by (unfold h1'; rewrite fold_append_new_length, Hks; reflexivity).
      pose proof (fold_append_new el ks h1 n1 Hel) as Hel1. fold h1' in Hel1.
      destruct (IH h1' log _ Hall Hel1 Hn Hkind)
        as (h2 & n2 & Hrun & Hel2 & Hk2 & Hc2 & Hlen2 & Hnew2 & Hold2).
      exists h2, n2. unfold simple_leaves in *. cbn [flat_map]. rewrite Hbag.
      rewrite length_app. cbn [n_children with_children n_kind] in *.
      split; [exact Hrun|]. split; [exact Hel2|]. split; [exact Hk2|].
      split; [|split; [|split]].
      * rewrite Hc2, Hlen1, Hks, <- app_assoc, <- seq_app. reflexivity.
      * rewrite Hlen2, Hlen1. lia.
      * intros i leaf Hi.
        destruct (Nat.lt_ge_cases i (List.length (leaves a))) as [Hi1|Hi2].
        -- rewrite lookup_app_l in Hi by exact Hi1.
           rewrite Hold2 by lia. unfold h1'.
           apply (fold_append_new_nth _ _ _ _ _ _ Hel).
           unfold ks. rewrite list_lookup_fmap, Hi. reflexivity.
        -- rewrite lookup_app_r in Hi by exact Hi2.
           replace (List.length h1 + i)
             with (List.length h1' + (i - List.length (leaves a))) by lia.
           apply Hnew2, Hi.
      * intros i Hi Hilt. rewrite Hold2 by lia. unfold h1'.
        apply (fold_append_new_old _ _ _ _ _ Hel Hi Hilt).
Qed.

(** X21: the arguments that run no user code and no setter of the host
    never fail: for a tag that the host accepts and arguments that are
    inert children or bags of properties of the element's own (keys that
    are neither special-cased nor defined by the host on an element of
    that tag), [createElement] returns the new element and calls nothing;
    the children of the element are the new nodes, one for each leaf of the
    children among the arguments, in the order of the arguments, and every
    node that existed before is as it was. *)
Theorem createElement_of_simple_arguments tag args h log :
  tag_ok E tag = true ->
  forallb (simple_arg E (KElement tag)) args = true ->
  let el := List.length h in
  exists h' n,
    createElement E tag args (Machine h log) = Ok el (Machine h' log) /\
    h' !! el = Some n /\ n_kind n = KElement tag /\
    n_children n
    = seq (S el) (List.length (simple_leaves E (KElement tag) args)) /\
    (forall i leaf,
        simple_leaves E (KElement tag) args !! i = Some leaf ->
        h' !! (S el + i) = Some (child_of el (leaf_kind E leaf))) /\
    (forall i, i < el -> h' !! i = h !! i).
Proof.
  intros Htag Hall el.
  destruct (simple_loop el (KElement tag) args (h ++ [new_node (KElement tag)])
              log (new_node (KElement tag)) Hall
              ltac:(apply list_lookup_middle; reflexivity) eq_refl eq_refl)
    as (h2 & n2 & Hrun & Hel2 & Hk2 & Hc2 & Hlen2 & Hnew2 & Hold2).
  rewrite length_app in *. cbn [List.length] in *.
  replace (List.length h + 1) with (S el) in * by (unfold el; lia).
  exists h2, n2. split; [|split; [|split; [|split; [|split]]]].
  - rewrite createElement_eq. unfold document_createElement. rewrite Htag.
    unfold alloc. ms. fold el. rewrite Hrun. reflexivity.
  - exact Hel2.
  - exact Hk2.
  - exact Hc2.
  - exact Hnew2.
  - intros i Hi. rewrite Hold2 by (unfold el in *; lia).
    apply lookup_app_l. exact Hi.
Qed.

Lemma append_new_update el (g : node -> node) p h k :
  h !! el = Some p ->
  (forall n cs, g (with_children cs n) = with_children cs (g n)) ->
  append_new el (<[el := g p]> h) k
  = <[el := g (with_children (n_children p ++ [List.length h]) p)]>
      (append_new el h k).
Proof.
  intros Hel Hg. pose proof (lookup_lt_Some _ _ _ Hel) as Hlt.
  assert (n_children (g p) = n_children p) as Hcs.
  { pose proof (Hg p (n_children p)) as H.
    replace (with_children (n_children p) p) with p in H by (destruct p; reflexivity).
    rewrite H. reflexivity. }
  rewrite (append_new_eq el (g p) (<[el := g p]> h) k)
    by (apply list_lookup_insert_eq, Hlt).
  rewrite (append_new_eq el p h k Hel).
  rewrite length_insert, Hcs, Hg.
  rewrite <- insert_app_l by exact Hlt.
  rewrite list_insert_insert_eq. symmetry.
  rewrite (list_insert_insert_ne _ el (List.length h)) by lia.
  rewrite list_insert_insert_eq. reflexivity.
Qed.

Lemma fold_append_new_update el (g : node -> node) ks : forall p h,
  h !! el = Some p ->
  (forall n cs, g (with_children cs n) = with_children cs (g n)) ->
  fold_left (append_new el) ks (<[el := g p]> h)
  = <[el := g (with_children
                 (n_children p ++ seq (List.length h) (List.length ks)) p)]>
      (fold_left (append_new el) ks h).
Proof.
  induction ks as [|k ks IH]; intros p h Hel Hg.
  - cbn [fold_left List.length seq]. rewrite app_nil_r.
    replace (with_children (n_children p) p) with p by (destruct p; reflexivity).
    reflexivity.
  - cbn [fold_left List.length seq].
    rewrite (append_new_update el g p h k Hel Hg).
    rewrite (IH _ _ (append_new_parent _ _ _ k Hel) Hg).
    rewrite append_new_length. cbn [n_children with_children].
    rewrite <- app_assoc. reflexivity.
Qed.

(** X22: properties of the element's own and children in any order: after
    arguments that run no user code and no setter of the host, a bag whose
    keys are neither special-cased nor defined by the host on an element of
    the tag, followed by an inert child, gives what the child followed by
    the bag gives. *)
Theorem properties_and_children_commute tag args1 P c args2 m :
  forallb (simple_arg E (KElement tag)) args1 = true ->
  ordinary_bag E (KElement tag) P = true ->
  child_arg c = true -> inert c = true ->
  createElement E tag (args1 ++ P :: c :: args2) m
  = createElement E tag (args1 ++ c :: P :: args2) m.
Proof.
  intros Hpre HP Hc Hi. rewrite !createElement_eq.
  unfold document_createElement.
  destruct (tag_ok E tag); [|reflexivity].
  unfold alloc. set (el := List.length (m_heap m)).
  set (h0 := m_heap m ++ [new_node (KElement tag)]).
  set (log := m_calls m).
  destruct (simple_loop el (KElement tag) args1 h0 log (new_node (KElement tag))
              Hpre ltac:(apply list_lookup_middle; reflexivity) eq_refl eq_refl)
    as (h1 & n1 & Hrun & Hel & Hk & _).
  cbn [n_kind new_node] in Hk.
  assert (is_element n1 = true) as Hn by (unfold is_element; rewrite Hk; reflexivity).
  pose proof (lookup_lt_Some _ _ _ Hel) as Hlt.
  destruct (ordinary_bag_keys _ _ HP) as (Htag & Hnode & Hkeys).
  destruct (child_arg_tag h1 c Hc) as [Hctag Hcfun].
  set (ks := leaf_kind E <$> leaves c).
  set (S1 := fold_left (fun s k => assoc_set k (get_prop [] P k) s)
               (for_in_keys [] P) (n_slots n1)).
  assert (forall h n, h !! el = Some n -> n_kind n = KElement tag ->
            dispatch E el P (Machine h log)
            = Ok tt (Machine
                       (<[el := with_slots
                                  (fold_left
                                     (fun s k => assoc_set k (get_prop [] P k) s)
                                     (for_in_keys [] P) (n_slots n)) n]> h) log))
    as HdP.
  { intros h n Hh Hkn. rewrite dispatch_object by apply Htag.
    rewrite addProps_eq. ms. rewrite (for_in_keys_heap h P Hnode).
    rewrite <- Hkn in Hkeys.
    apply (for_each_general_props _ P el _ h log n Hnode Hkeys Hh). }
  assert (forall h n, h !! el = Some n -> is_element n = true ->
            dispatch E el c (Machine h log)
            = Ok tt (Machine (fold_left (append_new el) ks h) log)) as Hdc.
  { intros h n Hh Hen.
    destruct (child_arg_tag h c Hc) as [Ht Hf].
    rewrite (dispatch_child E el c (Machine h log) Ht Hf).
    apply (addChildren_inert _ _ _ Hi _ _ _ Hh Hen). }
  assert (for_each (dispatch E el) (P :: c :: nil) (Machine h1 log)
          = for_each (dispatch E el) (c :: P :: nil) (Machine h1 log)) as Hswap.
  { rewrite !for_each_cons. cbn [for_each]. unfold bind.
    rewrite (HdP _ _ Hel Hk).
    fold S1.
    rewrite (Hdc (<[el := with_slots S1 n1]> h1) (with_slots S1 n1)
               (list_lookup_insert_eq _ _ _ Hlt) Hn).
    rewrite (Hdc _ _ Hel Hn).
    rewrite (HdP _ _ (fold_append_new el ks h1 n1 Hel) Hk).
    cbn [ret]. f_equal. f_equal.
    rewrite (fold_append_new_update el (with_slots S1) ks n1 h1 Hel)
      by reflexivity.
    reflexivity. }
  change (args1 ++ P :: c :: args2) with (args1 ++ (P :: c :: nil) ++ args2).
  change (args1 ++ c :: P :: args2) with (args1 ++ (c :: P :: nil) ++ args2).
  rewrite !for_each_app. unfold bind. rewrite Hrun.
  rewrite !for_each_app. unfold bind. rewrite Hswap.
  reflexivity.
Qed.

Lemma attach_length el c h : List.length (attach el c h) = List.length h.
Proof.
  unfold attach. destruct (h !! el); [|reflexivity].
  destruct (h !! c); rewrite ?length_insert; reflexivity.
Qed.

Lemma adds_no_element_refl h : adds_no_element h h.
Proof.
  split; [apply keeps_kinds_refl|]. intros i n Hi Hn.
  apply lookup_lt_Some in Hn. lia.
Qed.

Lemma adds_no_element_trans h1 h2 h3 :
  adds_no_element h1 h2 -> adds_no_element h2 h3 -> adds_no_element h1 h3.
Proof.
  intros [Hk12 Hn12] [Hk23 Hn23].
  split; [apply (keeps_kinds_trans _ _ _ Hk12 Hk23)|].
  intros i n Hi Hn. destruct (Nat.lt_ge_cases i (List.length h2)) as [Hlt|Hge].
  - destruct (lookup_lt_is_Some_2 h2 i Hlt) as [n2 Hn2].
    destruct (Hk23 i n2 Hn2) as (n' & Hn' & Hkind).
    rewrite Hn in Hn'. injection Hn' as <-.
    pose proof (Hn12 i n2 Hi Hn2) as He.
    unfold is_element in *. rewrite Hkind. exact He.
  - apply (Hn23 i n Hge Hn).
Qed.

Lemma adds_no_element_grow h n :
  is_element n = false -> adds_no_element h (h ++ [n]).
Proof.
  intros He. split; [apply keeps_payload_kinds, keeps_payload_grow|].
  intros i x Hi Hx. pose proof (lookup_lt_Some _ _ _ Hx) as Hlt.
  rewrite length_app in Hlt. cbn [List.length] in Hlt.
  assert (i = List.length h) as -> by lia.
  rewrite list_lookup_middle in Hx by reflexivity. injection Hx as <-. exact He.
Qed.

Lemma adds_no_element_move h el c : adds_no_element h (attach el c (detach c h)).
Proof.
  split; [apply keeps_payload_kinds, keeps_payload_move|].
  intros i n Hi Hn. apply lookup_lt_Some in Hn.
  rewrite attach_length, detach_length in Hn. lia.
Qed.

(** X23: [addChildren] creates texts and comments only: when no user
    function creates an element, removes a node or changes the kind of
    one, every node that the heap has after [addChildren] beyond those it
    had before is a text or a comment, and the nodes it had before are
    still there, each of its kind, whether [addChildren] returns or
    raises. *)
Theorem addChildren_creates_no_element v el m :
  (forall f this args h, adds_no_element h (fn_heap (fn_call E f this args h))) ->
  match addChildren E v el m with
  | Ok _ m' | Throw _ m' => adds_no_element (m_heap m) (m_heap m')
  end.
Proof.
  intros Hfn.
  apply (RM_addChildren adds_no_element adds_no_element_refl
           adds_no_element_trans Hfn
           (fun h s => adds_no_element_grow h (new_node (KText s)) eq_refl)
           (fun h s => adds_no_element_grow h (new_node (KComment s)) eq_refl)
           adds_no_element_move).
Qed.

(** ** Arrays inside a class array *)

Lemma join_with_strings ts m :
  join_with (to_string E) (VStr <$> ts) m = Ok ts m.
Proof.
  revert m. induction ts as [|t ts IH]; intros m; [reflexivity|].
  cbn [fmap list_fmap join_with is_nullish]. unfold bind at 1.
  rewrite (to_string_primitive (VStr t) m eq_refl). unfold bind.
  change (list_fmap string value VStr ts) with (VStr <$> ts).
  rewrite IH. reflexivity.
Qed.

Lemma to_string_array_of_strings ts m :
  to_string E (VArr (VStr <$> ts) []) m = Ok (String.concat "," ts) m.
Proof.
  rewrite to_string_eq. unfold to_primitive_with. cbn [is_primitive].
  unfold bind at 1. unfold try_method at 1. unfold bind at 1.
  unfold get_heap at 1. ms.
  assert (method (m_heap m) (VArr (VStr <$> ts) []) "toString" = Some Native)
    as ->.
  { unfold method, lookup_prop. rewrite key_index_named by reflexivity.
    reflexivity. }
  cbn [String.eqb Ascii.eqb Bool.eqb]. unfold bind at 1.
  cbn [native_toString_with]. unfold bind at 1.
  rewrite join_with_strings. reflexivity.
Qed.

(** X24: a class array is not flattened: an array of strings inside the
    class array is converted to one string, its elements joined by commas,
    and that string is added to the class list as one token, when the host
    accepts it as a token. *)
Theorem class_arrays_are_not_flattened el h log n ts :
  h !! el = Some n -> is_element n = true ->
  valid_token (String.concat "," ts) = true ->
  addProps E (plain [("class", VArr [VArr (VStr <$> ts) []] [])]) el
    (Machine h log)
  = Ok tt (Machine
             (<[el := with_class
                        (String.concat " "
                           (token_add (class_list n) (String.concat "," ts)))
                        n]> h) log).
Proof.
  intros Hel Hn Hv. rewrite addProps_class. cbn [isArray array_items].
  unfold classList_add. unfold bind at 1. unfold get_node at 1. ms.
  rewrite Hel, Hn. cbn [negb]. unfold bind at 1. cbn [map_m].
  unfold bind at 1. rewrite to_string_array_of_strings.
  change ((ys <- ret [] ;; ret (String.concat "," ts :: ys)) (Machine h log))
    with (Ok [String.concat "," ts] (Machine h log)).
  cbn [validate_tokens]. apply valid_token_spec in Hv as [Hne Hws].
  destruct (String.eqb_spec (String.concat "," ts) EmptyString) as [Heq|_];
    [destruct (Hne Heq)|].
  rewrite Hws. unfold bind, get_node. ms. rewrite Hel. reflexivity.
Qed.

End Further.

(** ** The further properties at concrete inputs *)

Lemma array_of_children_is_spread_witness :
  quiet (VArr [VStr "a"; VNull] []) = true /\
  forallb child_arg [VStr "a"; VNull] = true /\
  createElement sample_env "div" [VArr [VStr "a"; VNull] []] (Machine [] [])
  = createElement sample_env "div" [VStr "a"; VNull] (Machine [] []).
Proof.
  split; [reflexivity|]. split; [reflexivity|].
  apply (array_of_children_is_spread sample_env "div" [] [VStr "a"; VNull] [] []
           (Machine [] []) eq_refl eq_refl).
Defined.

Lemma hooks_are_called_once_in_order_witness :
  tag_ok sample_env "div" = true /\
  match createElement sample_env "div" [VFun 0; VFun 6] (Machine [] []) with
  | Ok r m' => r = 0 /\ m_calls m' = [hook_call 0 0; hook_call 0 6]
  | Throw _ m' =>
      exists pre f post,
        [0; 6] = pre ++ f :: post /\
        m_calls m' = [] ++ (hook_call 0 <$> pre ++ [f])
  end.
Proof.
  split; [reflexivity|].
  apply (hooks_are_called_once_in_order sample_env "div" [0; 6] (Machine [] [])
           eq_refl).
Defined.

Lemma created_element_adopts_node_witness :
  closed [new_node (KElement "span")] = true /\
  exists h',
    createElement sample_env "div" [VNode 0]
      (Machine [new_node (KElement "span")] [])
    = Ok 1 (Machine h' []) /\
    h' !! 1 = Some (with_children [0] div) /\
    h' !! 0 = Some (with_parent (Some 1) (new_node (KElement "span"))).
Proof.
  split; [reflexivity|].
  destruct (created_element_adopts_node sample_env "div" 0
              (new_node (KElement "span")) [new_node (KElement "span")] []
              eq_refl eq_refl eq_refl eq_refl eq_refl)
    as (h' & Hrun & _ & Hel & Hc & _).
  exists h'. split; [exact Hrun|]. split; [exact Hel | exact Hc].
Defined.

Lemma aliases_stand_for_their_property_witness :
  NoDup (canonical <$> ["for"; "tabindex"]) /\
  addProps sample_env (plain [("for", VStr "me"); ("tabindex", VNum 2)]) 0 one_div
  = addProps sample_env (plain [("htmlFor", VStr "me"); ("tabIndex", VNum 2)]) 0
      one_div.
Proof.
  assert (NoDup (canonical <$> ["for"; "tabindex"])) as Hnd.
  { apply NoDup_cons. split; [|apply NoDup_singleton].
    intros H. apply list_elem_of_singleton in H. discriminate H. }
  split; [exact Hnd|].
  apply (aliases_stand_for_their_property sample_env
           [("for", VStr "me"); ("tabindex", VNum 2)] 0 one_div Hnd).
Defined.

Lemma class_arrays_accumulate_and_strings_replace_witness :
  validate_tokens ["a"; "b"] = None /\ validate_tokens ["b"; "c"] = None /\
  (addProps sample_env (plain [("class", VArr [VStr "a"; VStr "b"] [])]) 0 ;;;
   addProps sample_env (plain [("class", VArr [VStr "b"; VStr "c"] [])]) 0) one_div
  = addProps sample_env
      (plain [("class", VArr [VStr "a"; VStr "b"; VStr "b"; VStr "c"] [])]) 0
      one_div.
Proof.
  split; [reflexivity|]. split; [reflexivity|].
  apply (class_arrays_accumulate_and_strings_replace sample_env 0 [div] [] div
           ["a"; "b"] ["b"; "c"] "x" eq_refl eq_refl eq_refl eq_refl).
Defined.

Lemma style_rules_are_merged_witness :
  Forall (fun r => is_primitive
                     (get_prop [] (plain [("width", VStr "200px");
                                          ("height", VStr "40px")]) r) = true)
         ["width"; "height"] /\
  addProps sample_env
    (plain [("style", plain [("width", VStr "200px"); ("height", VStr "40px")])])
    0 one_div
  = Ok tt (Machine
             [with_style [("width", VStr "200px"); ("height", VStr "40px")] div]
             []).
Proof.
  assert (Forall (fun r => is_primitive
                     (get_prop [] (plain [("width", VStr "200px");
                                          ("height", VStr "40px")]) r) = true)
                 ["width"; "height"]) as Hprim
    by (repeat constructor).
  split; [exact Hprim|].
  apply (proj1 (style_rules_are_merged sample_env 0 [div] [] div
                  (plain [("width", VStr "200px"); ("height", VStr "40px")])
                  eq_refl eq_refl ltac:(discriminate) Hprim)).
Defined.

Lemma dataset_is_merged_as_strings_witness :
  Forall (fun k => data_ok sample_env k = true
                   /\ is_primitive
                        (get_prop [] (plain [("foo", VStr "bar"); ("n", VNum 5)]) k)
                      = true)
         ["foo"; "n"] /\
  addProps sample_env
    (plain [("dataset", plain [("foo", VStr "bar"); ("n", VNum 5)])]) 0 one_div
  = Ok tt (Machine [with_dataset [("foo", "bar"); ("n", "5")] div] []).
Proof.
  assert (Forall (fun k => data_ok sample_env k = true
                   /\ is_primitive
                        (get_prop [] (plain [("foo", VStr "bar"); ("n", VNum 5)]) k)
                      = true)
                 ["foo"; "n"]) as Hok
    by (repeat constructor).
  split; [exact Hok|].
  apply (dataset_is_merged_as_strings sample_env 0 [div] [] div
           (plain [("foo", VStr "bar"); ("n", VNum 5)])
           eq_refl eq_refl ltac:(discriminate) Hok).
Defined.



Lemma addProps_keeps_the_writes_before_a_failure_witness :
  addProp sample_env
    (plain [("id", VStr "x"); ("class", VArr [VStr "a b"] []); ("title", VStr "t")])
    0 "class" (Machine [with_attrs [("id", "x")] div] [])
  = Throw (DOMException "InvalidCharacterError")
      (Machine [with_attrs [("id", "x")] div] []) /\
  addProps sample_env
    (plain [("id", VStr "x"); ("class", VArr [VStr "a b"] []); ("title", VStr "t")])
    0 one_div
  = Throw (DOMException "InvalidCharacterError")
      (Machine [with_attrs [("id", "x")] div] []).
Proof.
  split; [reflexivity|].
  apply (addProps_keeps_the_writes_before_a_failure sample_env
           [("id", VStr "x")] "class" (VArr [VStr "a b"] []) [("title", VStr "t")]
           0 one_div (Machine [with_attrs [("id", "x")] div] []) _ _
           eq_refl eq_refl).
Defined.

Lemma special_keys_need_an_element_witness :
  is_element (new_node (KText "t")) = false /\
  addProps sample_env (plain [("style", plain [("width", VStr "1px")])]) 0
    (Machine [new_node (KText "t")] [])
  = Throw TypeError (Machine [new_node (KText "t")] []) /\
  addProps sample_env (plain [("id", VStr "x")]) 0
    (Machine [new_node (KText "t")] [])
  = Ok tt (Machine [with_slots [("id", VStr "x")] (new_node (KText "t"))] []).
Proof.
  split; [reflexivity|].
  destruct (special_keys_need_an_element sample_env 0 [new_node (KText "t")] []
              (new_node (KText "t")) eq_refl eq_refl)
    as (_ & _ & Hobj & Hord).
  split.
  - apply (Hobj "style" (plain [("width", VStr "1px")])).
    + left. reflexivity.
    + discriminate.
  - apply (Hord "id" (VStr "x")); [left|]; reflexivity.
Defined.

Lemma hooks_of_a_produced_node_are_not_invoked_witness :
  quiet widget = true /\
  get_prop [] widget "toElement" = VFun 1 /\
  contains [div; hooked_span] 2 1 0 = false /\
  addChildren node_1_env widget 0 div_and_span
  = Ok tt (Machine [with_children [1] div; with_parent (Some 0) hooked_span]
             [Call 1 widget []]).
Proof.
  split; [reflexivity|]. split; [reflexivity|]. split; [reflexivity|].
  apply (hooks_of_a_produced_node_are_not_invoked node_1_env 0 widget 1 1 [div; hooked_span] [] [div; hooked_span] div hooked_span
           eq_refl ltac:(discriminate) eq_refl eq_refl eq_refl eq_refl
           eq_refl eq_refl eq_refl eq_refl).
Defined.

Lemma child_without_toString_is_converted_by_valueOf_witness :
  method [div] (plain [("toString", VNum 5)]) "toString" = None /\
  append_one sample_env (plain [("toString", VNum 5)]) 0 one_div
  = Throw TypeError one_div.
Proof.
  split; [reflexivity|].
  apply (child_without_toString_is_converted_by_valueOf sample_env 0
           (plain [("toString", VNum 5)]) [div] []
           eq_refl eq_refl eq_refl eq_refl eq_refl).
  intros f. discriminate.
Defined.

Lemma addProps_leaves_the_tree_alone_witness :
  (forall f this args h, same_tree h (fn_heap (fn_call idle_env f this args h))) /\
  (forall k t kind,
      In k ["note"; "class"] -> target k = Some t ->
      host_key idle_env kind t = None) /\
  match addProps idle_env (plain [("note", VStr "x"); ("class", VStr "c")]) 0
          one_div
  with
  | Ok _ m' | Throw _ m' => same_tree (m_heap one_div) (m_heap m')
  end.
Proof.
  assert (forall f this args h,
             same_tree h (fn_heap (fn_call idle_env f this args h))) as Hfn
    by (intros f this args h; reflexivity).
  assert (forall k t kind,
             In k ["note"; "class"] -> target k = Some t ->
             host_key idle_env kind t = None) as Hkeys.
  { intros k t kind [<-|[<-|[]]] [= <-]; destruct kind; reflexivity. }
  split; [exact Hfn|]. split; [exact Hkeys|].
  apply (addProps_leaves_the_tree_alone idle_env
           (plain [("note", VStr "x"); ("class", VStr "c")]) 0 one_div Hfn
           ltac:(discriminate) Hkeys).
Defined.

Lemma addChildren_writes_no_property_witness :
  (forall f this args h,
      keeps_payload h (fn_heap (fn_call idle_env f this args h))) /\
  match addChildren idle_env nested 0 one_div with
  | Ok _ m' | Throw _ m' => keeps_payload (m_heap one_div) (m_heap m')
  end.
Proof.
  assert (forall f this args h,
             keeps_payload h (fn_heap (fn_call idle_env f this args h))) as Hfn.
  { intros f this args h id n H. exists n. split; [exact H | reflexivity]. }
  split; [exact Hfn|].
  apply (addChildren_writes_no_property idle_env nested 0 one_div Hfn).
Defined.

Lemma createElement_returns_an_element_of_the_tag_witness :
  (forall f this args h,
      keeps_kinds h (fn_heap (fn_call idle_env f this args h))) /\
  createElement idle_env "div" [VStr "a"] (Machine [] [])
  = Ok 0 (Machine [with_children [1] div; child_of 0 (KText "a")] []) /\
  exists n,
    [with_children [1] div; child_of 0 (KText "a")] !! 0 = Some n /\
    n_kind n = KElement "div".
Proof.
  assert (forall f this args h,
             keeps_kinds h (fn_heap (fn_call idle_env f this args h))) as Hfn.
  { intros f this args h id n H. exists n. split; [exact H | reflexivity]. }
  split; [exact Hfn|]. split; [reflexivity|].
  destruct (createElement_returns_an_element_of_the_tag idle_env "div" [VStr "a"]
              (Machine [] []) 0
              (Machine [with_children [1] div; child_of 0 (KText "a")] [])
              Hfn eq_refl) as (_ & Hn & _).
  exact Hn.
Defined.

Lemma ordinary_bag_twice_is_once_witness :
  Forall (fun k => special k = false /\ k <> "className"
                   /\ host_key sample_env (n_kind div) k = None)
         (for_in_keys [] bag_note_b) /\
  (addProps sample_env bag_note_b 0 ;;; addProps sample_env bag_note_b 0) one_div
  = addProps sample_env bag_note_b 0 one_div.
Proof.
  assert (Forall (fun k => special k = false /\ k <> "className"
                           /\ host_key sample_env (n_kind div) k = None)
                 (for_in_keys [] bag_note_b)) as Hord
    by (repeat constructor; discriminate).
  split; [exact Hord|].
  apply (ordinary_bag_twice_is_once sample_env bag_note_b 0 [div] [] div
           ltac:(discriminate) Hord eq_refl).
Defined.

Lemma createElement_of_simple_arguments_witness :
  forallb (simple_arg sample_env (KElement "div"))
    [plain [("note", VStr "x")]; VStr "Hello"; VArr [VNull; VNum 5] []] = true /\
  exists h' n,
    createElement sample_env "div"
      [plain [("note", VStr "x")]; VStr "Hello"; VArr [VNull; VNum 5] []]
      (Machine [] [])
    = Ok 0 (Machine h' []) /\
    h' !! 0 = Some n /\ n_kind n = KElement "div" /\ n_children n = [1; 2; 3].
Proof.
  split; [reflexivity|].
  destruct (createElement_of_simple_arguments sample_env "div"
              [plain [("note", VStr "x")]; VStr "Hello"; VArr [VNull; VNum 5] []]
              [] [] eq_refl eq_refl)
    as (h' & n & Hrun & Hel & Hk & Hc & _).
  exists h', n. split; [exact Hrun|]. split; [exact Hel|].
  split; [exact Hk | exact Hc].
Defined.

Lemma properties_and_children_commute_witness :
  ordinary_bag sample_env (KElement "div") bag_note_a = true /\
  child_arg (VStr "a") = true /\ inert (VStr "a") = true /\
  createElement sample_env "div" [bag_note_a; VStr "a"] (Machine [] [])
  = createElement sample_env "div" [VStr "a"; bag_note_a] (Machine [] []).
Proof.
  split; [reflexivity|]. split; [reflexivity|]. split; [reflexivity|].
  apply (properties_and_children_commute sample_env "div" [] bag_note_a (VStr "a") []
           (Machine [] []) eq_refl eq_refl eq_refl eq_refl).
Defined.

Lemma addChildren_creates_no_element_witness :
  (forall f this args h,
      adds_no_element h (fn_heap (fn_call idle_env f this args h))) /\
  match addChildren idle_env nested 0 one_div with
  | Ok _ m' | Throw _ m' => adds_no_element (m_heap one_div) (m_heap m')
  end.
Proof.
  assert (forall f this args h,
             adds_no_element h (fn_heap (fn_call idle_env f this args h))) as Hfn.
  { intros f this args h. cbn [fn_heap fn_call idle_env sample_host]. split.
    - intros id n H. exists n. split; [exact H | reflexivity].
    - intros i n Hi Hn. apply lookup_lt_Some in Hn. lia. }
  split; [exact Hfn|].
  apply (addChildren_creates_no_element idle_env nested 0 one_div Hfn).
Defined.

Lemma class_arrays_are_not_flattened_witness :
  valid_token (String.concat "," ["b"; "c"]) = true /\
  addProps sample_env (plain [("class", VArr [VArr [VStr "b"; VStr "c"] []] [])])
    0 (Machine [with_class "a" div] [])
  = Ok tt (Machine [with_class "a b,c" div] []).
Proof.
  split; [reflexivity|].
  apply (class_arrays_are_not_flattened sample_env 0 [with_class "a" div] []
           (with_class "a" div) ["b"; "c"] eq_refl eq_refl eq_refl).
Defined.
